(** * Correlation utilities: GNF post-processing and the windowed
      density-fluctuation estimator

    A shallow embedding of [Correlation/src/corr_utils.py] and
    [Correlation/src/py_files/df2_nobp.py], and of the name that
    [Correlation/src/py_files/div2.py] writes to its log.

    Numbers.  The Python code computes with binary64 floats (numpy, pandas).
    The statements verified here are the exact-arithmetic ones, so a float is
    modelled by a real number [R]; box sizes, frame numbers, segment numbers
    and pixels, which are integers in the program, are [Z].  Division by zero
    yields inf/nan in numpy; every theorem below that goes through a division
    carries the hypothesis that keeps the divisor away from zero, so nothing
    depends on the value Rocq gives to [x / 0].

    Tables.  A pandas DataFrame whose columns are known is a list of row
    records, in row order; a DataFrame whose columns are only known by label
    (the CSV files of [average_data]) is an association list of labelled
    columns, in column order.  A Python dict with string keys is a
    [gmap string _]; where the order of its keys matters (the dicts that
    [plot_kinetics] returns) it is an association list in insertion order.

    Errors.  A Python exception is a value of [PyError]; a function that can
    raise returns in the error monad [Res]. *)

From Stdlib Require Import Reals Lra Lia ZArith Sorted Ascii.
From stdpp Require Import base decidable option list gmap strings fin_maps.

(* ===================================================================== *)
(** * Python exceptions and the error monad *)
(* ===================================================================== *)

Inductive PyError : Type :=
| ValueError (msg : string)
| UnboundLocalError (var : string)
| IndexError (msg : string)
| KeyError (key : string)
| AssertionError
| ZeroDivisionError
| RuntimeError (msg : string).

Inductive Res (A : Type) : Type :=
| Ok (a : A)
| Raise (e : PyError).
Arguments Ok {A} a.
Arguments Raise {A} e.

Definition bind {A B : Type} (m : Res A) (k : A -> Res B) : Res B :=
  match m with
  | Ok a => k a
  | Raise e => Raise e
  end.

Notation "x <-- m ;; k" := (bind m (fun x => k))
  (at level 100, m at next level, right associativity, only parsing).

Definition is_ValueError {A : Type} (r : Res A) : Prop :=
  match r with
  | Raise (ValueError _) => True
  | _ => False
  end.

(* ===================================================================== *)
(** * Decidable comparisons on reals *)
(* ===================================================================== *)

#[global] Instance Rlt_decision : RelDecision Rlt := Rlt_dec.
#[global] Instance Rle_decision : RelDecision Rle := Rle_dec.
#[global] Instance Rgt_decision : RelDecision Rgt := Rgt_dec.
#[global] Instance Rge_decision : RelDecision Rge := Rge_dec.
#[global] Instance Req_decision : EqDecision R := Req_dec_T.

(* ===================================================================== *)
(** * The [xlim] / [tlim] / [fitting_range] argument *)
(* ===================================================================== *)

(** The values a caller can pass for a range argument, by their Python
    type: [None], an [int], a [float], a [list] of numbers, a [tuple] of
    numbers, a [str]. *)
Inductive limit : Type :=
| LimNone
| LimInt (t : Z)
| LimFloat (x : R)
| LimList (items : list R)
| LimTuple (items : list R)
| LimStr (s : string).

(** The three shapes the docstrings allow: [None], [int], list of 2. *)
Definition limit_shape_ok (lim : limit) : bool :=
  match lim with
  | LimNone => true
  | LimInt _ => true
  | LimList [_; _] => true
  | _ => false
  end.

(* ===================================================================== *)
(** * numpy / pandas primitives *)
(* ===================================================================== *)

Section Primitives.
Local Open Scope R_scope.

(** [sum(l)] *)
Definition Rsum (l : list R) : R := foldr Rplus 0 l.

(** [Series.mean()], [ndarray.mean()] *)
Definition mean (l : list R) : R := Rsum l / INR (length l).

(** [ndarray.std()], the population standard deviation ([ddof = 0]) *)
Definition std (l : list R) : R :=
  sqrt (mean (map (fun x => (x - mean l) * (x - mean l)) l)).

(** [s.iat[0]] *)
Definition iat0 (l : list R) : Res R :=
  match l with
  | [] => Raise (IndexError "index 0 is out of bounds for axis 0 with size 0")
  | x :: _ => Ok x
  end.

(** Every [S k]-th element of [l], after skipping the first [skip]. *)
Fixpoint every_nth {A : Type} (k skip : nat) (l : list A) : list A :=
  match l with
  | [] => []
  | x :: l' =>
      match skip with
      | O => x :: every_nth k k l'
      | S skip' => every_nth k skip' l'
      end
  end.

(** The positional slice [s[0:len(s):step]]. *)
Definition slice_step {A : Type} (l : list A) (step : Z) : Res (list A) :=
  match step with
  | Z0 => Raise (ValueError "slice step cannot be zero")
  | Zpos p => Ok (every_nth (Nat.pred (Pos.to_nat p)) 0 l)
  | Zneg _ => Ok []
  end.

(** [drop_duplicates()]: keeps the first occurrence of each value, in
    order of first occurrence. *)
Fixpoint drop_duplicates {A : Type} `{EqDecision A} (l : list A) : list A :=
  match l with
  | [] => []
  | x :: l' => x :: filter (fun y => y <> x) (drop_duplicates l')
  end.

End Primitives.

(* ===================================================================== *)
(** * fig-2 GNF: [postprocess_gnf], [plot_std], [plot_kinetics] *)
(* ===================================================================== *)

(** A row of GNF data: columns [n], [d], and [segment] (kinetics data). *)
Record gnf_row : Type := GnfRow { col_n : R; col_d : R; col_segment : Z }.

(** A row of light-intensity data: columns [t], [intensity]. *)
Record i_row : Type := IRow { col_t : R; col_intensity : R }.

Section Gnf.
Local Open Scope R_scope.

(** The [if / elif / elif] chain of [postprocess_gnf] (lines 33-38).  It
    has no [else]: for any other argument [data] is never assigned and
    the first use of [data] on line 40 raises [UnboundLocalError]. *)
Definition postprocess_gnf_select (gnf_data : list gnf_row) (lb : R) (xlim : limit)
  : Res (list gnf_row) :=
  match xlim with
  | LimNone => Ok gnf_data
  | LimInt t => Ok (filter (fun r => col_n r < IZR t * lb ^ 2) gnf_data)
  | LimList [x0; x1] =>
      Ok (filter (fun r => col_n r >= x0 * lb ^ 2 /\ col_n r < x1 * lb ^ 2) gnf_data)
  | _ => Raise (UnboundLocalError "data")
  end.

Definition postprocess_gnf (gnf_data : list gnf_row) (lb : R) (xlim : limit) (sparse : Z)
  : Res (list R * list R) :=
  data <-- postprocess_gnf_select gnf_data lb xlim ;;
  let xx := map (fun r => col_n r / lb ^ 2) data in
  let yy := map (fun r => col_d r / sqrt (col_n r)) data in
  y0 <-- iat0 yy ;;
  let yy := map (fun y => y / y0) yy in
  x <-- slice_step xx sparse ;;
  y <-- slice_step yy sparse ;;
  Ok (x, y).

(** [plot_std], lines 155-162: the rows kept by [tlim]. *)
Definition plot_std_select (k_data : list gnf_row) (seg_length : Z) (tlim : limit) (fps : Z)
  : Res (list gnf_row) :=
  match tlim with
  | LimNone => Ok k_data
  | LimInt t =>
      Ok (filter (fun r => IZR ((col_segment r - 1) * seg_length) < IZR (t * fps)) k_data)
  | LimList [t0; t1] =>
      Ok (filter (fun r => IZR ((col_segment r - 1) * seg_length) < t1 * IZR fps
                           /\ IZR ((col_segment r - 1) * seg_length) >= t0 * IZR fps) k_data)
  | _ => Raise (ValueError "tlim must be None, int or list of 2 int")
  end.

(** [plot_std], lines 165-170: the segments that get a curve. *)
Definition plot_std_seg_list (data : list gnf_row) (num_curves : Z) : Res (list Z) :=
  let segs := drop_duplicates (map col_segment data) in
  let num_total := Z.of_nat (length segs) in
  if decide (num_total < num_curves)%Z then Ok segs
  else if decide (num_curves = 0)%Z then Raise ZeroDivisionError
  else Ok (map (fun j => (Zfloor (IZR num_total / IZR num_curves * INR j)
                          + foldr Z.min (hd 0%Z (map col_segment data)) (map col_segment data))%Z)
               (seq 0 (Z.to_nat num_curves))).

(** The loop of [plot_std], lines 174-179: one curve per listed segment.
    [symbol_list] has 7 markers.  The dict [plot_data] has the keys
    ['l0'], ['l1'], ... in this order, so it is modelled by the list of
    its values. *)
Fixpoint plot_std_curves (data : list gnf_row) (lb : R) (xlim : limit)
    (num : nat) (seg_list : list Z) : Res (list (list R * list R)) :=
  match seg_list with
  | [] => Ok []
  | i :: rest =>
      xy <-- postprocess_gnf (filter (fun r => col_segment r = i) data) lb xlim 3 ;;
      _ <-- (if decide (num < 7)%nat then Ok tt
             else Raise (IndexError "list index out of range")) ;;
      more <-- plot_std_curves data lb xlim (S num) rest ;;
      Ok (xy :: more)
  end.

(** [plot_std]; the figure and axis handles are not modelled, the
    returned value is [plot_data]. *)
Definition plot_std (k_data : list gnf_row) (seg_length : Z) (tlim xlim : limit)
    (lb : R) (fps : Z) (num_curves : Z) : Res (list (list R * list R)) :=
  data <-- plot_std_select k_data seg_length tlim fps ;;
  seg_list <-- plot_std_seg_list data num_curves ;;
  plot_std_curves data lb xlim 0 seg_list.

(** [plot_kinetics] and [plot_kinetics_eo], the block under
    [# apply tlim]: the rows of [k_data] and [i_data] that are kept. *)
Definition plot_kinetics_apply_tlim (k_data : list gnf_row) (i_data : list i_row)
    (tlim : limit) (seg_length fps : Z) : Res (list gnf_row * list i_row) :=
  let tc r := IZR ((col_segment r - 1) * seg_length) / IZR fps in
  match tlim with
  | LimNone => Ok (k_data, i_data)
  | LimInt t =>
      Ok (filter (fun r => tc r < IZR t) k_data,
          filter (fun r => col_t r / IZR fps < IZR t) i_data)
  | LimList [t0; t1] =>
      if decide (t1 > t0) then
        Ok (filter (fun r => tc r < t1 /\ tc r >= t0) k_data,
            filter (fun r => col_t r / IZR fps < t1 /\ col_t r / IZR fps >= t0) i_data)
      else Raise AssertionError
  | _ => Raise (ValueError "tlim should be None, int or list of 2 int")
  end.

End Gnf.

(* ===================================================================== *)
(** * fig-3 spatial correlations: [corr_length], [plot_correlation] *)
(* ===================================================================== *)

(** A row of correlation data: columns [R], [C], [conc]. *)
Record corr_row : Type := CorrRow { col_R : R; col_C : R; col_conc : Z }.

Section Correlation.
Local Open Scope R_scope.

(** [scipy.optimize.curve_fit(exp, xdata, ydata, p0=[0.01])]: the fitted
    decay rate [popt[0]], or the solver's own error. *)
Variable curve_fit : list R -> list R -> Res R.

(** [corr_length], lines 563-570. *)
Definition corr_length_select (data : list corr_row) (fitting_range : limit)
  : Res (list corr_row) :=
  match fitting_range with
  | LimNone => Ok data
  | LimInt t => Ok (filter (fun r => col_R r < IZR t) data)
  | LimList [r0; r1] => Ok (filter (fun r => col_R r < r1 /\ col_R r >= r0) data)
  | _ => Raise (ValueError "fitting_range should be None, int or list of 2 int")
  end.

Definition corr_length (data : list corr_row) (fitting_range : limit) : Res (R * R) :=
  data <-- corr_length_select data fitting_range ;;
  a <-- curve_fit (map col_R data) (map col_C data) ;;
  Ok (1 / a, a).

(** [plot_correlation] with the default [plot_cols = ['R', 'C']], the
    block under [# process data, apply xlim]; [data] is the table after
    [sort_values]. *)
Definition plot_correlation_apply_xlim (data : list corr_row) (xlim : limit)
  : Res (list corr_row) :=
  match xlim with
  | LimNone => Ok data
  | LimInt t => Ok (filter (fun r => col_R r < IZR t) data)
  | LimList [x0; x1] => Ok (filter (fun r => col_R r < x1 /\ col_R r >= x0) data)
  | _ => Raise (ValueError "xlim must be None, int or list of 2 ints")
  end.

End Correlation.

(* ===================================================================== *)
(** * [average_data] *)
(* ===================================================================== *)

(** A cell of a numeric CSV column; [None] is pandas' NaN (a missing
    value), which every arithmetic operation propagates. *)
Definition cell : Type := option R.

(** A DataFrame read by [pd.read_csv]: a [RangeIndex] of [df_len] rows and
    labelled columns, in column order. *)
Record DataFrame : Type := MkDataFrame {
  df_len : nat;
  df_cols : list (string * list cell)
}.

(** Every column has one cell per row, and [read_csv] makes labels unique. *)
Definition df_wf (data : DataFrame) : Prop :=
  Forall (fun lc => length (snd lc) = df_len data) (df_cols data)
  /\ NoDup (map fst (df_cols data)).

Section AverageData.
Local Open Scope R_scope.

(** [data.columns] *)
Definition df_labels (data : DataFrame) : list string := map fst (df_cols data).

(** [data[label]] for a label that is present *)
Fixpoint assoc (label : string) (cols : list (string * list cell)) : option (list cell) :=
  match cols with
  | [] => None
  | (l, c) :: rest => if decide (l = label) then Some c else assoc label rest
  end.

Definition df_column (label : string) (data : DataFrame) : option (list cell) :=
  assoc label (df_cols data).

(** [data[labels]]: the listed columns, in the listed order, same index. *)
Definition df_select (labels : list string) (data : DataFrame) : DataFrame :=
  {| df_len := df_len data;
     df_cols := omap (fun l => pair l <$> df_column l data) labels |}.

Definition cell_add (a b : cell) : cell :=
  match a, b with
  | Some x, Some y => Some (x + y)
  | _, _ => None
  end.

(** One column of [temp += other]: the sum is aligned on the index and
    then reindexed like [temp], so it has the rows of [temp]; a row that
    [other] lacks becomes NaN. *)
Fixpoint col_iadd (c other : list cell) : list cell :=
  match c with
  | [] => []
  | a :: c' =>
      match other with
      | [] => None :: col_iadd c' []
      | b :: other' => cell_add a b :: col_iadd c' other'
      end
  end.

(** [temp += other], for two frames with the same column labels. *)
Definition df_iadd (temp other : DataFrame) : DataFrame :=
  {| df_len := df_len temp;
     df_cols := map (fun lc => (fst lc, col_iadd (snd lc) (default [] (df_column (fst lc) other))))
                    (df_cols temp) |}.

(** [temp / k] *)
Definition df_div (temp : DataFrame) (k : nat) : DataFrame :=
  {| df_len := df_len temp;
     df_cols := map (fun lc => (fst lc, map (fun a : cell => (fun x => x / INR k) <$> a) (snd lc)))
                    (df_cols temp) |}.

(** A column reindexed to [m] rows: the rows it lacks are NaN. *)
Definition col_pad (m : nat) (c : list cell) : list cell :=
  c ++ replicate (m - length c) None.

(** [pd.concat([a, b], axis=1)]: an outer join on the index, which for two
    range indexes is the longer one. *)
Definition df_concat_axis1 (a b : DataFrame) : DataFrame :=
  let m := Nat.max (df_len a) (df_len b) in
  {| df_len := m;
     df_cols := map (fun lc => (fst lc, col_pad m (snd lc))) (df_cols a ++ df_cols b) |}.

(** The check at the head of the loop body. *)
Fixpoint check_labels (columns : list string) (data : DataFrame) : Res unit :=
  match columns with
  | [] => Ok tt
  | label :: rest =>
      if decide (label ∈ df_labels data) then check_labels rest data
      else Raise (IndexError ("Column '" +:+ label +:+ "' does not exist in given data"))
  end.

(** The loop over the files of the directory.  The state is [k] and, once
    a file has been read, the pair of [temp] and [data]. *)
Fixpoint average_loop (files : list DataFrame) (columns : list string)
    (k : nat) (st : option (DataFrame * DataFrame))
  : Res (nat * option (DataFrame * DataFrame)) :=
  match files with
  | [] => Ok (k, st)
  | data :: rest =>
      _ <-- check_labels columns data ;;
      let temp :=
        match k, st with
        | S _, Some (temp, _) => df_iadd temp (df_select columns data)
        | _, _ => df_select columns data
        end in
      average_loop rest columns (S k) (Some (temp, data))
  end.

(** [average_data(directory, columns)]; [files] are the CSV files of the
    directory as read, in the order of [corrLib.readdata]. *)
Definition average_data (files : list DataFrame) (columns : list string) : Res DataFrame :=
  kst <-- average_loop files columns 0 None ;;
  match kst with
  | (_, None) => Raise (UnboundLocalError "data")
  | (k, Some (temp, data)) =>
      let other_cols := filter (fun label => label ∉ columns) (df_labels data) in
      Ok (df_concat_axis1 (df_div temp k) (df_select other_cols data))
  end.

End AverageData.

(* ===================================================================== *)
(** * [kinetics_eo_smooth] *)
(* ===================================================================== *)

Section Smooth.

(** [scipy.ndimage.gaussian_filter1d(input, sigma)] *)
Variable gaussian_filter1d : list R -> Z -> list R.

(** [kw.startswith('t')] *)
Definition startswith_t (kw : string) : bool := String.prefix "t" kw.

(** One iteration of the loop: the value stored under [kw]. *)
Definition smooth_entry (kw : string) (v : list R) : list R :=
  if startswith_t kw then v
  else gaussian_filter1d v (Z.of_nat (length v) / 15 + 1)%Z.

(** The loop [for kw in data] that fills [new_data]. *)
Definition smooth_loop (data : gmap string (list R)) : gmap string (list R) :=
  map_fold (fun kw v new_data => <[kw := smooth_entry kw v]> new_data) ∅ data.

(** [new_data[key]] *)
Definition getitem (m : gmap string (list R)) (key : string) : Res (list R) :=
  match m !! key with
  | Some v => Ok v
  | None => Raise (KeyError key)
  end.

(** [kinetics_eo_smooth]: the plotting calls read the five entries they
    draw; the figure and the axes are not modelled, the returned value is
    [new_data]. *)
Definition kinetics_eo_smooth (data : gmap string (list R)) : Res (gmap string (list R)) :=
  let new_data := smooth_loop data in
  _ <-- getitem new_data "t0" ;;
  _ <-- getitem new_data "alpha" ;;
  _ <-- getitem new_data "t2" ;;
  _ <-- getitem new_data "E" ;;
  _ <-- getitem new_data "OP" ;;
  Ok new_data.

End Smooth.

(* ===================================================================== *)
(** * The windowed density-fluctuation estimator ([df2_nobp.py]) *)
(* ===================================================================== *)

(** A frame: a 2D array of pixel values, as a list of rows. *)
Definition image : Type := list (list Z).

(** [img.shape] *)
Definition img_shape (img : image) : Z * Z :=
  (Z.of_nat (length img), Z.of_nat (length (hd [] img))).

(** [L = min(img.shape)] *)
Definition shorter_side (img : image) : Z :=
  Z.min (fst (img_shape img)) (snd (img_shape img)).

(** Every pixel of the frame is zero. *)
Definition zero_image (img : image) : Prop :=
  forall row, row ∈ img -> forall p, p ∈ row -> p = 0%Z.

(** The long table [df]: one row per frame, box size and window. *)
Record df_row : Type := DfRow { df_I : R; df_t : Z; df_size : Z; df_number : nat }.

(** The table [df_out]: one row per window index and box size. *)
Record out_row : Type := OutRow { out_n : R; out_d : R; out_size : Z; out_number : nat }.

(** The table [average], written to [df_average.csv]: columns [n], [d]. *)
Record avg_row : Type := AvgRow { avg_n : R; avg_d : R }.

Section WindowSizes.
Local Open Scope R_scope.

Definition size_min : Z := 5.
Definition step : Z := 50 * size_min.

(** [np.log10] *)
Definition log10 (x : R) : R := ln x / ln 10.

(** [np.linspace(start, stop, num)] *)
Definition linspace (start stop : R) (num : nat) : list R :=
  map (fun i => start + INR i * ((stop - start) / INR (num - 1))) (seq 0 num).

(** [np.logspace(start, stop, num)], base 10 *)
Definition logspace (start stop : R) (num : nat) : list R :=
  map (Rpower 10) (linspace start stop num).

(** [np.unique]: the sorted distinct values. *)
Fixpoint insert_unique (x : Z) (l : list Z) : list Z :=
  match l with
  | [] => [x]
  | y :: l' =>
      if decide (x < y)%Z then x :: l
      else if decide (x = y) then l
      else y :: insert_unique x l'
  end.

Definition np_unique (l : list Z) : list Z := foldr insert_unique [] l.

(** [boxsize], lines 17-18, for an image whose shorter side is [L];
    [np.floor] yields whole numbers, kept as integers. *)
Definition boxsize (L : Z) : list Z :=
  np_unique (map Zfloor (logspace (log10 (IZR size_min))
                                  (log10 ((IZR L - IZR size_min) / 2)) 100)).

End WindowSizes.

Section Estimator.
Local Open Scope R_scope.

(** [corrLib.divide_windows(img, windowsize=[bs, bs], step=step)],
    reduced to its third result flattened, [I.flatten()]: the intensity
    of each window, in window order.  [corrLib] is not part of the
    sources at hand, so the function is a parameter. *)
Variable divide_windows : image -> Z -> Z -> list R.

(** The rows that one box size adds to [framedf] (lines 34-36). *)
Definition tempdf (img : image) (t : Z) (bs : Z) : list df_row :=
  imap (fun k v => DfRow v t bs k) (divide_windows img bs step).

(** The inner loop, lines 33-37. *)
Definition framedf (sizes : list Z) (frame : Z * image) : list df_row :=
  flat_map (tempdf (snd frame) (fst frame)) sizes.

(** The loop over the frames, lines 27-38. *)
Definition build_df (sizes : list Z) (frames : list (Z * image)) : list df_row :=
  flat_map (framedf sizes) frames.

(** Lines 40-48. *)
Definition build_df_out (df : list df_row) : list out_row :=
  flat_map (fun number =>
    let subdata1 := filter (fun r => df_number r = number) df in
    map (fun s =>
           let subdata := filter (fun r => df_size r = s) subdata1 in
           let d := IZR s ^ 2 * std (map df_I subdata) in
           let n := IZR s ^ 2 in
           OutRow n d s number)
        (drop_duplicates (map df_size subdata1)))
    (drop_duplicates (map df_number df)).

(** Lines 50-54. *)
Definition build_average (df_out : list out_row) : list avg_row :=
  map (fun s =>
         let subdata := filter (fun r => out_size r = s) df_out in
         AvgRow (mean (map out_n subdata)) (mean (map out_d subdata)))
      (drop_duplicates (map out_size df_out)).

(** The whole script, from the frames read by [readseq] and [io.imread]
    (frame number and pixels, in sequence order) to the table [average].
    [l.Dir.loc[0]] fails on an empty sequence.  The function [df2] of
    [corr_utils.py] has the same body. *)
Definition df2 (frames : list (Z * image)) : Res (list avg_row) :=
  match frames with
  | [] => Raise (KeyError "0")
  | (_, img) :: _ =>
      let L := shorter_side img in
      Ok (build_average (build_df_out (build_df (boxsize L) frames)))
  end.

(** ** What the estimator computes, in terms of its input *)

(** The intensity samples of window [k] at size [s] across all frames:
    one per frame that has such a window, in frame order. *)
Definition samples (frames : list (Z * image)) (s : Z) (k : nat) : list R :=
  omap (fun fr => divide_windows (snd fr) s step !! k) frames.

(** The number of windows of size [s] (the largest over the frames). *)
Definition max_windows (frames : list (Z * image)) (s : Z) : nat :=
  foldr Nat.max 0%nat (map (fun fr => length (divide_windows (snd fr) s step)) frames).

(** "Time variance, then spatial average": the mean over the window
    positions of [s^2] times the standard deviation in time. *)
Definition fluctuation (frames : list (Z * image)) (s : Z) : R :=
  mean (map (fun k => IZR s ^ 2 * std (samples frames s k))
            (seq 0 (max_windows frames s))).

(** The population in the spec's words, "collected across all windows of
    one size into a sample population": all window intensities of size
    [s], of all windows of all frames. *)
Definition pooled_samples (frames : list (Z * image)) (s : Z) : list R :=
  flat_map (fun fr => divide_windows (snd fr) s step) frames.

(** ** Intermediate tables, used in the proofs *)

(** The rows of [df] for window index [k], frame [fr] and size [bs]: at
    most one. *)
Definition row_at (fr : Z * image) (k : nat) (bs : Z) : list df_row :=
  match divide_windows (snd fr) bs step !! k with
  | Some v => [DfRow v (fst fr) bs k]
  | None => []
  end.

(** The number of windows of each frame and size, in scan order. *)
Definition window_counts (sizes : list Z) (frames : list (Z * image)) : list nat :=
  flat_map (fun fr => map (fun bs => length (divide_windows (snd fr) bs step)) sizes) frames.

(** The sizes met for window index [k], in scan order. *)
Definition sizes_scan (sizes : list Z) (frames : list (Z * image)) (k : nat) : list Z :=
  flat_map (fun fr => filter (fun bs => (k < length (divide_windows (snd fr) bs step))%nat) sizes)
           frames.

Definition sizes_of (sizes : list Z) (frames : list (Z * image)) (k : nat) : list Z :=
  drop_duplicates (sizes_scan sizes frames k).

Definition num_windows (sizes : list Z) (frames : list (Z * image)) : nat :=
  foldr Nat.max 0%nat (window_counts sizes frames).

(** The row of [df_out] for window index [k] and size [s]. *)
Definition out_at (frames : list (Z * image)) (k : nat) (s : Z) : out_row :=
  OutRow (IZR s ^ 2) (IZR s ^ 2 * std (samples frames s k)) s k.

End Estimator.

(** ** A tiling for [divide_windows] *)

(** Modelled from the spec: [corrLib.divide_windows] is missing from the
    sources; "a step (stride) between window positions".  The origins of
    the windows along one axis of length [dim]. *)
Definition window_origins (dim bs stride : nat) : list nat :=
  if decide (bs <= dim)%nat
  then map (fun k => (k * stride)%nat) (seq 0 ((dim - bs) / stride + 1))
  else [].

(** Modelled from the spec: [corrLib.divide_windows] is missing from the
    sources; "each window's summed pixel intensity".  The sum over the
    square window of side [bs] at row [r], column [c]. *)
Definition window_sum (img : image) (r c bs : nat) : Z :=
  foldr Z.add 0%Z (map (fun row => foldr Z.add 0%Z (take bs (drop c row)))
                       (take bs (drop r img))).

(** Modelled from the spec: [corrLib.divide_windows] is missing from the
    sources; "tile the frame into non-overlapping (or strided) windows of
    that size".  The window sums, row by row. *)
Definition tile_sums (img : image) (bs stride : Z) : list Z :=
  let b := Z.to_nat bs in
  let s := Z.to_nat stride in
  flat_map (fun r => map (fun c => window_sum img r c b)
                         (window_origins (length (hd [] img)) b s))
           (window_origins (length img) b s).

(** Modelled from the spec: [corrLib.divide_windows] is missing from the
    sources.  The spec's words: "tile the frame into non-overlapping (or
    strided) windows of that size; record each window's summed pixel
    intensity", with "a step (stride) between window positions". *)
Definition tile_windows (img : image) (bs stride : Z) : list R :=
  map IZR (tile_sums img bs stride).

(* ===================================================================== *)
(** * Auxiliary definitions for the proofs about [average_data] *)
(* ===================================================================== *)

(** [j] equal cells summed: [j * x]. *)
Definition col_scale (j : nat) (c : list cell) : list cell :=
  map (fun a : cell => (fun x => INR j * x)%R <$> a) c.

Definition df_scale (j : nat) (data : DataFrame) : DataFrame :=
  {| df_len := df_len data;
     df_cols := map (fun lc => (fst lc, col_scale j (snd lc))) (df_cols data) |}.

(* ===================================================================== *)
(** * Sample inputs *)
(* ===================================================================== *)

(** Three small CSV files with columns [R], [CA], [CV]. *)
Definition sample_csv : DataFrame :=
  {| df_len := 2;
     df_cols := [("R", [Some 1; Some 2]); ("CA", [Some 8; Some 4]); ("CV", [Some 6; Some 3])]%R |}.

Definition sample_csv_2 : DataFrame :=
  {| df_len := 2;
     df_cols := [("R", [Some 1; Some 2]); ("CA", [Some 6; Some 2]); ("CV", [Some 4; Some 1])]%R |}.

Definition sample_csv_short : DataFrame :=
  {| df_len := 1;
     df_cols := [("R", [Some 4]); ("CA", [Some 6]); ("CV", [Some 4])]%R |}.

(** A dict with the seven entries that [plot_kinetics_eo] returns. *)
Definition sample_kinetics : gmap string (list R) :=
  <["t0" := [0; 10]%R]> (<["alpha" := [0.5; 0.75]%R]> (<["t1" := [0; 1; 2]%R]>
  (<["i" := [0; 1; 1]%R]> (<["t2" := [0; 5]%R]> (<["E" := [3; 4]%R]>
  (<["OP" := [0.25; 0.5]%R]> ∅)))))).

(** A stand-in for the Gaussian filter: a running average with the
    neighbour to the right, whatever [sigma]. *)
Fixpoint pair_average (v : list R) (sigma : Z) : list R :=
  match v with
  | x :: ((y :: _) as v') => ((x + y) / 2)%R :: pair_average v' sigma
  | _ => v
  end.

(** One 300 x 300 frame: rows 0-149 of pixel value 0, rows 150-299 of
    pixel value 2. *)
Definition still300 : image :=
  replicate 150 (replicate 300 0%Z) ++ replicate 150 (replicate 300 2%Z).

(** One 15 x 15 frame of zeros. *)
Definition zero15 : image := replicate 15 (replicate 15 0%Z).

(* ===================================================================== *)
(** * fig-2 GNF, continued: [plot_kinetics], [kinetics_from_light_on] *)
(* ===================================================================== *)

(** A Python dict with string keys, in insertion order; keys are unique. *)
Definition pydict : Type := list (string * list R).

Fixpoint dict_get (key : string) (d : pydict) : option (list R) :=
  match d with
  | [] => None
  | (k, v) :: rest => if decide (k = key) then Some v else dict_get key rest
  end.

(** [d[key]] *)
Definition dict_getitem (d : pydict) (key : string) : Res (list R) :=
  match dict_get key d with
  | Some v => Ok v
  | None => Raise (KeyError key)
  end.

(** A row of energy and order data: columns [t], [E], [OP]. *)
Record eo_row : Type := EoRow { eo_t : R; eo_E : R; eo_OP : R }.

Section Kinetics.
Local Open Scope R_scope.

(** [np.polyfit(x, y, deg=1)], reduced to the slope [p[0]], or numpy's own
    error. *)
Variable polyfit : list R -> list R -> Res R.

(** [s.min()] and [s.max()]; on an empty series pandas gives NaN, which
    is never used because the series it is combined with is empty too. *)
Definition Rlist_min (l : list R) : R := foldr Rmin (hd 0 l) l.
Definition Rlist_max (l : list R) : R := foldr Rmax (hd 0 l) l.

(** The loop under [# compute exponents at different time]: the lists
    [t] and [power]. *)
Fixpoint plot_kinetics_fit (k_data : list gnf_row) (lb : R) (xlim : limit)
    (seg_length fps : Z) (segs : list Z) : Res (list R * list R) :=
  match segs with
  | [] => Ok ([], [])
  | idx :: rest =>
      xy <-- postprocess_gnf (filter (fun r => col_segment r = idx) k_data) lb xlim 3 ;;
      p <-- polyfit (map ln (fst xy)) (map ln (snd xy)) ;;
      more <-- plot_kinetics_fit k_data lb xlim seg_length fps rest ;;
      Ok (IZR ((idx - 1) * seg_length) / IZR fps :: fst more, p :: snd more)
  end.

(** The block under [# rescale light intensity to (0, 1)]. *)
Definition rescale_intensity (intensity : list R) : list R :=
  let i := map (fun v => v - Rlist_min intensity) intensity in
  map (fun v => v / Rlist_max i) i.

(** [plot_kinetics]; the figure and the axis are not modelled, the
    returned value is the dict [data]. *)
Definition plot_kinetics (k_data : list gnf_row) (i_data : list i_row)
    (tlim xlim : limit) (lb : R) (seg_length fps : Z) : Res pydict :=
  ki <-- plot_kinetics_apply_tlim k_data i_data tlim seg_length fps ;;
  let k_data := fst ki in
  let i_data := snd ki in
  tp <-- plot_kinetics_fit k_data lb xlim seg_length fps
           (drop_duplicates (map col_segment k_data)) ;;
  let t1 := map (fun r => col_t r / IZR fps) i_data in
  let i := rescale_intensity (map col_intensity i_data) in
  Ok [("t0", fst tp); ("alpha", snd tp); ("t1", t1); ("i", i)].

(** [plot_kinetics_eo], the block under [# apply tlim]. *)
Definition plot_kinetics_eo_apply_tlim (k_data : list gnf_row) (i_data : list i_row)
    (eo_data : list eo_row) (tlim : limit) (seg_length fps : Z)
  : Res (list gnf_row * list i_row * list eo_row) :=
  let tc r := IZR ((col_segment r - 1) * seg_length) / IZR fps in
  match tlim with
  | LimNone => Ok (k_data, i_data, eo_data)
  | LimInt t =>
      Ok (filter (fun r => tc r < IZR t) k_data,
          filter (fun r => col_t r / IZR fps < IZR t) i_data,
          filter (fun r => eo_t r < IZR t) eo_data)
  | LimList [t0; t1] =>
      if decide (t1 > t0) then
        Ok (filter (fun r => tc r < t1 /\ tc r >= t0) k_data,
            filter (fun r => col_t r / IZR fps < t1 /\ col_t r / IZR fps >= t0) i_data,
            filter (fun r => eo_t r < t1 /\ eo_t r >= t0) eo_data)
      else Raise AssertionError
  | _ => Raise (ValueError "tlim should be None, int or list of 2 int")
  end.

(** [plot_kinetics_eo]; the returned value is the dict [data]. *)
Definition plot_kinetics_eo (k_data : list gnf_row) (i_data : list i_row)
    (eo_data : list eo_row) (tlim xlim : limit) (lb : R) (seg_length fps : Z)
  : Res pydict :=
  kie <-- plot_kinetics_eo_apply_tlim k_data i_data eo_data tlim seg_length fps ;;
  let k_data := fst (fst kie) in
  let i_data := snd (fst kie) in
  let eo_data := snd kie in
  tp <-- plot_kinetics_fit k_data lb xlim seg_length fps
           (drop_duplicates (map col_segment k_data)) ;;
  let t1 := map (fun r => col_t r / IZR fps) i_data in
  let i := rescale_intensity (map col_intensity i_data) in
  Ok [("t0", fst tp); ("alpha", snd tp); ("t1", t1); ("i", i);
      ("t2", map eo_t eo_data); ("E", map eo_E eo_data); ("OP", map eo_OP eo_data)].

End Kinetics.

Section LightOn.
Local Open Scope R_scope.

(** [(i > i_thres).replace(False, np.nan).idxmax()]: the position of the
    first sample above the threshold. *)
Definition light_on_index (i : list R) : option nat :=
  let i_thres := (Rlist_max i + Rlist_min i) / 2 in
  fst <$> list_find (fun v => v > i_thres) i.

(** [np.array(values)[mask_source >= light_on_time]]: a boolean mask must
    have the length of the array it indexes. *)
Definition mask_select (values mask_source : list R) (light_on_time : R) : Res (list R) :=
  if decide (length values = length mask_source) then
    Ok (map fst (filter (fun p => snd p >= light_on_time) (zip values mask_source)))
  else Raise (IndexError "boolean index did not match indexed array along dimension 0").

(** The loop [for kw in data] of [kinetics_from_light_on]; [kws] is the
    part of the dict still to visit. *)
Fixpoint light_on_loop (data : pydict) (light_on_time : R) (kws : pydict) : Res pydict :=
  match kws with
  | [] => Ok []
  | (kw, v) :: rest =>
      nv <-- (if decide (kw = "t0") then
                t0 <-- dict_getitem data "t0" ;;
                sel <-- mask_select v t0 light_on_time ;;
                Ok (map (fun x => x - light_on_time) sel)
              else if decide (kw = "alpha") then
                t0 <-- dict_getitem data "t0" ;;
                mask_select v t0 light_on_time
              else if decide (kw = "t1") then
                t1 <-- dict_getitem data "t1" ;;
                sel <-- mask_select v t1 light_on_time ;;
                Ok (map (fun x => x - light_on_time) sel)
              else
                t1 <-- dict_getitem data "t1" ;;
                mask_select v t1 light_on_time) ;;
      more <-- light_on_loop data light_on_time rest ;;
      Ok ((kw, nv) :: more)
  end.

(** [kinetics_from_light_on]; the returned value is [new_data].  When no
    sample lies above the threshold pandas fails in [idxmax] or in the
    lookup that follows (which of the two depends on its version); both
    are an error here. *)
Definition kinetics_from_light_on (data : pydict) : Res pydict :=
  i <-- dict_getitem data "i" ;;
  match light_on_index i with
  | None => Raise (ValueError "attempt to get argmax of an empty sequence")
  | Some light_on_ind =>
      t1 <-- dict_getitem data "t1" ;;
      match t1 !! light_on_ind with
      | None => Raise (KeyError "light_on_ind")
      | Some light_on_time =>
          new_data <-- light_on_loop data light_on_time data ;;
          _ <-- dict_getitem new_data "t0" ;;
          _ <-- dict_getitem new_data "alpha" ;;
          Ok new_data
      end
  end.

(** The loop [for kw in data] of [kinetics_eo_from_light_on]. *)
Fixpoint light_on_loop_eo (data : pydict) (light_on_time : R) (kws : pydict) : Res pydict :=
  match kws with
  | [] => Ok []
  | (kw, v) :: rest =>
      nv <-- (if decide (kw = "t0" \/ kw = "t1" \/ kw = "t2") then
                own <-- dict_getitem data kw ;;
                sel <-- mask_select v own light_on_time ;;
                Ok (map (fun x => x - light_on_time) sel)
              else if decide (kw = "alpha") then
                t0 <-- dict_getitem data "t0" ;;
                mask_select v t0 light_on_time
              else if decide (kw = "i") then
                t1 <-- dict_getitem data "t1" ;;
                mask_select v t1 light_on_time
              else
                t2 <-- dict_getitem data "t2" ;;
                mask_select v t2 light_on_time) ;;
      more <-- light_on_loop_eo data light_on_time rest ;;
      Ok ((kw, nv) :: more)
  end.

(** [kinetics_eo_from_light_on]; the returned value is [new_data]. *)
Definition kinetics_eo_from_light_on (data : pydict) : Res pydict :=
  i <-- dict_getitem data "i" ;;
  match light_on_index i with
  | None => Raise (ValueError "attempt to get argmax of an empty sequence")
  | Some light_on_ind =>
      t1 <-- dict_getitem data "t1" ;;
      match t1 !! light_on_ind with
      | None => Raise (KeyError "light_on_ind")
      | Some light_on_time =>
          new_data <-- light_on_loop_eo data light_on_time data ;;
          _ <-- dict_getitem new_data "t0" ;;
          _ <-- dict_getitem new_data "alpha" ;;
          _ <-- dict_getitem new_data "t2" ;;
          _ <-- dict_getitem new_data "E" ;;
          _ <-- dict_getitem new_data "OP" ;;
          Ok new_data
      end
  end.

End LightOn.

(* ===================================================================== *)
(** * fig-3 spatial correlations, continued: [exp], [xy_to_r] *)
(* ===================================================================== *)

Module Fit.
(** [exp(x, a)], the model fitted by [corr_length]. *)
Definition exp (x a : R) : R := Rtrigo_def.exp (- a * x)%R.
End Fit.

(** A row of [corr_xy]: columns [X], [Y] and a correlation value. *)
Record xy_row : Type := XYRow { col_X : R; col_Y : R; col_corr : R }.

(** A row of [corr_r]: the columns of [corr_xy] and the new column [R]. *)
Record xyr_row : Type := XYRRow { xyr_X : R; xyr_Y : R; xyr_corr : R; xyr_R : R }.

Section XyToR.
Local Open Scope R_scope.

Definition xy_to_r (corr_xy : list xy_row) : Res (list xyr_row) :=
  match corr_xy with
  | [] => Raise (IndexError "single positional indexer is out-of-bounds")
  | first :: _ =>
      let step_x := col_X first in
      let step_y := col_Y first in
      Ok (map (fun r => XYRRow (col_X r) (col_Y r) (col_corr r)
                          (sqrt ((col_X r - step_x) ^ 2 + (col_Y r - step_y) ^ 2)))
              corr_xy)
  end.

End XyToR.

(* ===================================================================== *)
(** * [div2.py]: the name written to the log *)
(* ===================================================================== *)

(** [s.find(c)] for a one-character pattern: the index of the first
    occurrence, or -1. *)
Fixpoint str_find (c : Ascii.ascii) (s : string) : Z :=
  match s with
  | EmptyString => (-1)%Z
  | String a s' =>
      if decide (a = c) then 0%Z
      else let r := str_find c s' in
           if decide (r < 0)%Z then (-1)%Z else (r + 1)%Z
  end.

(** The slice [s[0:stop]]; a negative [stop] counts from the end. *)
Definition str_slice_to (s : string) (stop : Z) : string :=
  let n := Z.of_nat (String.length s) in
  let stop' := if decide (stop < 0)%Z then Z.max 0 (n + stop) else Z.min stop n in
  String.substring 0 (Z.to_nat stop') s.

(** Lines 35-36: [name_ind = file.find('-'); name = file[0: name_ind]]. *)
Definition log_name (file : string) : string :=
  str_slice_to file (str_find "-"%char file).

(* ===================================================================== *)
(** * fig-2 GNF, continued: [collapse_data] *)
(* ===================================================================== *)

(** A row of [collapsed]: the index [x] and the columns [avg], [std]. *)
Record collapsed_row : Type := CollapsedRow { cr_x : R; cr_avg : cell; cr_std : cell }.

Section Collapse.
Local Open Scope R_scope.

(** [data_merge.join(data, rsuffix=str(i))]: a left join on the index
    [x].  Every row of [data_merge] gets one more cell, the [y] of the
    row of [data] with the same [x], or NaN when [data] has none; a row
    that matches several rows of [data] is repeated for each of them. *)
Definition join_left (data_merge : list (R * list cell)) (data : list (R * R))
  : list (R * list cell) :=
  flat_map (fun row =>
              match filter (fun p => fst p = fst row) data with
              | [] => [(fst row, snd row ++ [None])]
              | matches => map (fun p => (fst row, snd row ++ [Some (snd p)])) matches
              end)
           data_merge.

(** The cells of a row that are not NaN. *)
Definition present (cs : list cell) : list R := omap (fun c : option R => c) cs.

(** [mean(axis=1)] of one row: NaN is skipped. *)
Definition row_mean (cs : list cell) : cell :=
  match present cs with
  | [] => None
  | xs => Some (mean xs)
  end.

(** [std(axis=1)] of one row: the sample standard deviation
    ([ddof = 1]) of the cells that are not NaN; NaN when fewer than two
    are left. *)
Definition row_std (cs : list cell) : cell :=
  match present cs with
  | [] => None
  | [_] => None
  | xs => Some (sqrt (Rsum (map (fun v => (v - mean xs) * (v - mean xs)) xs)
                      / (INR (length xs) - 1)))
  end.

(** The loop of [collapse_data] for [i >= 1]. *)
Fixpoint collapse_loop (gnf_data_tuple : list (list gnf_row)) (lb : R) (xlim : limit)
    (sparse : Z) (data_merge : list (R * list cell)) : Res (list (R * list cell)) :=
  match gnf_data_tuple with
  | [] => Ok data_merge
  | gnf_data :: rest =>
      xy <-- postprocess_gnf gnf_data lb xlim sparse ;;
      collapse_loop rest lb xlim sparse (join_left data_merge (zip (fst xy) (snd xy)))
  end.

(** [collapse_data]; on an empty tuple [data_merge] is never assigned. *)
Definition collapse_data (gnf_data_tuple : list (list gnf_row)) (lb : R) (xlim : limit)
    (sparse : Z) : Res (list collapsed_row) :=
  match gnf_data_tuple with
  | [] => Raise (UnboundLocalError "data_merge")
  | gnf_data :: rest =>
      xy <-- postprocess_gnf gnf_data lb xlim sparse ;;
      data_merge <-- collapse_loop rest lb xlim sparse
                       (map (fun p => (fst p, [Some (snd p)])) (zip (fst xy) (snd xy))) ;;
      Ok (map (fun row => CollapsedRow (fst row) (row_mean (snd row)) (row_std (snd row)))
              data_merge)
  end.

End Collapse.

(* ===================================================================== *)
(** * fig-3 spatial correlations, continued: [plot_correlation] *)
(* ===================================================================== *)

Section SortValues.
Context {A : Type} (le : A -> A -> Prop) `{!RelDecision le}.

Fixpoint insert_sorted (x : A) (l : list A) : list A :=
  match l with
  | [] => [x]
  | y :: l' => if decide (le x y) then x :: l else y :: insert_sorted x l'
  end.

(** [sort_values]: rows in ascending order of their keys; rows with equal
    keys keep their order. *)
Definition sort_values (l : list A) : list A := foldr insert_sorted [] l.

End SortValues.

(** The order of [sort_values(by=['R', 'conc'])]. *)
Definition corr_le (r1 r2 : corr_row) : Prop :=
  (col_R r1 < col_R r2)%R \/ (col_R r1 = col_R r2 /\ (col_conc r1 <= col_conc r2)%Z).

#[global] Instance corr_le_decision : RelDecision corr_le.
Proof. intros r1 r2. unfold corr_le. apply _. Defined.

(** The order of [sort_values(by='conc')] on the table [cl_data]. *)
Definition conc_le (a b : Z * R) : Prop := (fst a <= fst b)%Z.

#[global] Instance conc_le_decision : RelDecision conc_le.
Proof. intros a b. unfold conc_le. apply _. Defined.

Section PlotCorrelation.
Local Open Scope R_scope.

Variable curve_fit : list R -> list R -> Res R.

(** The loop of [plot_correlation] over the distinct concentrations: the
    rows [(conc, cl)] appended to [cl_data].  [symbol_list] has 5
    markers. *)
Fixpoint plot_correlation_loop (data : list corr_row) (num : nat) (concs : list Z)
  : Res (list (Z * R)) :=
  match concs with
  | [] => Ok []
  | nt :: rest =>
      let subdata := filter (fun r => col_conc r = nt) data in
      p <-- curve_fit (map col_R subdata) (map col_C subdata) ;;
      _ <-- (if decide (num < 5)%nat then Ok tt
             else Raise (IndexError "list index out of range")) ;;
      more <-- plot_correlation_loop data (S num) rest ;;
      Ok ((nt, 1 / p) :: more)
  end.

(** [plot_correlation] with the default [plot_cols = ['R', 'C']]; the
    axis is not modelled, the returned value is the table of
    correlation lengths, columns [conc] and [cl]. *)
Definition plot_correlation (data : list corr_row) (xlim : limit) : Res (list (Z * R)) :=
  let data := sort_values corr_le data in
  data <-- plot_correlation_apply_xlim data xlim ;;
  cl_data <-- plot_correlation_loop data 0 (drop_duplicates (map col_conc data)) ;;
  Ok (sort_values conc_le cl_data).

End PlotCorrelation.

(* ===================================================================== *)
(** * Auxiliary definitions for the further properties *)
(* ===================================================================== *)


(** The times that [tlim] lets through. *)
Definition within_tlim (tlim : limit) (v : R) : Prop :=
  match tlim with
  | LimInt t => (v < IZR t)%R
  | LimList [t0; t1] => (t0 <= v < t1)%R
  | _ => True
  end.

(** A stand-in for [np.polyfit]: slope 1, whatever the points. *)
Definition unit_slope (x y : list R) : Res R := Ok 1%R.

(** Kinetics data of three segments and the light intensity of four
    frames ([t] in frames). *)
Definition sample_k_data : list gnf_row :=
  [GnfRow 25 10 1; GnfRow 36 18 1; GnfRow 25 12 2; GnfRow 36 27 2; GnfRow 25 15 4]%R.

Definition sample_i_data : list i_row :=
  [IRow 0 3; IRow 100 7; IRow 200 5; IRow 300 6]%R.

(** The values that a boolean mask keeps, when the lengths agree. *)
Definition mask_keep (values mask_source : list R) (light_on_time : R) : list R :=
  map fst (filter (fun p => (snd p >= light_on_time)%R) (zip values mask_source)).

(** The entry that [kinetics_from_light_on] stores under [kw], given the
    time arrays ['t0'] and ['t1'] of [data]. *)
Definition light_on_value (t0 t1 : list R) (light_on_time : R)
    (kw : string) (v : list R) : list R :=
  if decide (kw = "t0") then map (fun x => (x - light_on_time)%R) (mask_keep v t0 light_on_time)
  else if decide (kw = "alpha") then mask_keep v t0 light_on_time
  else if decide (kw = "t1") then map (fun x => (x - light_on_time)%R) (mask_keep v t1 light_on_time)
  else mask_keep v t1 light_on_time.

(** The entry that [kinetics_eo_from_light_on] stores under [kw], given
    the time arrays ['t0'], ['t1'] and ['t2'] of [data]. *)
Definition light_on_value_eo (t0 t1 t2 : list R) (light_on_time : R)
    (kw : string) (v : list R) : list R :=
  if decide (kw = "t0" \/ kw = "t1" \/ kw = "t2")
  then map (fun x => (x - light_on_time)%R) (mask_keep v v light_on_time)
  else if decide (kw = "alpha") then mask_keep v t0 light_on_time
  else if decide (kw = "i") then mask_keep v t1 light_on_time
  else mask_keep v t2 light_on_time.

(** The result of a light-on shift of [data]: the keys and their order
    are kept, ['alpha'] stays aligned with ['t0'] and ['i'] with ['t1'],
    no time is negative, and time 0 is a sample of ['t1']. *)
Definition shifted_to_light_on (data new_data : pydict) : Prop :=
  exists new_t0 new_alpha new_t1 new_i,
    map fst new_data = map fst data
    /\ dict_get "t0" new_data = Some new_t0
    /\ dict_get "alpha" new_data = Some new_alpha
    /\ dict_get "t1" new_data = Some new_t1
    /\ dict_get "i" new_data = Some new_i
    /\ length new_alpha = length new_t0
    /\ length new_i = length new_t1
    /\ (forall v, v ∈ new_t0 ++ new_t1 -> (0 <= v)%R)
    /\ (0%R ∈ new_t1).

(** The same for the dict with energy and order: ['E'] and ['OP'] stay
    aligned with ['t2'], and no time of ['t2'] is negative. *)
Definition shifted_to_light_on_eo (data new_data : pydict) : Prop :=
  shifted_to_light_on data new_data
  /\ exists new_t2 new_E new_OP,
       dict_get "t2" new_data = Some new_t2
       /\ dict_get "E" new_data = Some new_E
       /\ dict_get "OP" new_data = Some new_OP
       /\ length new_E = length new_t2
       /\ length new_OP = length new_t2
       /\ (forall v, v ∈ new_t2 -> (0 <= v)%R).

(** A dict as [plot_kinetics] returns it, and one as [plot_kinetics_eo]
    returns it. *)
Definition sample_dict : pydict :=
  [("t0", [0; 10; 20]); ("alpha", [1; 2; 3]);
   ("t1", [0; 5; 10; 15]); ("i", [0; 0; 1; 1])]%R.

Definition sample_dict_eo : pydict :=
  [("t0", [0; 10; 20]); ("alpha", [1; 2; 3]);
   ("t1", [0; 5; 10; 15]); ("i", [0; 0; 1; 1]);
   ("t2", [0; 10]); ("E", [3; 4]); ("OP", [1; 2])]%R.

(** Energy and order data of three times ([t] in seconds). *)
Definition sample_eo_data : list eo_row :=
  [EoRow 0 3 1; EoRow 10 4 2; EoRow 30 5 3]%R.


(** A five-point correlation map on a grid of step 25. *)
Definition sample_corr_xy : list xy_row :=
  [XYRow 25 25 1; XYRow 50 25 0.5; XYRow 25 50 0.5; XYRow 50 50 0.25; XYRow 100 25 0.125]%R.

(** A stand-in for [curve_fit]: the decay rate 0.05, whatever the data. *)
Definition fixed_rate (xdata ydata : list R) : Res R := Ok 0.05%R.

(** The [y] that a curve has at [x]; NaN when it has no point there. *)
Definition lookup_y (x : R) (data : list (R * R)) : cell :=
  snd <$> head (filter (fun p => fst p = x) data).

(** A table on which [postprocess_gnf] divides by no zero: the selection
    is not empty, its first row has [d <> 0], and every selected [n] is
    positive; [lb] is not zero. *)
Definition gnf_regular (lb : R) (xlim : limit) (gnf_data : list gnf_row) : Prop :=
  lb <> 0%R
  /\ exists r0 rest,
       postprocess_gnf_select gnf_data lb xlim = Ok (r0 :: rest)
       /\ col_d r0 <> 0%R
       /\ forall r, r ∈ r0 :: rest -> (0 < col_n r)%R.

(** The row of [collapsed] at the point [(x, y)] of the first curve, given
    the other curves. *)
Definition collapsed_at (others : list (list (R * R))) (p : R * R) : collapsed_row :=
  let cells := Some (snd p) :: map (lookup_y (fst p)) others in
  CollapsedRow (fst p) (row_mean cells) (row_std cells).

(** The cell of column [label] at row [i] of a file; NaN when the file
    has no such column or no such row. *)
Definition cell_at (label : string) (i : nat) (f : DataFrame) : cell :=
  match df_column label f with
  | Some c => match c !! i with Some a => a | None => None end
  | None => None
  end.

(** The numbers in a list of cells, when none of them is NaN. *)
Fixpoint all_values (cs : list cell) : option (list R) :=
  match cs with
  | [] => Some []
  | Some x :: cs' => cons x <$> all_values cs'
  | None :: _ => None
  end.

(** The arithmetic mean of a list of cells: NaN as soon as one is NaN. *)
Definition cells_mean (cs : list cell) : cell := mean <$> all_values cs.

(** Window intensities after an affine change of the pixel scale: gain
    [a], and an offset [b s] that may depend on the window size. *)
Definition affine_windows (a : R) (b : Z -> R) (divide_windows : image -> Z -> Z -> list R)
  : image -> Z -> Z -> list R :=
  fun img bs stride => map (fun v => (a * v + b bs)%R) (divide_windows img bs stride).

(** A record of [average] with its [d] multiplied by [c]. *)
Definition scale_avg (c : R) (r : avg_row) : avg_row := AvgRow (avg_n r) (c * avg_d r)%R.

(** A frame with its number changed by [f]. *)
Definition renumber (f : Z -> Z) (fr : Z * image) : Z * image := (f (fst fr), snd fr).

(* ===================================================================== *)
(** * Facts about lists *)
(* ===================================================================== *)

Section ListFacts.
Context {A B : Type}.

Lemma filter_flat_map (P : B -> Prop) `{!forall x, Decision (P x)} (f : A -> list B) l :
  filter P (flat_map f l) = flat_map (fun x => filter P (f x)) l.
Proof.
  induction l as [|a l IH]; [done|].
  simpl. by rewrite filter_app, IH.
Qed.

Lemma map_flat_map {C : Type} (g : B -> C) (f : A -> list B) l :
  map g (flat_map f l) = flat_map (fun x => map g (f x)) l.
Proof.
  induction l as [|a l IH]; [done|].
  simpl. by rewrite map_app, IH.
Qed.

Lemma flat_map_ext_in (f g : A -> list B) l :
  (forall x, x ∈ l -> f x = g x) -> flat_map f l = flat_map g l.
Proof.
  induction l as [|a l IH]; intros H; [done|].
  simpl. rewrite (H a) by (by left). rewrite IH; [done|].
  intros x Hx. apply H. by right.
Qed.

Lemma elem_of_flat_map (f : A -> list B) l y :
  y ∈ flat_map f l <-> exists x, x ∈ l /\ y ∈ f x.
Proof.
  induction l as [|a l IH]; simpl.
  - split; [intros H; by apply elem_of_nil in H | intros (x & H & _); by apply elem_of_nil in H].
  - rewrite elem_of_app, IH. split.
    + intros [H|(x & Hx & Hy)]; [exists a; split; [by left|done] | exists x; split; [by right|done]].
    + intros (x & Hx & Hy). apply elem_of_cons in Hx as [->|Hx]; [by left | right; eauto].
Qed.

Lemma filter_all (P : A -> Prop) `{!forall x, Decision (P x)} (l : list A) :
  (forall x, x ∈ l -> P x) -> filter P l = l.
Proof.
  induction l as [|a l IH]; intros HP; [done|].
  rewrite filter_cons_True by (apply HP; by left).
  f_equal. apply IH. intros x Hx. apply HP. by right.
Qed.

Lemma flat_map_singleton_if (P : A -> Prop) `{!forall x, Decision (P x)} (f : A -> B) l :
  flat_map (fun x => if decide (P x) then [f x] else []) l = map f (filter P l).
Proof.
  induction l as [|a l IH]; [done|].
  simpl. rewrite filter_cons. destruct (decide (P a)); simpl; by rewrite IH.
Qed.

End ListFacts.

Section DropDuplicates.
Context {A : Type} `{EqDecision A}.

Lemma elem_of_drop_duplicates (l : list A) x : x ∈ drop_duplicates l <-> x ∈ l.
Proof.
  induction l as [|a l IH]; simpl; [done|].
  rewrite !elem_of_cons, list_elem_of_filter, IH.
  destruct (decide (x = a)); tauto.
Qed.

Lemma NoDup_drop_duplicates (l : list A) : NoDup (drop_duplicates l).
Proof.
  induction l as [|a l IH]; simpl; constructor.
  - rewrite list_elem_of_filter. tauto.
  - by apply NoDup_filter.
Qed.

Lemma filter_ne_id (a : A) (l : list A) : a ∉ l -> filter (fun y => y <> a) l = l.
Proof.
  induction l as [|b l IH]; intros H; [done|].
  rewrite filter_cons_True, IH; [done| |].
  - intros Hin. apply H. by right.
  - intros ->. apply H. by left.
Qed.

Lemma drop_duplicates_NoDup (l : list A) : NoDup l -> drop_duplicates l = l.
Proof.
  induction 1 as [|a l Hnot Hnd IH]; [done|].
  simpl. by rewrite IH, filter_ne_id.
Qed.

Lemma drop_duplicates_app (l1 l2 : list A) :
  drop_duplicates (l1 ++ l2)
  = drop_duplicates l1 ++ filter (fun y => y ∉ l1) (drop_duplicates l2).
Proof.
  induction l1 as [|a l1 IH]; simpl.
  - symmetry. apply filter_all. intros x _. apply not_elem_of_nil.
  - rewrite IH, filter_app. f_equal. f_equal.
    rewrite list_filter_filter. apply list_filter_iff.
    intros x. rewrite not_elem_of_cons. tauto.
Qed.

Lemma filter_not_elem_of_nil (l1 l2 : list A) :
  l2 ⊆ l1 -> filter (fun y => y ∉ l1) l2 = [].
Proof.
  induction l2 as [|b l2 IH]; intros Hsub; [done|].
  rewrite filter_cons_False by (intros H; apply H, Hsub; by left).
  apply IH. intros x Hx. apply Hsub. by right.
Qed.

(** Values met again later do not change the order of first occurrence. *)
Lemma drop_duplicates_app_subseteq (l1 l2 : list A) :
  NoDup l1 -> l2 ⊆ l1 -> drop_duplicates (l1 ++ l2) = l1.
Proof.
  intros Hnd Hsub. rewrite drop_duplicates_app, drop_duplicates_NoDup by done.
  rewrite filter_not_elem_of_nil; [apply app_nil_r|].
  intros x Hx. apply Hsub. by apply elem_of_drop_duplicates.
Qed.

End DropDuplicates.

(** Window indices: the scan meets [0, 1, ..., c - 1] for each table of
    [c] windows, so the distinct indices are an initial segment. *)
Lemma drop_duplicates_seqs (counts : list nat) :
  drop_duplicates (flat_map (seq 0) counts) = seq 0 (foldr Nat.max 0%nat counts).
Proof.
  induction counts as [|c counts IH]; [done|].
  simpl. rewrite drop_duplicates_app, IH.
  rewrite drop_duplicates_NoDup by apply NoDup_seq.
  set (M := foldr Nat.max 0%nat counts).
  assert (Hf : filter (fun y => y ∉ seq 0 c) (seq 0 M) = seq c (M - c)).
  { destruct (decide (c <= M)%nat) as [Hle|Hgt].
    - replace M with (c + (M - c))%nat at 1 by lia.
      rewrite seq_app, filter_app. simpl.
      rewrite filter_not_elem_of_nil by done. simpl.
      apply filter_all. intros x Hx. apply elem_of_seq in Hx.
      rewrite elem_of_seq. lia.
    - replace (M - c)%nat with 0%nat by lia. simpl.
      apply filter_not_elem_of_nil. intros x Hx.
      apply elem_of_seq in Hx. apply elem_of_seq. lia. }
  rewrite Hf. rewrite <- seq_app. f_equal. lia.
Qed.

Section MaxFacts.

Lemma le_foldr_max (l : list nat) x : x ∈ l -> (x <= foldr Nat.max 0 l)%nat.
Proof.
  induction l as [|y l IH]; intros Hx; [by apply elem_of_nil in Hx|].
  simpl. apply elem_of_cons in Hx as [->|Hx]; [lia|]. specialize (IH Hx). lia.
Qed.

Lemma foldr_max_le (l : list nat) b :
  (forall x, x ∈ l -> (x <= b)%nat) -> (foldr Nat.max 0 l <= b)%nat.
Proof.
  induction l as [|y l IH]; intros H; simpl; [lia|].
  assert (y <= b)%nat by (apply H; by left).
  assert (foldr Nat.max 0 l <= b)%nat by (apply IH; intros x Hx; apply H; by right).
  lia.
Qed.

Lemma lt_foldr_max (l : list nat) k :
  (k < foldr Nat.max 0 l)%nat <-> exists x, x ∈ l /\ (k < x)%nat.
Proof.
  induction l as [|y l IH]; simpl.
  - split; [lia | intros (x & Hx & _); by apply elem_of_nil in Hx].
  - split.
    + intros H. destruct (decide (k < y)%nat) as [Hy|Hy].
      * exists y. split; [by left | done].
      * destruct IH as [IH _]. destruct IH as (x & Hx & Hk); [lia|].
        exists x. split; [by right | done].
    + intros (x & Hx & Hk). apply elem_of_cons in Hx as [->|Hx]; [lia|].
      assert (k < foldr Nat.max 0 l)%nat by (apply IH; eauto). lia.
Qed.

Lemma filter_lt_seq m N :
  (m <= N)%nat -> filter (fun k => (k < m)%nat) (seq 0 N) = seq 0 m.
Proof.
  intros Hle. replace N with (m + (N - m))%nat by lia.
  rewrite seq_app, filter_app. simpl.
  rewrite filter_all by (intros x Hx; apply elem_of_seq in Hx; lia).
  assert (Hnone : forall l : list nat, (forall x, x ∈ l -> (m <= x)%nat) ->
                    filter (fun k => (k < m)%nat) l = []).
  { induction l as [|a l IH]; intros Hl; [done|].
    rewrite filter_cons_False by (assert (m <= a)%nat by (apply Hl; by left); lia).
    apply IH. intros x Hx. apply Hl. by right. }
  rewrite Hnone by (intros x Hx; apply elem_of_seq in Hx; lia).
  apply app_nil_r.
Qed.

Lemma map_ext_elem {A B : Type} (f g : A -> B) (l : list A) :
  (forall x, x ∈ l -> f x = g x) -> map f l = map g l.
Proof.
  induction l as [|a l IH]; intros H; [done|].
  simpl. rewrite (H a) by (by left). f_equal. apply IH.
  intros x Hx. apply H. by right.
Qed.

(** In a table with one row per key, selecting a key gives its row. *)
Lemma filter_map_key {A B : Type} `{EqDecision A} (f : A -> B) (g : B -> A)
    (s : A) (l : list A) :
  NoDup l -> (forall x, g (f x) = x) ->
  filter (fun r => g r = s) (map f l) = if decide (s ∈ l) then [f s] else [].
Proof.
  intros Hnd Hg. induction Hnd as [|a l Hnot Hnd IH].
  - by rewrite decide_False by apply not_elem_of_nil.
  - cbn [map]. rewrite filter_cons, Hg, IH.
    destruct (decide (a = s)) as [->|Hne].
    + destruct (decide (s ∈ l)) as [|_]; [done|].
      destruct (decide (s ∈ s :: l)) as [_|Hn]; [done | exfalso; apply Hn; by left].
    + destruct (decide (s ∈ l)) as [Hin|Hout];
        destruct (decide (s ∈ a :: l)) as [Hin'|Hout']; try done.
      * exfalso. apply Hout'. by right.
      * exfalso. apply elem_of_cons in Hin' as [?|?]; [congruence | done].
Qed.

End MaxFacts.

Section MeanFacts.
Local Open Scope R_scope.

Lemma Rsum_const {A : Type} (c : R) (l : list A) :
  Rsum (map (fun _ => c) l) = INR (length l) * c.
Proof.
  induction l as [|a l IH]; [simpl; lra|].
  cbn [map Rsum foldr length]. fold (Rsum (map (fun _ : A => c) l)).
  rewrite IH, S_INR. lra.
Qed.

Lemma mean_const {A : Type} (c : R) (l : list A) :
  l <> [] -> mean (map (fun _ => c) l) = c.
Proof.
  intros Hne. unfold mean. rewrite Rsum_const, length_map.
  field. apply not_0_INR. destruct l; [done | simpl; lia].
Qed.

(** A population in which all samples are equal has no spread. *)
Lemma std_const_list (c : R) (l : list R) :
  l <> [] -> (forall x, x ∈ l -> x = c) -> std l = 0.
Proof.
  intros Hne Hall. unfold std.
  assert (Hmap : l = map (fun _ => c) l).
  { rewrite <- (map_id l) at 1. apply map_ext_elem. intros x Hx. by apply Hall. }
  assert (Hmean : mean l = c).
  { rewrite Hmap. by apply mean_const. }
  rewrite Hmean.
  rewrite (map_ext_elem _ (fun _ => 0)).
  - rewrite mean_const by done. apply sqrt_0.
  - intros x Hx. rewrite (Hall x Hx). lra.
Qed.

End MeanFacts.

(* ===================================================================== *)
(** * Properties of the range arguments and of [postprocess_gnf] *)
(* ===================================================================== *)

Lemma bind_Ok {A B : Type} (m : Res A) (k : A -> Res B) (b : B) :
  bind m k = Ok b -> exists a, m = Ok a /\ k a = Ok b.
Proof. destruct m as [a|e]; simpl; intros H; [eauto | discriminate]. Qed.

Lemma Ok_inj {A : Type} (a b : A) : Ok a = Ok b -> a = b.
Proof. intros H. by injection H. Qed.

Lemma filter_ext_in {A : Type} (P1 P2 : A -> Prop)
    `{!forall x, Decision (P1 x), !forall x, Decision (P2 x)} (l : list A) :
  (forall x, x ∈ l -> (P1 x <-> P2 x)) -> filter P1 l = filter P2 l.
Proof.
  induction l as [|a l IH]; intros Hiff; [done|].
  rewrite !filter_cons.
  rewrite IH by (intros x Hx; apply Hiff; by right).
  destruct (decide (P1 a)) as [H1|H1], (decide (P2 a)) as [H2|H2]; try done;
    exfalso; pose proof (Hiff a ltac:(by left)); tauto.
Qed.

(** Evaluates closed integer expressions under [IZR], for [lra]. *)
Ltac eval_IZR :=
  repeat match goal with
    | H : context [IZR ?z] |- _ =>
        lazymatch z with
        | Z0 => fail | Zpos _ => fail | Zneg _ => fail
        | _ => let z' := eval vm_compute in z in
               progress change (IZR z) with (IZR z') in H
        end
    | |- context [IZR ?z] =>
        lazymatch z with
        | Z0 => fail | Zpos _ => fail | Zneg _ => fail
        | _ => let z' := eval vm_compute in z in
               progress change (IZR z) with (IZR z')
        end
    end.

Section RangeArguments.
Local Open Scope R_scope.

Variable curve_fit : list R -> list R -> Res R.

(** An argument of unrecognized shape leaves [data] unassigned in
    [postprocess_gnf]. *)
Lemma postprocess_gnf_select_unrecognized gnf_data lb xlim :
  limit_shape_ok xlim = false ->
  postprocess_gnf_select gnf_data lb xlim = Raise (UnboundLocalError "data").
Proof.
  destruct xlim as [| | |[|? [|? [|? ?]]]| |]; simpl; intros H; done.
Qed.

Lemma postprocess_gnf_unrecognized gnf_data lb xlim sparse :
  limit_shape_ok xlim = false ->
  postprocess_gnf gnf_data lb xlim sparse = Raise (UnboundLocalError "data").
Proof.
  intros H. unfold postprocess_gnf.
  by rewrite postprocess_gnf_select_unrecognized.
Qed.

(** The four functions with an [else] branch do raise [ValueError]. *)
Lemma plot_std_unrecognized_tlim k_data seg_length tlim xlim lb fps num_curves :
  limit_shape_ok tlim = false ->
  is_ValueError (plot_std k_data seg_length tlim xlim lb fps num_curves).
Proof.
  destruct tlim as [| | |[|? [|? [|? ?]]]| |]; simpl; intros H; done.
Qed.

Lemma plot_kinetics_unrecognized_tlim k_data i_data tlim seg_length fps :
  limit_shape_ok tlim = false ->
  is_ValueError (plot_kinetics_apply_tlim k_data i_data tlim seg_length fps).
Proof.
  destruct tlim as [| | |[|? [|? [|? ?]]]| |]; simpl; intros H; done.
Qed.

Lemma corr_length_unrecognized data fitting_range :
  limit_shape_ok fitting_range = false ->
  is_ValueError (corr_length curve_fit data fitting_range).
Proof.
  destruct fitting_range as [| | |[|? [|? [|? ?]]]| |]; simpl; intros H; done.
Qed.

Lemma plot_correlation_unrecognized data xlim :
  limit_shape_ok xlim = false ->
  is_ValueError (plot_correlation_apply_xlim data xlim).
Proof.
  destruct xlim as [| | |[|? [|? [|? ?]]]| |]; simpl; intros H; done.
Qed.

End RangeArguments.

(** C2.  A call with a range argument that is neither [None], nor an int,
    nor a list of 2 elements should raise [ValueError].  [postprocess_gnf]
    has no [else] branch: called with the list [[1, 2, 3]] as [xlim] it
    fails with [UnboundLocalError] on the unassigned local [data], which is
    not a [ValueError]. *)
Theorem postprocess_gnf_list_of_three :
  postprocess_gnf [GnfRow 25 10 1] 1 (LimList [1; 2; 3]%R) 3
    = Raise (UnboundLocalError "data")
  /\ ~ is_ValueError (postprocess_gnf [GnfRow 25 10 1] 1 (LimList [1; 2; 3]%R) 3).
Proof.
  assert (H : postprocess_gnf [GnfRow 25 10 1] 1 (LimList [1; 2; 3]%R) 3
              = Raise (UnboundLocalError "data"))
    by (by apply postprocess_gnf_unrecognized).
  split; [exact H|]. rewrite H. simpl. tauto.
Qed.

Section Normalization.
Local Open Scope R_scope.

Lemma every_nth_head {A : Type} (k : nat) (x : A) (l : list A) :
  every_nth k 0 (x :: l) = x :: every_nth k k l.
Proof. reflexivity. Qed.

Lemma slice_step_head {A : Type} (x : A) (l : list A) (sparse : Z) :
  (0 < sparse)%Z -> exists l', slice_step (x :: l) sparse = Ok (x :: l').
Proof.
  destruct sparse as [|p|p]; intros H; try lia.
  simpl. eauto.
Qed.

(** What [postprocess_gnf] returns once the rows are selected. *)
Lemma postprocess_gnf_first gnf_data lb xlim sparse r0 rest :
  postprocess_gnf_select gnf_data lb xlim = Ok (r0 :: rest) ->
  (0 < sparse)%Z ->
  exists x y,
    postprocess_gnf gnf_data lb xlim sparse = Ok (x, y)
    /\ head y = Some ((col_d r0 / sqrt (col_n r0)) / (col_d r0 / sqrt (col_n r0))).
Proof.
  intros Hsel Hsp. unfold postprocess_gnf. rewrite Hsel. simpl.
  destruct (slice_step_head (col_n r0 / (lb * (lb * 1)))
              (map (fun r => col_n r / (lb * (lb * 1))) rest) sparse Hsp) as [xs Hx].
  destruct (slice_step_head
              (col_d r0 / sqrt (col_n r0) / (col_d r0 / sqrt (col_n r0)))
              (map (fun y => y / (col_d r0 / sqrt (col_n r0)))
                   (map (fun r => col_d r / sqrt (col_n r)) rest)) sparse Hsp) as [ys Hy].
  rewrite Hx. simpl. rewrite Hy. simpl. eauto.
Qed.

(** C3, as amended.  When the selected rows are not empty, the first of
    them has [n > 0] and [d <> 0], and [sparse] is positive,
    [postprocess_gnf] returns a [y] series whose first element is 1. *)
Theorem postprocess_gnf_first_is_one gnf_data lb xlim sparse r0 rest :
  postprocess_gnf_select gnf_data lb xlim = Ok (r0 :: rest) ->
  0 < col_n r0 ->
  col_d r0 <> 0 ->
  (0 < sparse)%Z ->
  exists x y, postprocess_gnf gnf_data lb xlim sparse = Ok (x, y) /\ head y = Some 1.
Proof.
  intros Hsel Hn Hd Hsp.
  destruct (postprocess_gnf_first _ _ _ _ _ _ Hsel Hsp) as (x & y & Hret & Hhd).
  exists x, y. split; [exact Hret|]. rewrite Hhd. f_equal.
  assert (Hs : 0 < sqrt (col_n r0)) by (by apply sqrt_lt_R0).
  field. split; [lra | exact Hd].
Qed.

Lemma postprocess_gnf_first_is_one_witness :
  exists x y, postprocess_gnf [GnfRow 25 10 1; GnfRow 36 18 1] 1 LimNone 3 = Ok (x, y)
              /\ head y = Some 1.
Proof.
  apply (postprocess_gnf_first_is_one _ 1 LimNone 3 (GnfRow 25 10 1) [GnfRow 36 18 1]).
  - reflexivity.
  - simpl. lra.
  - simpl. lra.
  - lia.
Defined.

(** C3 as stated fails: for a table whose first row has [d = 0] (the
    estimator's output on a still image) [postprocess_gnf] returns, and
    the first [y] is [0 / 0], not 1. *)
Lemma postprocess_gnf_first_not_one :
  exists x y, postprocess_gnf [GnfRow 25 0 1] 1 LimNone 1 = Ok (x, y)
              /\ head y <> Some 1.
Proof.
  destruct (postprocess_gnf_first [GnfRow 25 0 1] 1 LimNone 1 (GnfRow 25 0 1) [])
    as (x & y & Hret & Hhd); [reflexivity | lia |].
  exists x, y. split; [exact Hret|]. rewrite Hhd. simpl.
  intros H. injection H as H. unfold Rdiv in H. rewrite !Rmult_0_l in H. lra.
Qed.

End Normalization.

Section IntegerRange.
Local Open Scope R_scope.

Lemma postprocess_gnf_select_int_list gnf_data lb t :
  (forall r, r ∈ gnf_data -> 0 <= col_n r) ->
  postprocess_gnf_select gnf_data lb (LimInt t)
    = postprocess_gnf_select gnf_data lb (LimList [0; IZR t]).
Proof.
  intros Hn. simpl. f_equal. apply filter_ext_in.
  intros r Hr. specialize (Hn r Hr). rewrite Rmult_0_l. split.
  - intros H. split; [lra | exact H].
  - intros [_ H]. exact H.
Qed.

Lemma plot_std_select_int_list k_data seg_length fps t :
  (forall r, r ∈ k_data -> (0 <= (col_segment r - 1) * seg_length)%Z) ->
  plot_std_select k_data seg_length (LimInt t) fps
    = plot_std_select k_data seg_length (LimList [0; IZR t]) fps.
Proof.
  intros Hs. simpl. f_equal. apply filter_ext_in.
  intros r Hr. specialize (Hs r Hr). apply IZR_le in Hs.
  rewrite (mult_IZR t fps), Rmult_0_l. split.
  - intros H. split; [exact H | lra].
  - intros [H _]. exact H.
Qed.

(** C4, as amended.  On a table whose filtered quantity is never
    negative ([n] for [postprocess_gnf], [(segment - 1) * seg_length]
    for [plot_std]) the integer bound [t] and the list [[0, t]] select
    the same rows and give the same result. *)
Theorem int_limit_same_as_list gnf_data k_data lb seg_length fps num_curves xlim sparse t :
  (forall r, r ∈ gnf_data -> 0 <= col_n r) ->
  (forall r, r ∈ k_data -> (0 <= (col_segment r - 1) * seg_length)%Z) ->
  postprocess_gnf_select gnf_data lb (LimInt t)
    = postprocess_gnf_select gnf_data lb (LimList [0; IZR t])
  /\ postprocess_gnf gnf_data lb (LimInt t) sparse
    = postprocess_gnf gnf_data lb (LimList [0; IZR t]) sparse
  /\ plot_std_select k_data seg_length (LimInt t) fps
    = plot_std_select k_data seg_length (LimList [0; IZR t]) fps
  /\ plot_std k_data seg_length (LimInt t) xlim lb fps num_curves
    = plot_std k_data seg_length (LimList [0; IZR t]) xlim lb fps num_curves.
Proof.
  intros Hn Hs.
  pose proof (postprocess_gnf_select_int_list gnf_data lb t Hn) as H1.
  pose proof (plot_std_select_int_list k_data seg_length fps t Hs) as H2.
  split; [exact H1|]. split.
  - unfold postprocess_gnf. by rewrite H1.
  - split; [exact H2|]. unfold plot_std. by rewrite H2.
Qed.

Lemma int_limit_same_as_list_witness :
  postprocess_gnf_select [GnfRow 25 10 1; GnfRow 400 80 1] 10 (LimInt 5)
    = postprocess_gnf_select [GnfRow 25 10 1; GnfRow 400 80 1] 10 (LimList [0; IZR 5])
  /\ postprocess_gnf [GnfRow 25 10 1; GnfRow 400 80 1] 10 (LimInt 5) 3
    = postprocess_gnf [GnfRow 25 10 1; GnfRow 400 80 1] 10 (LimList [0; IZR 5]) 3
  /\ plot_std_select [GnfRow 25 10 1; GnfRow 25 12 2] 100 (LimInt 5) 10
    = plot_std_select [GnfRow 25 10 1; GnfRow 25 12 2] 100 (LimList [0; IZR 5]) 10
  /\ plot_std [GnfRow 25 10 1; GnfRow 25 12 2] 100 (LimInt 5) LimNone 10 10 5
    = plot_std [GnfRow 25 10 1; GnfRow 25 12 2] 100 (LimList [0; IZR 5]) LimNone 10 10 5.
Proof.
  apply (int_limit_same_as_list [GnfRow 25 10 1; GnfRow 400 80 1]
           [GnfRow 25 10 1; GnfRow 25 12 2] 10 100 10 5 LimNone 3 5).
  - intros r Hr. repeat (apply elem_of_cons in Hr as [->|Hr]); simpl; try lra.
    by apply elem_of_nil in Hr.
  - intros r Hr. repeat (apply elem_of_cons in Hr as [->|Hr]); simpl; try lia.
    by apply elem_of_nil in Hr.
Defined.

(** C4 as stated fails: the integer form has no lower bound.  A kinetics
    row of segment 0 lies at [(0 - 1) * seg_length < 0]: [tlim = 1] keeps
    it and [tlim = [0, 1]] drops it; likewise a row with negative [n] for
    [xlim]. *)
Lemma int_limit_differs_from_list :
  plot_std_select [GnfRow 25 10 0] 100 (LimInt 1) 10
    <> plot_std_select [GnfRow 25 10 0] 100 (LimList [0; IZR 1]) 10
  /\ postprocess_gnf_select [GnfRow (-1) 10 1] 1 (LimInt 1)
    <> postprocess_gnf_select [GnfRow (-1) 10 1] 1 (LimList [0; IZR 1]).
Proof.
  split.
  - simpl. rewrite !filter_cons, !filter_nil. simpl.
    destruct (decide _) as [H1|H1]; [|exfalso; apply H1; apply IZR_lt; lia].
    destruct (decide _) as [H2|H2]; [|discriminate].
    exfalso. destruct H2 as [_ H2]. eval_IZR. lra.
  - simpl. rewrite !filter_cons, !filter_nil. simpl.
    destruct (decide _) as [H1|H1]; [|exfalso; apply H1; lra].
    destruct (decide _) as [H2|H2]; [|discriminate].
    exfalso. destruct H2 as [H2 _]. lra.
Qed.

End IntegerRange.

(* ===================================================================== *)
(** * Properties of [average_data] *)
(* ===================================================================== *)

Section AverageDataFacts.
Local Open Scope R_scope.

Lemma check_labels_ok columns data :
  (forall label, label ∈ columns -> label ∈ df_labels data) ->
  check_labels columns data = Ok tt.
Proof.
  induction columns as [|label rest IH]; intros H; [done|].
  simpl. rewrite decide_True by (apply H; by left).
  apply IH. intros l Hl. apply H. by right.
Qed.

Lemma default_last_cons {A : Type} (a x : A) (l : list A) :
  default a (last (x :: l)) = default x (last l).
Proof.
  revert a x. induction l as [|y l IH]; intros a x; [done|].
  change (last (x :: y :: l)) with (last (y :: l)).
  by rewrite (IH a y), (IH x y).
Qed.

(** The loop, once the first file has been read: [temp] accumulates the
    selected columns of each later file and [data] is the last file. *)
Lemma average_loop_Some rest columns k temp data :
  (forall f, f ∈ rest -> forall label, label ∈ columns -> label ∈ df_labels f) ->
  average_loop rest columns (S k) (Some (temp, data))
  = Ok ((S k + length rest)%nat,
        Some (foldl (fun t f => df_iadd t (df_select columns f)) temp rest,
              default data (last rest))).
Proof.
  revert k temp data. induction rest as [|f rest IH]; intros k temp data Hall.
  - simpl. by rewrite Nat.add_0_r.
  - simpl average_loop.
    rewrite check_labels_ok by (apply Hall; by left). simpl bind.
    rewrite IH by (intros g Hg; apply Hall; by right).
    f_equal. f_equal; [simpl; lia|].
    simpl foldl. by rewrite default_last_cons.
Qed.

Lemma average_data_cons first rest columns :
  (forall f, f ∈ first :: rest -> forall label, label ∈ columns -> label ∈ df_labels f) ->
  average_data (first :: rest) columns
  = Ok (df_concat_axis1
          (df_div (foldl (fun t f => df_iadd t (df_select columns f))
                         (df_select columns first) rest)
                  (S (length rest)))
          (df_select (filter (fun label => label ∉ columns)
                             (df_labels (default first (last rest))))
                     (default first (last rest)))).
Proof.
  intros Hall. unfold average_data. simpl average_loop.
  rewrite check_labels_ok by (apply Hall; by left). simpl bind.
  rewrite average_loop_Some by (intros g Hg; apply Hall; by right).
  simpl. reflexivity.
Qed.

(** ** Lookup in the frames built by [average_data] *)

Lemma assoc_None label cols : label ∉ map fst cols -> assoc label cols = None.
Proof.
  induction cols as [|[l c] cols IH]; intros H; [done|].
  simpl. rewrite decide_False.
  - apply IH. intros Hin. apply H. by right.
  - intros ->. apply H. by left.
Qed.

Lemma assoc_app label cols1 cols2 :
  assoc label (cols1 ++ cols2)
  = match assoc label cols1 with
    | Some c => Some c
    | None => assoc label cols2
    end.
Proof.
  induction cols1 as [|[l c] cols1 IH]; [done|].
  simpl. destruct (decide (l = label)); [done | exact IH].
Qed.

Lemma assoc_map_snd (g : list cell -> list cell) label cols :
  assoc label (map (fun lc => (fst lc, g (snd lc))) cols) = g <$> assoc label cols.
Proof.
  induction cols as [|[l c] cols IH]; [done|].
  simpl. destruct (decide (l = label)); [done | exact IH].
Qed.

Lemma select_labels_subseteq labels data :
  map fst (df_cols (df_select labels data)) ⊆ labels.
Proof.
  intros l Hl. unfold df_select in Hl. simpl in Hl.
  apply list_elem_of_fmap in Hl as [[l' c'] [Heq Hel]]. simpl in Heq. subst l'.
  apply list_elem_of_omap in Hel as (l'' & Hin & Hsome).
  destruct (df_column l'' data); simpl in Hsome; [|done].
  by injection Hsome as -> ->.
Qed.

Lemma assoc_select label labels data :
  label ∈ labels ->
  assoc label (df_cols (df_select labels data)) = df_column label data.
Proof.
  unfold df_select, df_column. simpl.
  induction labels as [|l labels IH]; intros Hin; [by apply elem_of_nil in Hin|].
  destruct (decide (l = label)) as [->|Hne].
  - simpl. destruct (assoc label (df_cols data)) as [c|] eqn:E; simpl.
    + by rewrite decide_True.
    + apply assoc_None. intros Habs.
      apply (select_labels_subseteq labels data) in Habs as Hl.
      apply list_elem_of_fmap in Habs as [[l' c'] [Heq Hel]]. simpl in Heq. subst l'.
      apply list_elem_of_omap in Hel as (l'' & _ & Hsome).
      destruct (assoc l'' (df_cols data)) as [c''|] eqn:E'; simpl in Hsome; [|done].
      injection Hsome as -> ->. congruence.
  - apply elem_of_cons in Hin as [->|Hin]; [done|].
    simpl. destruct (assoc l (df_cols data)) as [c|]; simpl.
    + rewrite decide_False by done. exact (IH Hin).
    + exact (IH Hin).
Qed.

Lemma foldl_iadd_labels columns temp rest :
  map fst (df_cols (foldl (fun t f => df_iadd t (df_select columns f)) temp rest))
  = map fst (df_cols temp).
Proof.
  revert temp. induction rest as [|f rest IH]; intros temp; [done|].
  simpl. rewrite IH. unfold df_iadd. simpl.
  rewrite <- list_fmap_compose. done.
Qed.

Lemma foldl_iadd_len columns temp rest :
  df_len (foldl (fun t f => df_iadd t (df_select columns f)) temp rest) = df_len temp.
Proof.
  revert temp. induction rest as [|f rest IH]; intros temp; [done|].
  simpl. by rewrite IH.
Qed.

Lemma col_pad_id m c : length c = m -> col_pad m c = c.
Proof. intros <-. unfold col_pad. rewrite Nat.sub_diag. simpl. apply app_nil_r. Qed.

End AverageDataFacts.

(** Membership of a label of a concrete list in the labels of a concrete
    frame. *)
Ltac solve_label_in H :=
  repeat (apply elem_of_cons in H as [->|H]);
  [ .. | by apply elem_of_nil in H ];
  unfold df_labels; simpl; by repeat constructor.

Section AverageDataClaims.
Local Open Scope R_scope.

Lemma col_scale_1 c : col_scale 1 c = c.
Proof.
  unfold col_scale. rewrite <- (map_id c) at 2. apply map_ext.
  intros [x|]; simpl; [f_equal; lra | done].
Qed.

Lemma col_scale_cons j a c :
  col_scale j (a :: c) = ((fun x => INR j * x) <$> a) :: col_scale j c.
Proof. reflexivity. Qed.

Lemma col_iadd_scale j c : col_iadd (col_scale j c) c = col_scale (S j) c.
Proof.
  induction c as [|a c IH]; [done|].
  rewrite !col_scale_cons. cbn [col_iadd]. rewrite IH. f_equal.
  destruct a as [x|]; cbn [fmap option_fmap option_map cell_add]; [|done].
  f_equal. rewrite S_INR. lra.
Qed.

Lemma col_div_scale j c :
  map (fun a : cell => (fun x => x / INR (S j)) <$> a) (col_scale (S j) c) = c.
Proof.
  unfold col_scale. rewrite map_map. rewrite <- (map_id c) at 2. apply map_ext.
  intros [x|]; cbn [fmap option_fmap option_map]; [|done].
  f_equal. field. apply not_0_INR. lia.
Qed.

Lemma assoc_self cols lc :
  NoDup (map fst cols) -> lc ∈ cols -> assoc (fst lc) cols = Some (snd lc).
Proof.
  induction cols as [|[l c] cols IH]; intros Hnd Hin; [by apply elem_of_nil in Hin|].
  simpl in *. apply NoDup_cons in Hnd as [Hnotin Hnd].
  apply elem_of_cons in Hin as [->|Hin].
  - simpl. by rewrite decide_True.
  - rewrite decide_False; [by apply IH|].
    intros ->. apply Hnotin. apply list_elem_of_fmap. by exists lc.
Qed.

Lemma df_iadd_scale j sel :
  NoDup (map fst (df_cols sel)) ->
  df_iadd (df_scale j sel) sel = df_scale (S j) sel.
Proof.
  intros Hnd. unfold df_iadd, df_scale. simpl. f_equal.
  rewrite <- list_fmap_compose. apply list_fmap_ext.
  intros i lc Hlc. simpl. f_equal.
  apply list_elem_of_lookup_2 in Hlc.
  unfold df_column. rewrite (assoc_self _ _ Hnd Hlc). simpl.
  apply col_iadd_scale.
Qed.

Lemma foldl_iadd_replicate columns m j f :
  NoDup (map fst (df_cols (df_select columns f))) ->
  foldl (fun t g => df_iadd t (df_select columns g))
        (df_scale (S j) (df_select columns f)) (replicate m f)
  = df_scale (S j + m) (df_select columns f).
Proof.
  intros Hnd. revert j. induction m as [|m IH]; intros j; simpl.
  - by rewrite Nat.add_0_r.
  - rewrite df_iadd_scale by done. rewrite IH. f_equal. lia.
Qed.

Lemma df_scale_1 sel : df_scale 1 sel = sel.
Proof.
  destruct sel as [len cols]. unfold df_scale. simpl. f_equal.
  induction cols as [|[l c] cols IH]; [done|].
  simpl. by rewrite col_scale_1, IH.
Qed.

Lemma df_div_scale j sel : df_div (df_scale (S j) sel) (S j) = sel.
Proof.
  destruct sel as [len cols]. unfold df_div, df_scale. simpl. f_equal.
  induction cols as [|[l c] cols IH]; [done|].
  simpl. rewrite IH. f_equal. f_equal. apply col_div_scale.
Qed.

Lemma default_last_replicate {A : Type} (x : A) m : default x (last (replicate m x)) = x.
Proof.
  induction m as [|m IH]; [done|].
  simpl replicate. by rewrite default_last_cons.
Qed.

Lemma assoc_is_Some label cols : label ∈ map fst cols -> is_Some (assoc label cols).
Proof.
  induction cols as [|[l c] cols IH]; intros Hin; [by apply elem_of_nil in Hin|].
  simpl in *. destruct (decide (l = label)); [by eexists|].
  apply elem_of_cons in Hin as [->|Hin]; [done | by apply IH].
Qed.

Lemma assoc_Some_elem label cols c : assoc label cols = Some c -> (label, c) ∈ cols.
Proof.
  induction cols as [|[l c'] cols IH]; intros H; [done|].
  simpl in H. destruct (decide (l = label)) as [->|].
  - injection H as ->. by left.
  - right. by apply IH.
Qed.

Lemma select_labels columns f :
  (forall label, label ∈ columns -> label ∈ df_labels f) ->
  map fst (df_cols (df_select columns f)) = columns.
Proof.
  unfold df_select, df_column. simpl.
  induction columns as [|l columns IH]; intros Hall; [done|].
  destruct (assoc_is_Some l (df_cols f)) as [c Hc]; [apply Hall; by left|].
  simpl. rewrite Hc. simpl. f_equal. apply IH.
  intros label Hl. apply Hall. by right.
Qed.

Lemma wf_column_length data label c :
  df_wf data -> df_column label data = Some c -> length c = df_len data.
Proof.
  intros [Hlen _] Hc. apply assoc_Some_elem in Hc.
  rewrite Forall_forall in Hlen. exact (Hlen _ Hc).
Qed.

Lemma df_column_concat label a b :
  df_column label (df_concat_axis1 a b)
  = col_pad (Nat.max (df_len a) (df_len b))
      <$> match assoc label (df_cols a) with
          | Some c => Some c
          | None => assoc label (df_cols b)
          end.
Proof.
  unfold df_column, df_concat_axis1. simpl.
  by rewrite (assoc_map_snd (col_pad (Nat.max (df_len a) (df_len b)))), assoc_app.
Qed.

(** C7.  [k >= 1] files with identical contents that include the requested
    columns: [average_data] returns, and each requested column of the
    result equals that column of the input file. *)
Theorem average_data_identical_files (k : nat) (f : DataFrame) (columns : list string) :
  (1 <= k)%nat ->
  df_wf f ->
  NoDup columns ->
  (forall label, label ∈ columns -> label ∈ df_labels f) ->
  exists averaged,
    average_data (replicate k f) columns = Ok averaged
    /\ df_len averaged = df_len f
    /\ forall label, label ∈ columns -> df_column label averaged = df_column label f.
Proof.
  intros Hk Hwf Hnd Hall. destruct k as [|m]; [lia|].
  simpl replicate. eexists. split.
  { apply average_data_cons. intros g Hg label Hl.
    apply elem_of_cons in Hg as [->|Hg]; [by apply Hall|].
    apply elem_of_replicate in Hg as [-> _]. by apply Hall. }
  rewrite length_replicate, default_last_replicate.
  pose proof (foldl_iadd_replicate columns m 0 f) as Hfold.
  rewrite df_scale_1 in Hfold. rewrite Hfold by (rewrite select_labels; done).
  rewrite df_div_scale.
  split; [simpl; lia|].
  intros label Hl. rewrite df_column_concat, assoc_select by done.
  destruct (assoc_is_Some label (df_cols f)) as [c Hc]; [by apply Hall|].
  unfold df_column. rewrite Hc. simpl. f_equal.
  apply col_pad_id. rewrite Nat.max_id.
  by apply (wf_column_length f label).
Qed.

Lemma average_data_identical_files_witness :
  exists averaged,
    average_data (replicate 3 sample_csv) ["CA"; "CV"] = Ok averaged
    /\ df_len averaged = df_len sample_csv
    /\ forall label, label ∈ ["CA"; "CV"] ->
                     df_column label averaged = df_column label sample_csv.
Proof.
  apply (average_data_identical_files 3 sample_csv ["CA"; "CV"]).
  - lia.
  - split; [repeat constructor | apply (bool_decide_unpack _); vm_compute; reflexivity].
  - apply (bool_decide_unpack _). vm_compute. reflexivity.
  - intros label Hl. solve_label_in Hl.
Defined.

(** C9, as amended.  When every file has the requested columns,
    [average_data] returns, and a column that is not requested comes from
    the last file only: it is the last file's column, reindexed to the
    longer of the first and the last file (rows the last file lacks are
    NaN).  When the first file has no more rows than the last, it is the
    last file's column verbatim. *)
Theorem average_data_other_columns first rest columns :
  (forall f, f ∈ first :: rest -> forall label, label ∈ columns -> label ∈ df_labels f) ->
  exists averaged,
    average_data (first :: rest) columns = Ok averaged
    /\ forall label c,
        label ∉ columns ->
        df_column label (default first (last rest)) = Some c ->
        df_column label averaged
          = Some (col_pad (Nat.max (df_len first) (df_len (default first (last rest)))) c)
        /\ ((df_len first <= df_len (default first (last rest)))%nat ->
            length c = df_len (default first (last rest)) ->
            df_column label averaged = Some c).
Proof.
  intros Hall. eexists. split; [by apply average_data_cons|].
  intros label c Hnot Hc.
  assert (Hcol : df_column label
            (df_concat_axis1
               (df_div (foldl (fun t f => df_iadd t (df_select columns f))
                              (df_select columns first) rest) (S (length rest)))
               (df_select (filter (fun l => l ∉ columns)
                                  (df_labels (default first (last rest))))
                          (default first (last rest))))
          = Some (col_pad (Nat.max (df_len first) (df_len (default first (last rest)))) c)).
  { rewrite df_column_concat. simpl df_len. rewrite foldl_iadd_len. simpl df_len.
    rewrite assoc_None.
    - rewrite assoc_select; [by rewrite Hc|].
      apply list_elem_of_filter. split; [done|].
      apply assoc_Some_elem in Hc. unfold df_labels.
      apply list_elem_of_fmap. by exists (label, c).
    - unfold df_div. simpl. rewrite map_map. simpl.
      rewrite foldl_iadd_labels. intros Hin.
      apply select_labels_subseteq in Hin. done. }
  split; [exact Hcol|].
  intros Hle Hlen. rewrite Hcol. f_equal. apply col_pad_id. lia.
Qed.

Lemma average_data_other_columns_witness :
  exists averaged,
    average_data (sample_csv :: [sample_csv_2]) ["CA"; "CV"] = Ok averaged
    /\ forall label c,
        label ∉ ["CA"; "CV"] ->
        df_column label (default sample_csv (last [sample_csv_2])) = Some c ->
        df_column label averaged
          = Some (col_pad (Nat.max (df_len sample_csv)
                                   (df_len (default sample_csv (last [sample_csv_2])))) c)
        /\ ((df_len sample_csv <= df_len (default sample_csv (last [sample_csv_2])))%nat ->
            length c = df_len (default sample_csv (last [sample_csv_2])) ->
            df_column label averaged = Some c).
Proof.
  apply (average_data_other_columns sample_csv [sample_csv_2] ["CA"; "CV"]).
  intros f Hf label Hl.
  apply elem_of_cons in Hf as [->|Hf]; [|apply list_elem_of_singleton in Hf as ->];
    solve_label_in Hl.
Defined.

(** C9 as stated fails when the first file has more rows than the last:
    the column [R], not requested, is the last file's [R] followed by a
    NaN, not the last file's column. *)
Lemma average_data_other_column_padded :
  exists averaged,
    average_data [sample_csv; sample_csv_short] ["CA"; "CV"] = Ok averaged
    /\ df_column "R" sample_csv_short = Some [Some 4]
    /\ df_column "R" averaged = Some [Some 4; None]
    /\ df_column "R" averaged <> df_column "R" sample_csv_short.
Proof.
  eexists. split.
  { apply average_data_cons. intros f Hf label Hl.
    apply elem_of_cons in Hf as [->|Hf]; [|apply list_elem_of_singleton in Hf as ->];
      solve_label_in Hl. }
  split; [reflexivity|].
  assert (H : df_column "R"
     (df_concat_axis1
       (df_div (foldl (fun t f => df_iadd t (df_select ["CA"; "CV"] f))
                      (df_select ["CA"; "CV"] sample_csv) [sample_csv_short])
               (S (length [sample_csv_short])))
       (df_select (filter (fun label => label ∉ ["CA"; "CV"])
                          (df_labels (default sample_csv (last [sample_csv_short]))))
                  (default sample_csv (last [sample_csv_short]))))
     = Some [Some 4; None]).
  { rewrite df_column_concat. reflexivity. }
  split; [exact H|]. rewrite H. discriminate.
Qed.

End AverageDataClaims.

(* ===================================================================== *)
(** * Properties of [kinetics_eo_smooth] *)
(* ===================================================================== *)

Section SmoothFacts.

Variable gaussian_filter1d : list R -> Z -> list R.

Lemma smooth_loop_lookup (data : gmap string (list R)) (kw : string) :
  smooth_loop gaussian_filter1d data !! kw
  = smooth_entry gaussian_filter1d kw <$> data !! kw.
Proof.
  unfold smooth_loop. revert kw.
  apply (map_fold_weak_ind
           (fun (r m : gmap string (list R)) =>
              forall kw, r !! kw = smooth_entry gaussian_filter1d kw <$> m !! kw)).
  - intros kw. by rewrite !lookup_empty.
  - intros i x m r Hi IH kw. destruct (decide (i = kw)) as [->|Hne].
    + by rewrite !lookup_insert_eq.
    + rewrite !lookup_insert_ne by done. apply IH.
Qed.

Lemma getitem_Some (m : gmap string (list R)) key v :
  m !! key = Some v -> getitem m key = Ok v.
Proof. unfold getitem. by intros ->. Qed.

(** C10.  On a dict that has the five entries the function plots,
    [kinetics_eo_smooth] returns a dict with the keys of [data]; every
    entry whose key starts with ['t'] is the input entry, and every other
    entry is the Gaussian-filtered input entry. *)
Theorem kinetics_eo_smooth_frame (data : gmap string (list R)) :
  (forall key, key ∈ ["t0"; "alpha"; "t2"; "E"; "OP"] -> is_Some (data !! key)) ->
  exists new_data,
    kinetics_eo_smooth gaussian_filter1d data = Ok new_data
    /\ (forall kw v, data !! kw = Some v -> startswith_t kw = true ->
                     new_data !! kw = Some v)
    /\ (forall kw v, data !! kw = Some v -> startswith_t kw = false ->
                     new_data !! kw
                     = Some (gaussian_filter1d v (Z.of_nat (length v) / 15 + 1)))
    /\ (forall kw, data !! kw = None -> new_data !! kw = None).
Proof.
  intros Hkeys. exists (smooth_loop gaussian_filter1d data). split.
  - unfold kinetics_eo_smooth.
    assert (Hget : forall key, key ∈ ["t0"; "alpha"; "t2"; "E"; "OP"] ->
              exists v, getitem (smooth_loop gaussian_filter1d data) key = Ok v).
    { intros key Hk. destruct (Hkeys key Hk) as [v Hv].
      eexists. apply getitem_Some. rewrite smooth_loop_lookup, Hv. reflexivity. }
    destruct (Hget "t0") as [? ->]; [by repeat constructor|].
    destruct (Hget "alpha") as [? ->]; [by repeat constructor|].
    destruct (Hget "t2") as [? ->]; [by repeat constructor|].
    destruct (Hget "E") as [? ->]; [by repeat constructor|].
    destruct (Hget "OP") as [? ->]; [by repeat constructor|].
    reflexivity.
  - repeat split.
    + intros kw v Hv Ht. rewrite smooth_loop_lookup, Hv. simpl.
      unfold smooth_entry. by rewrite Ht.
    + intros kw v Hv Ht. rewrite smooth_loop_lookup, Hv. simpl.
      unfold smooth_entry. by rewrite Ht.
    + intros kw Hv. by rewrite smooth_loop_lookup, Hv.
Qed.

End SmoothFacts.

Lemma kinetics_eo_smooth_frame_witness :
  exists new_data,
    kinetics_eo_smooth pair_average sample_kinetics = Ok new_data
    /\ (forall kw v, sample_kinetics !! kw = Some v -> startswith_t kw = true ->
                     new_data !! kw = Some v)
    /\ (forall kw v, sample_kinetics !! kw = Some v -> startswith_t kw = false ->
                     new_data !! kw
                     = Some (pair_average v (Z.of_nat (length v) / 15 + 1)))
    /\ (forall kw, sample_kinetics !! kw = None -> new_data !! kw = None).
Proof.
  apply (kinetics_eo_smooth_frame pair_average sample_kinetics).
  intros key Hk.
  repeat (apply elem_of_cons in Hk as [->|Hk]); [ .. | by apply elem_of_nil in Hk ];
    unfold sample_kinetics; simplify_map_eq; by eexists.
Defined.

(* ===================================================================== *)
(** * Properties of the window-size set *)
(* ===================================================================== *)

Section WindowSizeFacts.
Local Open Scope R_scope.

Lemma ln_10_pos : 0 < ln 10.
Proof. rewrite <- ln_1. apply ln_increasing; lra. Qed.

Lemma Rpower_10_log10 x : 0 < x -> Rpower 10 (log10 x) = x.
Proof.
  intros Hx. unfold Rpower, log10.
  replace (ln x / ln 10 * ln 10) with (ln x)
    by (field; pose proof ln_10_pos; lra).
  by apply exp_ln.
Qed.

Lemma Rpower_10_le x y : x <= y -> Rpower 10 x <= Rpower 10 y.
Proof. intros H. apply Rle_Rpower; lra. Qed.

Lemma log10_le x y : 0 < x -> x <= y -> log10 x <= log10 y.
Proof.
  intros Hx Hxy. unfold log10. apply Rmult_le_compat_r.
  - left. apply Rinv_0_lt_compat, ln_10_pos.
  - destruct Hxy as [Hlt| ->]; [left; by apply ln_increasing | right; done].
Qed.

(** The points of [linspace] lie between its ends. *)
Lemma linspace_bounds start stop num x :
  start <= stop -> x ∈ linspace start stop num -> start <= x <= stop.
Proof.
  intros Hle Hx. unfold linspace in Hx.
  apply list_elem_of_fmap in Hx as (i & -> & Hi).
  apply elem_of_seq in Hi as [_ Hi]. simpl in Hi.
  assert (Hnum : (i <= num - 1)%nat) by lia.
  destruct (decide (num - 1 = 0)%nat) as [E|E].
  - assert (i = 0%nat) as -> by lia. simpl. lra.
  - assert (H0 : 0 < INR (num - 1)) by (apply lt_0_INR; lia).
    assert (Hi0 : 0 <= INR i) by apply pos_INR.
    assert (Hi1 : INR i <= INR (num - 1)) by (by apply le_INR).
    assert (Hq : 0 <= INR i / INR (num - 1) <= 1).
    { split.
      - apply Rmult_le_pos; [done | left; by apply Rinv_0_lt_compat].
      - apply (Rmult_le_reg_r (INR (num - 1))); [done|].
        unfold Rdiv. rewrite Rmult_assoc, Rinv_l by lra. lra. }
    replace (INR i * ((stop - start) / INR (num - 1)))
      with ((stop - start) * (INR i / INR (num - 1))) by (field; lra).
    nra.
Qed.

Lemma logspace_bounds lo hi num x :
  0 < lo -> lo <= hi ->
  x ∈ logspace (log10 lo) (log10 hi) num -> lo <= x <= hi.
Proof.
  intros Hlo Hle Hx. unfold logspace in Hx.
  apply list_elem_of_fmap in Hx as (y & -> & Hy).
  apply linspace_bounds in Hy as [Hy1 Hy2]; [|by apply log10_le].
  split.
  - etrans; [|apply Rpower_10_le, Hy1]. rewrite Rpower_10_log10 by lra. lra.
  - etrans; [apply Rpower_10_le, Hy2|]. rewrite Rpower_10_log10 by lra. lra.
Qed.

Lemma logspace_pos start stop num x : x ∈ logspace start stop num -> 0 < x.
Proof.
  unfold logspace. intros Hx.
  apply list_elem_of_fmap in Hx as (y & -> & _). apply exp_pos.
Qed.

(** ** [np.unique] *)

Lemma elem_of_insert_unique x y l : y ∈ insert_unique x l <-> y = x \/ y ∈ l.
Proof.
  induction l as [|z l IH]; simpl.
  - rewrite list_elem_of_singleton. split; [by left | intros [?|H]; [done | by apply elem_of_nil in H]].
  - destruct (decide (x < z)%Z); [by rewrite elem_of_cons|].
    destruct (decide (x = z)) as [->|].
    + rewrite elem_of_cons. tauto.
    + rewrite !elem_of_cons, IH. tauto.
Qed.

Lemma elem_of_np_unique y l : y ∈ np_unique l <-> y ∈ l.
Proof.
  induction l as [|x l IH]; simpl; [done|].
  rewrite elem_of_insert_unique, elem_of_cons, IH. done.
Qed.

Lemma insert_unique_sorted x l :
  StronglySorted Z.lt l -> StronglySorted Z.lt (insert_unique x l).
Proof.
  induction 1 as [|z l Hs IH Hz]; simpl; [by repeat constructor|].
  destruct (decide (x < z)%Z) as [Hlt|Hge].
  - constructor; [by constructor|].
    constructor; [done|]. eapply Forall_impl; [exact Hz|]. simpl. intros; lia.
  - destruct (decide (x = z)) as [->|Hne]; [by constructor|].
    constructor; [exact IH|].
    apply Forall_forall. intros y Hy.
    apply elem_of_insert_unique in Hy as [->|Hy]; [lia|].
    rewrite Forall_forall in Hz. by apply Hz.
Qed.

Lemma np_unique_sorted l : StronglySorted Z.lt (np_unique l).
Proof.
  induction l as [|x l IH]; simpl; [constructor | by apply insert_unique_sorted].
Qed.

Lemma StronglySorted_lt_NoDup (l : list Z) : StronglySorted Z.lt l -> NoDup l.
Proof.
  induction 1 as [|z l Hs IH Hz]; constructor; [|done].
  intros Hin. rewrite Forall_forall in Hz. specialize (Hz z Hin). lia.
Qed.

(** ** [boxsize] *)

Lemma boxsize_sorted L : StronglySorted Z.lt (boxsize L).
Proof. apply np_unique_sorted. Qed.

Lemma boxsize_NoDup L : NoDup (boxsize L).
Proof. apply StronglySorted_lt_NoDup, boxsize_sorted. Qed.

Lemma boxsize_nonneg L s : s ∈ boxsize L -> (0 <= s)%Z.
Proof.
  unfold boxsize. rewrite elem_of_np_unique. intros Hs.
  apply list_elem_of_fmap in Hs as (x & -> & Hx).
  apply logspace_pos in Hx. apply (Zfloor_lub 0). simpl. lra.
Qed.

Lemma size_min_in_boxsize L : (5 < L)%Z -> size_min ∈ boxsize L.
Proof.
  intros HL. unfold boxsize. rewrite elem_of_np_unique.
  apply list_elem_of_fmap. exists (IZR size_min). split.
  - symmetry. apply ZfloorZ.
  - unfold logspace. apply list_elem_of_fmap.
    exists (log10 (IZR size_min)). split.
    + symmetry. apply Rpower_10_log10. unfold size_min. lra.
    + unfold linspace. apply list_elem_of_fmap. exists 0%nat. split.
      * simpl. lra.
      * apply elem_of_seq. lia.
Qed.

Lemma boxsize_range (L s : Z) :
  (IZR L - IZR size_min) / 2 >= IZR size_min ->
  s ∈ boxsize L ->
  IZR size_min <= IZR s <= (IZR L - IZR size_min) / 2.
Proof.
  intros HL Hs. unfold boxsize in Hs. rewrite elem_of_np_unique in Hs.
  apply list_elem_of_fmap in Hs as (x & -> & Hx).
  apply logspace_bounds in Hx as [Hx1 Hx2]; [| unfold size_min; lra | lra].
  split.
  - apply IZR_le. by apply Zfloor_lub.
  - pose proof (Zfloor_bound x). lra.
Qed.

(** C5.  When [(L - size_min) / 2 >= size_min], every element of the
    window-size set lies in [[size_min, (L - size_min) / 2]]: none is
    below [size_min] and none is above half the shorter side. *)
Theorem boxsize_bounds (L s : Z) :
  (IZR L - IZR size_min) / 2 >= IZR size_min ->
  s ∈ boxsize L ->
  IZR size_min <= IZR s <= (IZR L - IZR size_min) / 2
  /\ IZR s <= IZR L / 2.
Proof.
  intros HL Hs. pose proof (boxsize_range L s HL Hs) as Hr.
  split; [exact Hr|]. unfold size_min in *. lra.
Qed.

Lemma boxsize_bounds_witness :
  IZR size_min <= IZR 5 <= (IZR 15 - IZR size_min) / 2
  /\ IZR 5 <= IZR 15 / 2.
Proof.
  apply (boxsize_bounds 15 5).
  - unfold size_min. lra.
  - apply size_min_in_boxsize. lia.
Defined.

End WindowSizeFacts.

(* ===================================================================== *)
(** * Properties of the estimator *)
(* ===================================================================== *)

Section ScanFacts.
Local Open Scope R_scope.

Variable divide_windows : image -> Z -> Z -> list R.

Lemma filter_number_imap t bs k ws off :
  filter (fun r => df_number r = k) (imap (fun i v => DfRow v t bs (off + i)) ws)
  = if decide (off <= k)%nat
    then match ws !! (k - off)%nat with
         | Some v => [DfRow v t bs k]
         | None => []
         end
    else [].
Proof.
  revert off. induction ws as [|w ws IH]; intros off.
  - simpl. by destruct (decide _).
  - simpl imap. rewrite filter_cons. simpl df_number.
    rewrite (imap_ext _ (fun i v => DfRow v t bs (S off + i)))
      by (intros i v _; simpl; f_equal; lia).
    rewrite IH.
    destruct (decide (off + 0 = k)%nat) as [E|E].
    + rewrite decide_False by lia. rewrite decide_True by lia.
      replace (k - off)%nat with 0%nat by lia. simpl. f_equal. f_equal. lia.
    + destruct (decide (S off <= k)%nat) as [Hle|Hgt].
      * rewrite decide_True by lia.
        replace (k - off)%nat with (S (k - S off)) by lia. done.
      * by rewrite decide_False by lia.
Qed.

Lemma tempdf_filter_number fr k bs :
  filter (fun r => df_number r = k) (tempdf divide_windows (snd fr) (fst fr) bs)
  = row_at divide_windows fr k bs.
Proof.
  unfold tempdf, row_at.
  rewrite (filter_number_imap (fst fr) bs k _ 0).
  rewrite decide_True by lia. by rewrite Nat.sub_0_r.
Qed.

Lemma map_number_imap t bs ws off :
  map df_number (imap (fun i v => DfRow v t bs (off + i)) ws) = seq off (length ws).
Proof.
  revert off. induction ws as [|w ws IH]; intros off; [done|].
  simpl imap. simpl map.
  rewrite (imap_ext _ (fun i v => DfRow v t bs (S off + i)))
    by (intros i v _; simpl; f_equal; lia).
  rewrite IH. simpl. f_equal. lia.
Qed.

Lemma tempdf_numbers img t bs :
  map df_number (tempdf divide_windows img t bs)
  = seq 0 (length (divide_windows img bs step)).
Proof. apply (map_number_imap t bs _ 0). Qed.

(** ** The column [number] of [df] *)

Lemma framedf_numbers sizes fr :
  map df_number (framedf divide_windows sizes fr)
  = flat_map (seq 0) (map (fun bs => length (divide_windows (snd fr) bs step)) sizes).
Proof.
  unfold framedf. rewrite map_flat_map.
  induction sizes as [|bs sizes IHs]; [done|].
  cbn [flat_map map]. by rewrite IHs, tempdf_numbers.
Qed.

Lemma build_df_numbers sizes frames :
  map df_number (build_df divide_windows sizes frames)
  = flat_map (seq 0) (window_counts divide_windows sizes frames).
Proof.
  unfold build_df, window_counts. rewrite map_flat_map.
  induction frames as [|fr frames IH]; [done|].
  cbn [flat_map]. by rewrite flat_map_app, IH, framedf_numbers.
Qed.

Lemma drop_duplicates_numbers sizes frames :
  drop_duplicates (map df_number (build_df divide_windows sizes frames))
  = seq 0 (foldr Nat.max 0%nat (window_counts divide_windows sizes frames)).
Proof. by rewrite build_df_numbers, drop_duplicates_seqs. Qed.

(** ** The rows of one window index *)

Lemma build_df_filter_number sizes frames k :
  filter (fun r => df_number r = k) (build_df divide_windows sizes frames)
  = flat_map (fun fr => flat_map (row_at divide_windows fr k) sizes) frames.
Proof.
  unfold build_df. rewrite filter_flat_map. apply flat_map_ext_in.
  intros fr _. unfold framedf. rewrite filter_flat_map. apply flat_map_ext_in.
  intros bs _. apply tempdf_filter_number.
Qed.

Lemma omap_flat_map {A B : Type} (f : A -> option B) (l : list A) :
  omap f l = flat_map (fun x => option_list (f x)) l.
Proof.
  induction l as [|a l IH]; [done|].
  change (omap f (a :: l))
    with (match f a with Some y => y :: omap f l | None => omap f l end).
  cbn [flat_map]. rewrite IH. by destruct (f a).
Qed.

Lemma row_at_filter_size fr k s sizes :
  NoDup sizes ->
  map df_I (filter (fun r => df_size r = s) (flat_map (row_at divide_windows fr k) sizes))
  = if decide (s ∈ sizes)
    then option_list (divide_windows (snd fr) s step !! k)
    else [].
Proof.
  induction 1 as [|bs sizes Hnot Hnd IH].
  - by rewrite decide_False by apply not_elem_of_nil.
  - cbn [flat_map]. rewrite filter_app, map_app, IH.
    destruct (decide (bs = s)) as [->|Hne].
    + destruct (decide (s ∈ sizes)) as [|_]; [done|].
      destruct (decide (s ∈ s :: sizes)) as [_|Hn]; [|exfalso; apply Hn; by left].
      rewrite app_nil_r. unfold row_at.
      destruct (divide_windows (snd fr) s step !! k) as [v|]; [|done].
      by rewrite filter_cons_True.
    + assert (Hrow : filter (fun r => df_size r = s) (row_at divide_windows fr k bs) = []).
      { unfold row_at. destruct (divide_windows (snd fr) bs step !! k); [|done].
        by rewrite filter_cons_False. }
      rewrite Hrow. simpl.
      destruct (decide (s ∈ sizes)) as [Hin|Hout];
        destruct (decide (s ∈ bs :: sizes)) as [Hin'|Hout']; try done.
      * exfalso. apply Hout'. by right.
      * exfalso. apply elem_of_cons in Hin' as [?|?]; [congruence | done].
Qed.

(** The intensities of window [k] at size [s], one per frame that has it. *)
Lemma samples_of_df sizes frames k s :
  NoDup sizes -> s ∈ sizes ->
  map df_I (filter (fun r => df_size r = s)
              (filter (fun r => df_number r = k) (build_df divide_windows sizes frames)))
  = samples divide_windows frames s k.
Proof.
  intros Hnd Hs. rewrite build_df_filter_number.
  rewrite filter_flat_map, map_flat_map. unfold samples. rewrite omap_flat_map.
  apply flat_map_ext_in. intros fr _.
  rewrite row_at_filter_size by done. by rewrite decide_True.
Qed.

Lemma row_at_sizes fr k sizes :
  map df_size (flat_map (row_at divide_windows fr k) sizes)
  = filter (fun bs => (k < length (divide_windows (snd fr) bs step))%nat) sizes.
Proof.
  induction sizes as [|bs sizes IH]; [done|].
  simpl flat_map. rewrite map_app, IH, filter_cons. unfold row_at.
  destruct (divide_windows (snd fr) bs step !! k) as [v|] eqn:E.
  - apply lookup_lt_Some in E. by rewrite decide_True.
  - apply lookup_ge_None in E. rewrite decide_False by lia. done.
Qed.

Lemma build_df_sizes_at sizes frames k :
  map df_size (filter (fun r => df_number r = k) (build_df divide_windows sizes frames))
  = sizes_scan divide_windows sizes frames k.
Proof.
  rewrite build_df_filter_number, map_flat_map. apply flat_map_ext_in.
  intros fr _. apply row_at_sizes.
Qed.

End ScanFacts.

Section OutputFacts.
Local Open Scope R_scope.

Variable divide_windows : image -> Z -> Z -> list R.
Variable sizes : list Z.
Variable frames : list (Z * image).
Hypothesis sizes_NoDup : NoDup sizes.

Lemma elem_of_sizes_scan s k :
  s ∈ sizes_scan divide_windows sizes frames k
  <-> s ∈ sizes /\ (k < max_windows divide_windows frames s)%nat.
Proof.
  unfold sizes_scan, max_windows. rewrite elem_of_flat_map, lt_foldr_max. split.
  - intros (fr & Hfr & Hs). apply list_elem_of_filter in Hs as [Hk Hs].
    split; [done|]. eexists. split; [|exact Hk].
    apply list_elem_of_fmap. by exists fr.
  - intros (Hs & x & Hx & Hk). apply list_elem_of_fmap in Hx as (fr & -> & Hfr).
    exists fr. split; [done|]. apply list_elem_of_filter. done.
Qed.

Lemma elem_of_sizes_of s k :
  s ∈ sizes_of divide_windows sizes frames k
  <-> s ∈ sizes /\ (k < max_windows divide_windows frames s)%nat.
Proof. unfold sizes_of. by rewrite elem_of_drop_duplicates, elem_of_sizes_scan. Qed.

Lemma max_windows_le s :
  s ∈ sizes ->
  (max_windows divide_windows frames s <= num_windows divide_windows sizes frames)%nat.
Proof.
  intros Hs. unfold max_windows, num_windows. apply foldr_max_le.
  intros x Hx. apply list_elem_of_fmap in Hx as (fr & -> & Hfr).
  apply le_foldr_max. unfold window_counts. apply elem_of_flat_map.
  exists fr. split; [done|]. apply list_elem_of_fmap. by exists s.
Qed.

Lemma build_df_out_rows :
  build_df_out (build_df divide_windows sizes frames)
  = flat_map (fun k => map (out_at divide_windows frames k)
                           (sizes_of divide_windows sizes frames k))
             (seq 0 (num_windows divide_windows sizes frames)).
Proof.
  unfold build_df_out. rewrite drop_duplicates_numbers.
  fold (num_windows divide_windows sizes frames).
  apply flat_map_ext_in. intros k _.
  rewrite build_df_sizes_at. fold (sizes_of divide_windows sizes frames k).
  apply map_ext_elem. intros s Hs. apply elem_of_sizes_of in Hs as [Hs _].
  unfold out_at. by rewrite samples_of_df.
Qed.

Lemma build_df_out_of_size s :
  s ∈ sizes ->
  filter (fun r => out_size r = s) (build_df_out (build_df divide_windows sizes frames))
  = map (fun k => out_at divide_windows frames k s)
        (seq 0 (max_windows divide_windows frames s)).
Proof.
  intros Hs. rewrite build_df_out_rows, filter_flat_map.
  rewrite (flat_map_ext_in _
             (fun k => if decide (s ∈ sizes_of divide_windows sizes frames k)
                       then [out_at divide_windows frames k s] else [])).
  - rewrite (flat_map_singleton_if
               (fun k => s ∈ sizes_of divide_windows sizes frames k)).
    f_equal.
    rewrite <- (filter_lt_seq (max_windows divide_windows frames s)
                  (num_windows divide_windows sizes frames))
      by (by apply max_windows_le).
    apply list_filter_iff. intros k. rewrite elem_of_sizes_of. tauto.
  - intros k _. apply (filter_map_key (out_at divide_windows frames k) out_size).
    + apply NoDup_drop_duplicates.
    + done.
Qed.

Lemma build_df_out_sizes :
  map out_size (build_df_out (build_df divide_windows sizes frames))
  = flat_map (sizes_of divide_windows sizes frames)
             (seq 0 (num_windows divide_windows sizes frames)).
Proof.
  rewrite build_df_out_rows, map_flat_map. apply flat_map_ext_in.
  intros k _. rewrite map_map. simpl. apply map_id.
Qed.

End OutputFacts.

Section AverageFacts.
Local Open Scope R_scope.

Variable divide_windows : image -> Z -> Z -> list R.
Variable sizes : list Z.
Variables (t0 : Z) (img0 : image) (rest : list (Z * image)).
Hypothesis sizes_NoDup : NoDup sizes.
Hypothesis first_frame_windows :
  forall s, s ∈ sizes -> divide_windows img0 s step <> [].

Lemma max_windows_pos s :
  s ∈ sizes -> (0 < max_windows divide_windows ((t0, img0) :: rest) s)%nat.
Proof.
  intros Hs. unfold max_windows. simpl.
  pose proof (first_frame_windows s Hs) as Hw.
  destruct (divide_windows img0 s step); [done | simpl; lia].
Qed.

Lemma sizes_of_first_index :
  sizes_of divide_windows sizes ((t0, img0) :: rest) 0 = sizes.
Proof.
  unfold sizes_of, sizes_scan. cbn [flat_map snd].
  rewrite filter_all.
  - apply drop_duplicates_app_subseteq; [done|].
    intros s Hs. apply elem_of_flat_map in Hs as (fr & _ & Hs).
    by apply list_elem_of_filter in Hs as [_ Hs].
  - intros s Hs. pose proof (first_frame_windows s Hs) as Hw.
    destruct (divide_windows img0 s step); [done | simpl; lia].
Qed.

Lemma out_sizes_in_order :
  drop_duplicates
    (map out_size (build_df_out (build_df divide_windows sizes ((t0, img0) :: rest))))
  = sizes.
Proof.
  rewrite build_df_out_sizes by done.
  destruct (num_windows divide_windows sizes ((t0, img0) :: rest)) as [|n] eqn:EN.
  - symmetry. apply elem_of_nil_inv. intros s0 Hs0.
    pose proof (max_windows_pos s0 Hs0) as Hpos.
    pose proof (max_windows_le divide_windows sizes ((t0, img0) :: rest) s0 Hs0) as Hle.
    rewrite EN in Hle. lia.
  - cbn [seq flat_map]. rewrite sizes_of_first_index.
    apply drop_duplicates_app_subseteq; [done|].
    intros s Hs. apply elem_of_flat_map in Hs as (k & _ & Hs).
    by apply elem_of_sizes_of in Hs as [Hs _].
Qed.

(** The table [average]: one row per size, in the order of [sizes]. *)
Lemma build_average_rows :
  build_average (build_df_out (build_df divide_windows sizes ((t0, img0) :: rest)))
  = map (fun s => AvgRow (IZR s ^ 2) (fluctuation divide_windows ((t0, img0) :: rest) s))
        sizes.
Proof.
  unfold build_average. rewrite out_sizes_in_order.
  apply map_ext_elem. intros s Hs.
  rewrite build_df_out_of_size by done.
  rewrite !map_map. cbn [out_at out_n out_d].
  rewrite mean_const; [done|].
  pose proof (max_windows_pos s Hs) as Hpos.
  destruct (max_windows divide_windows ((t0, img0) :: rest) s); [lia | done].
Qed.

End AverageFacts.

Section SortedFacts.
Local Open Scope R_scope.

Lemma squares_increasing (l : list Z) :
  (forall s, s ∈ l -> (0 <= s)%Z) ->
  StronglySorted Z.lt l ->
  StronglySorted Rlt (map (fun s => IZR s ^ 2) l).
Proof.
  intros Hpos Hs. induction Hs as [|a l Hs IH Ha]; [constructor|].
  cbn [map]. constructor.
  - apply IH. intros s Hin. apply Hpos. by right.
  - apply Forall_forall. intros x Hx.
    apply list_elem_of_fmap in Hx as (b & -> & Hb).
    rewrite Forall_forall in Ha. specialize (Ha b Hb).
    assert (0 <= a)%Z by (apply Hpos; by left).
    assert (H0 : 0 <= IZR a) by (by apply IZR_le).
    assert (H1 : IZR a < IZR b) by (by apply IZR_lt).
    nra.
Qed.

End SortedFacts.

Section TileFacts.
Local Open Scope R_scope.

Lemma window_origins_nonempty dim bs stride :
  (bs <= dim)%nat -> window_origins dim bs stride <> [].
Proof.
  intros Hle. unfold window_origins. rewrite decide_True by done.
  rewrite Nat.add_1_r. done.
Qed.

Lemma tile_windows_nonempty img bs stride :
  (Z.to_nat bs <= length img)%nat ->
  (Z.to_nat bs <= length (hd [] img))%nat ->
  tile_windows img bs stride <> [].
Proof.
  intros Hr Hc. unfold tile_windows, tile_sums.
  pose proof (window_origins_nonempty _ _ (Z.to_nat stride) Hr) as H1.
  pose proof (window_origins_nonempty _ _ (Z.to_nat stride) Hc) as H2.
  destruct (window_origins (length img) _ _) as [|r rs]; [done|].
  destruct (window_origins (length (hd [] img)) _ _) as [|c cs]; [done|].
  done.
Qed.

Lemma Zsum_zero (l : list Z) : (forall x, x ∈ l -> x = 0%Z) -> foldr Z.add 0%Z l = 0%Z.
Proof.
  induction l as [|a l IH]; intros H; [done|].
  simpl. rewrite (H a) by (by left). rewrite IH; [done|].
  intros x Hx. apply H. by right.
Qed.

Lemma window_sum_zero img r c bs : zero_image img -> window_sum img r c bs = 0%Z.
Proof.
  intros Hz. unfold window_sum. apply Zsum_zero.
  intros x Hx. apply list_elem_of_fmap in Hx as (row & -> & Hrow).
  apply subseteq_take, subseteq_drop in Hrow.
  apply Zsum_zero. intros p Hp.
  apply subseteq_take, subseteq_drop in Hp. exact (Hz row Hrow p Hp).
Qed.

Lemma tile_windows_zero img bs stride v :
  zero_image img -> v ∈ tile_windows img bs stride -> v = 0.
Proof.
  intros Hz Hv. unfold tile_windows, tile_sums in Hv.
  apply list_elem_of_fmap in Hv as (z & -> & Hz').
  apply elem_of_flat_map in Hz' as (r & _ & Hz').
  apply list_elem_of_fmap in Hz' as (c & -> & _).
  by rewrite window_sum_zero.
Qed.

Lemma zero_image_replicate m n : zero_image (replicate m (replicate n 0%Z)).
Proof.
  intros row Hrow p Hp.
  apply elem_of_replicate_inv in Hrow as ->.
  by apply elem_of_replicate_inv in Hp.
Qed.

End TileFacts.

Section EstimatorFacts.
Local Open Scope R_scope.

Variable divide_windows : image -> Z -> Z -> list R.

Lemma df2_rows t0 img0 rest :
  (forall s, s ∈ boxsize (shorter_side img0) -> divide_windows img0 s step <> []) ->
  df2 divide_windows ((t0, img0) :: rest)
  = Ok (map (fun s => AvgRow (IZR s ^ 2)
                             (fluctuation divide_windows ((t0, img0) :: rest) s))
            (boxsize (shorter_side img0))).
Proof.
  intros Hw. unfold df2. f_equal.
  apply build_average_rows; [apply boxsize_NoDup | exact Hw].
Qed.

Lemma fluctuation_single_frame fr s :
  (0 < max_windows divide_windows [fr] s)%nat ->
  fluctuation divide_windows [fr] s = 0.
Proof.
  intros Hpos. unfold fluctuation.
  rewrite (map_ext_elem _ (fun _ => 0)).
  - apply mean_const. destruct (max_windows divide_windows [fr] s); [lia | done].
  - intros k Hk. apply elem_of_seq in Hk as [_ Hk].
    unfold max_windows in Hk. simpl in Hk. rewrite Nat.max_0_r in Hk.
    apply lookup_lt_is_Some_2 in Hk as [v Hv].
    unfold samples. simpl. rewrite Hv. simpl.
    rewrite (std_const_list v); [lra | done |].
    intros x Hx. by apply list_elem_of_singleton in Hx.
Qed.

(** ** All-zero frames *)

Lemma build_df_I sizes frames r :
  r ∈ build_df divide_windows sizes frames ->
  exists fr s, fr ∈ frames /\ s ∈ sizes /\ df_I r ∈ divide_windows (snd fr) s step.
Proof.
  unfold build_df, framedf, tempdf. intros Hr.
  apply elem_of_flat_map in Hr as (fr & Hfr & Hr).
  apply elem_of_flat_map in Hr as (s & Hs & Hr).
  apply elem_of_lookup_imap in Hr as (i & v & -> & Hv).
  exists fr, s. repeat split; [done..|]. simpl.
  by apply list_elem_of_lookup_2 in Hv.
Qed.

Lemma build_df_out_d_zero (df : list df_row) :
  (forall r, r ∈ df -> df_I r = 0) ->
  forall o, o ∈ build_df_out df -> out_d o = 0.
Proof.
  intros Hz o Ho. unfold build_df_out in Ho.
  apply elem_of_flat_map in Ho as (number & _ & Ho).
  apply list_elem_of_fmap in Ho as (s & -> & Hs). simpl.
  rewrite elem_of_drop_duplicates in Hs.
  apply list_elem_of_fmap in Hs as (r & -> & Hr).
  rewrite (std_const_list 0); [lra | |].
  - intros Hnil. apply fmap_nil_inv in Hnil.
    assert (Hin : r ∈ filter (fun r' => df_size r' = df_size r)
                    (filter (fun r' => df_number r' = number) df))
      by (by apply list_elem_of_filter).
    rewrite Hnil in Hin. by apply elem_of_nil in Hin.
  - intros x Hx. apply list_elem_of_fmap in Hx as (r' & -> & Hr').
    apply Hz. apply list_elem_of_filter in Hr' as [_ Hr'].
    by apply list_elem_of_filter in Hr' as [_ Hr'].
Qed.

Lemma build_average_d_zero (df_out : list out_row) :
  (forall o, o ∈ df_out -> out_d o = 0) ->
  forall a, a ∈ build_average df_out -> avg_d a = 0.
Proof.
  intros Hz a Ha. unfold build_average in Ha.
  apply list_elem_of_fmap in Ha as (s & -> & Hs). simpl.
  rewrite elem_of_drop_duplicates in Hs.
  apply list_elem_of_fmap in Hs as (o & -> & Ho).
  rewrite (map_ext_elem _ (fun _ => 0)).
  - apply mean_const. intros Hnil.
    assert (Hin : o ∈ filter (fun r => out_size r = out_size o) df_out)
      by (by apply list_elem_of_filter).
    rewrite Hnil in Hin. by apply elem_of_nil in Hin.
  - intros o' Ho'. apply Hz. by apply list_elem_of_filter in Ho' as [_ Ho'].
Qed.

End EstimatorFacts.

Section EstimatorTheorems.
Local Open Scope R_scope.

Variable divide_windows : image -> Z -> Z -> list R.

(** C6.  For a sequence whose first frame has a shorter side above
    [size_min] and at least one window of every size of the window-size
    set, the table [average] has exactly one record per size of the set,
    in the order of the set, and its column [n] is strictly increasing. *)
Theorem df2_one_record_per_size t0 img0 rest :
  (size_min < shorter_side img0)%Z ->
  (forall s, s ∈ boxsize (shorter_side img0) -> divide_windows img0 s step <> []) ->
  exists average,
    df2 divide_windows ((t0, img0) :: rest) = Ok average
    /\ map avg_n average = map (fun s => IZR s ^ 2) (boxsize (shorter_side img0))
    /\ StronglySorted Rlt (map avg_n average).
Proof.
  intros HL Hw. eexists. split; [by apply df2_rows|].
  rewrite map_map. cbn [avg_n]. split; [done|].
  apply squares_increasing; [apply boxsize_nonneg | apply boxsize_sorted].
Qed.

(** C1, as amended.  For each window size [s] of the window-size set the
    output record has [n = s^2], and its [d] is the mean, over the window
    positions [k], of [s^2] times the population standard deviation of
    the intensity samples of window [k] across all frames. *)
Theorem df2_fluctuation t0 img0 rest :
  (size_min < shorter_side img0)%Z ->
  (forall s, s ∈ boxsize (shorter_side img0) -> divide_windows img0 s step <> []) ->
  exists average,
    df2 divide_windows ((t0, img0) :: rest) = Ok average
    /\ (forall s, s ∈ boxsize (shorter_side img0) ->
          AvgRow (IZR s ^ 2)
                 (mean (map (fun k => IZR s ^ 2
                                      * std (samples divide_windows ((t0, img0) :: rest) s k))
                            (seq 0 (max_windows divide_windows ((t0, img0) :: rest) s))))
          ∈ average)
    /\ (forall r, r ∈ average ->
          exists s, s ∈ boxsize (shorter_side img0)
            /\ avg_n r = IZR s ^ 2
            /\ avg_d r = mean (map (fun k => IZR s ^ 2
                                   * std (samples divide_windows ((t0, img0) :: rest) s k))
                              (seq 0 (max_windows divide_windows ((t0, img0) :: rest) s)))).
Proof.
  intros HL Hw. eexists. split; [by apply df2_rows|]. split.
  - intros s Hs. apply list_elem_of_fmap. by exists s.
  - intros r Hr. apply list_elem_of_fmap in Hr as (s & -> & Hs).
    exists s. repeat split; done.
Qed.

(** C8.  When the window intensities of an all-zero frame are zero, a
    non-empty sequence of all-zero frames yields a table [average] in
    which every record has [d = 0]; and when the first frame has a window
    of every size, every size of the window-size set has its record, with
    [d = 0]. *)
Theorem df2_zero_frames t0 img0 rest :
  (size_min < shorter_side img0)%Z ->
  (forall img s v, zero_image img -> v ∈ divide_windows img s step -> v = 0) ->
  (forall fr, fr ∈ (t0, img0) :: rest -> zero_image (snd fr)) ->
  exists average,
    df2 divide_windows ((t0, img0) :: rest) = Ok average
    /\ (forall r, r ∈ average -> avg_d r = 0)
    /\ ((forall s, s ∈ boxsize (shorter_side img0) -> divide_windows img0 s step <> []) ->
        forall s, s ∈ boxsize (shorter_side img0) -> AvgRow (IZR s ^ 2) 0 ∈ average).
Proof.
  intros HL Hdw Hz.
  assert (Hd : forall r,
             r ∈ build_average
                   (build_df_out
                      (build_df divide_windows (boxsize (shorter_side img0))
                                ((t0, img0) :: rest))) ->
             avg_d r = 0).
  { apply build_average_d_zero, build_df_out_d_zero.
    intros r Hr. apply build_df_I in Hr as (fr & s & Hfr & _ & Hv).
    exact (Hdw (snd fr) s (df_I r) (Hz fr Hfr) Hv). }
  eexists. split; [reflexivity|]. split; [exact Hd|].
  intros Hw s Hs.
  pose proof (df2_rows divide_windows t0 img0 rest Hw) as Hrows.
  unfold df2 in Hrows. apply Ok_inj in Hrows.
  assert (Hin : AvgRow (IZR s ^ 2) (fluctuation divide_windows ((t0, img0) :: rest) s)
                ∈ build_average
                    (build_df_out
                       (build_df divide_windows (boxsize (shorter_side img0))
                                 ((t0, img0) :: rest)))).
  { rewrite Hrows. apply list_elem_of_fmap. by exists s. }
  pose proof (Hd _ Hin) as H0. cbn [avg_d] in H0. by rewrite H0 in Hin.
Qed.

End EstimatorTheorems.

Section EstimatorExamples.
Local Open Scope R_scope.

Lemma shorter_side_zero15 : shorter_side zero15 = 15%Z.
Proof. reflexivity. Qed.

Lemma shorter_side_still300 : shorter_side still300 = 300%Z.
Proof. reflexivity. Qed.

Lemma zero15_windows s :
  s ∈ boxsize (shorter_side zero15) -> tile_windows zero15 s step <> [].
Proof.
  rewrite shorter_side_zero15. intros Hs.
  apply boxsize_range in Hs; [|unfold size_min; lra].
  unfold size_min in Hs. destruct Hs as [_ Hs].
  assert (Hs' : (s <= 5)%Z) by (apply le_IZR; lra).
  apply tile_windows_nonempty.
  - change (length zero15) with 15%nat. lia.
  - change (length (hd [] zero15)) with 15%nat. lia.
Qed.

Lemma still300_windows s :
  s ∈ boxsize (shorter_side still300) -> tile_windows still300 s step <> [].
Proof.
  rewrite shorter_side_still300. intros Hs.
  apply boxsize_range in Hs; [|unfold size_min; lra].
  unfold size_min in Hs. destruct Hs as [_ Hs].
  assert (Hs' : (s <= 148)%Z) by (apply le_IZR; lra).
  apply tile_windows_nonempty.
  - change (length still300) with 300%nat. lia.
  - change (length (hd [] still300)) with 300%nat. lia.
Qed.

Lemma df2_one_record_per_size_witness :
  exists average,
    df2 tile_windows ((0%Z, zero15) :: []) = Ok average
    /\ map avg_n average = map (fun s => IZR s ^ 2) (boxsize (shorter_side zero15))
    /\ StronglySorted Rlt (map avg_n average).
Proof.
  apply (df2_one_record_per_size tile_windows 0%Z zero15 []).
  - rewrite shorter_side_zero15. unfold size_min. lia.
  - exact zero15_windows.
Defined.

Lemma df2_fluctuation_witness :
  exists average,
    df2 tile_windows ((0%Z, still300) :: []) = Ok average
    /\ (forall s, s ∈ boxsize (shorter_side still300) ->
          AvgRow (IZR s ^ 2)
                 (mean (map (fun k => IZR s ^ 2
                                      * std (samples tile_windows ((0%Z, still300) :: []) s k))
                            (seq 0 (max_windows tile_windows ((0%Z, still300) :: []) s))))
          ∈ average)
    /\ (forall r, r ∈ average ->
          exists s, s ∈ boxsize (shorter_side still300)
            /\ avg_n r = IZR s ^ 2
            /\ avg_d r = mean (map (fun k => IZR s ^ 2
                                   * std (samples tile_windows ((0%Z, still300) :: []) s k))
                              (seq 0 (max_windows tile_windows ((0%Z, still300) :: []) s)))).
Proof.
  apply (df2_fluctuation tile_windows 0%Z still300 []).
  - rewrite shorter_side_still300. unfold size_min. lia.
  - exact still300_windows.
Defined.

Lemma df2_zero_frames_witness :
  exists average,
    df2 tile_windows ((0%Z, zero15) :: (1%Z, zero15) :: []) = Ok average
    /\ (forall r, r ∈ average -> avg_d r = 0)
    /\ ((forall s, s ∈ boxsize (shorter_side zero15) -> tile_windows zero15 s step <> []) ->
        forall s, s ∈ boxsize (shorter_side zero15) -> AvgRow (IZR s ^ 2) 0 ∈ average).
Proof.
  apply (df2_zero_frames tile_windows 0%Z zero15 [(1%Z, zero15)]).
  - rewrite shorter_side_zero15. unfold size_min. lia.
  - intros img s v Hz Hv. by apply (tile_windows_zero img s step).
  - intros fr Hfr.
    assert (snd fr = zero15) as ->.
    { repeat (apply elem_of_cons in Hfr as [->|Hfr]); [done..|].
      by apply elem_of_nil in Hfr. }
    apply zero_image_replicate.
Defined.

Lemma still300_sums : tile_sums still300 5 step = [0; 0; 50; 50]%Z.
Proof. vm_compute. reflexivity. Qed.

Lemma still300_tiles :
  tile_windows still300 5 step = [IZR 0; IZR 0; IZR 50; IZR 50].
Proof. unfold tile_windows. by rewrite still300_sums. Qed.

Lemma std_still300_tiles : 0 < std [IZR 0; IZR 0; IZR 50; IZR 50].
Proof.
  unfold std. apply sqrt_lt_R0.
  assert (Hm : mean [IZR 0; IZR 0; IZR 50; IZR 50] = 25).
  { unfold mean, Rsum. simpl. lra. }
  rewrite Hm. unfold mean, Rsum. simpl. lra.
Qed.

(** C1 as stated fails when a frame has more than one window of a size.
    One 300 x 300 frame, rows 0-149 of pixel value 0 and rows 150-299 of
    pixel value 2: the four windows of size 5 have intensities 0, 0, 50,
    50.  Their population standard deviation is positive, but the output
    has [d = 0] in every record, because each window is constant in
    time. *)
Lemma df2_not_pooled_std :
  ~ exists average,
      df2 tile_windows [(0%Z, still300)] = Ok average
      /\ forall s, s ∈ boxsize (shorter_side still300) ->
           exists r, r ∈ average
             /\ avg_n r = IZR s ^ 2
             /\ avg_d r = IZR s ^ 2 * std (pooled_samples tile_windows [(0%Z, still300)] s).
Proof.
  intros (average & Hdf & Hall).
  rewrite (df2_rows tile_windows 0%Z still300 [] still300_windows) in Hdf.
  apply Ok_inj in Hdf. subst average.
  destruct (Hall size_min) as (r & Hr & _ & Hd).
  { rewrite shorter_side_still300. apply size_min_in_boxsize. lia. }
  apply list_elem_of_fmap in Hr as (s & -> & Hs). cbn [avg_d] in Hd.
  rewrite fluctuation_single_frame in Hd
    by exact (max_windows_pos tile_windows (boxsize (shorter_side still300))
                0%Z still300 [] still300_windows s Hs).
  unfold pooled_samples in Hd. cbn [flat_map snd] in Hd.
  rewrite app_nil_r in Hd.
  change (IZR size_min) with 5 in Hd.
  change (tile_windows still300 size_min step) with (tile_windows still300 5 step) in Hd.
  rewrite still300_tiles in Hd.
  pose proof std_still300_tiles. nra.
Qed.

End EstimatorExamples.

(* ===================================================================== *)
(** * Further properties of [postprocess_gnf] and [plot_std] *)
(* ===================================================================== *)

Section PostprocessMore.
Local Open Scope R_scope.

Lemma filter_none {A : Type} (P : A -> Prop) `{!forall x, Decision (P x)} (l : list A) :
  (forall x, x ∈ l -> ~ P x) -> filter P l = [].
Proof.
  induction l as [|a l IH]; intros HP; [done|].
  rewrite filter_cons_False by (apply HP; by left).
  apply IH. intros x Hx. apply HP. by right.
Qed.

Lemma postprocess_gnf_select_nil gnf_data lb xlim sparse :
  postprocess_gnf_select gnf_data lb xlim = Ok [] ->
  postprocess_gnf gnf_data lb xlim sparse
  = Raise (IndexError "index 0 is out of bounds for axis 0 with size 0").
Proof. intros H. unfold postprocess_gnf. by rewrite H. Qed.

(** X1.  An integer [xlim] at or below every row: nothing is left to
    normalize by, and [yy.iat[0]] raises [IndexError]. *)
Theorem postprocess_gnf_cut_everything gnf_data lb t sparse :
  (forall r, r ∈ gnf_data -> IZR t * lb ^ 2 <= col_n r) ->
  postprocess_gnf gnf_data lb (LimInt t) sparse
  = Raise (IndexError "index 0 is out of bounds for axis 0 with size 0").
Proof.
  intros Hall. apply postprocess_gnf_select_nil. simpl. f_equal.
  apply filter_none. intros r Hr Hlt. specialize (Hall r Hr). lra.
Qed.

Lemma postprocess_gnf_cut_everything_witness :
  postprocess_gnf [GnfRow 100 5 1; GnfRow 400 30 1] 10 (LimInt 1) 3
  = Raise (IndexError "index 0 is out of bounds for axis 0 with size 0").
Proof.
  apply postprocess_gnf_cut_everything.
  intros r Hr. repeat (apply elem_of_cons in Hr as [->|Hr]); simpl; try lra.
  by apply elem_of_nil in Hr.
Defined.

(** X2.  A list [xlim] whose upper end is not above its lower end selects no
    row of any table: the call raises [IndexError]. *)
Theorem postprocess_gnf_reversed_range gnf_data lb x0 x1 sparse :
  x1 <= x0 ->
  postprocess_gnf gnf_data lb (LimList [x0; x1]) sparse
  = Raise (IndexError "index 0 is out of bounds for axis 0 with size 0").
Proof.
  intros Hle. apply postprocess_gnf_select_nil. simpl. f_equal.
  apply filter_none. intros r _ [H1 H2].
  assert (0 <= lb * (lb * 1)) by nra. nra.
Qed.

Lemma postprocess_gnf_reversed_range_witness :
  postprocess_gnf [GnfRow 100 5 1; GnfRow 400 30 1] 10 (LimList [5; 2]) 3
  = Raise (IndexError "index 0 is out of bounds for axis 0 with size 0").
Proof. apply postprocess_gnf_reversed_range. lra. Defined.

(** ** Sparsifying *)

Lemma every_nth_length {A : Type} (k skip : nat) (l : list A) :
  (skip <= k)%nat ->
  length (every_nth k skip l) = ((length l + k - skip) / S k)%nat.
Proof.
  revert skip. induction l as [|x l IH]; intros skip Hs.
  - cbn [every_nth length]. symmetry. apply Nat.div_small. lia.
  - destruct skip as [|s]; cbn [every_nth length].
    + rewrite IH by lia.
      transitivity (S (length l / S k)).
      * do 2 f_equal. lia.
      * transitivity ((length l + 1 * S k) / S k)%nat.
        -- rewrite Nat.div_add; lia.
        -- f_equal. lia.
    + rewrite IH by lia. reflexivity.
Qed.

Lemma slice_step_pos {A : Type} (l : list A) (sparse : Z) :
  (0 < sparse)%Z ->
  slice_step l sparse = Ok (every_nth (Z.to_nat sparse - 1) 0 l).
Proof.
  destruct sparse as [|p|p]; intros H; try lia.
  simpl. do 2 f_equal. lia.
Qed.

(** What [postprocess_gnf] returns on a non-empty selection. *)
Lemma postprocess_gnf_value gnf_data lb xlim sparse r0 rest :
  postprocess_gnf_select gnf_data lb xlim = Ok (r0 :: rest) ->
  (0 < sparse)%Z ->
  postprocess_gnf gnf_data lb xlim sparse
  = Ok (every_nth (Z.to_nat sparse - 1) 0
          (map (fun r => col_n r / lb ^ 2) (r0 :: rest)),
        every_nth (Z.to_nat sparse - 1) 0
          (map (fun y => y / (col_d r0 / sqrt (col_n r0)))
               (map (fun r => col_d r / sqrt (col_n r)) (r0 :: rest)))).
Proof.
  intros Hsel Hsp. unfold postprocess_gnf. rewrite Hsel.
  cbn [bind map iat0]. rewrite !slice_step_pos by done. reflexivity.
Qed.

(** X3.  [x] and [y] have the same length: one point for every [sparse] rows
    selected, rounded up. *)
Theorem postprocess_gnf_lengths gnf_data lb xlim sparse r0 rest :
  postprocess_gnf_select gnf_data lb xlim = Ok (r0 :: rest) ->
  (0 < sparse)%Z ->
  exists x y,
    postprocess_gnf gnf_data lb xlim sparse = Ok (x, y)
    /\ length x = length y
    /\ Z.of_nat (length x) = ((Z.of_nat (length (r0 :: rest)) + sparse - 1) / sparse)%Z.
Proof.
  intros Hsel Hsp. eexists _, _. split; [by apply postprocess_gnf_value|].
  rewrite !every_nth_length by lia. rewrite !length_map. split; [done|].
  set (m := length (r0 :: rest)).
  replace (S (Z.to_nat sparse - 1)) with (Z.to_nat sparse) by lia.
  rewrite Nat2Z.inj_div. f_equal; lia.
Qed.

Lemma postprocess_gnf_lengths_witness :
  exists x y,
    postprocess_gnf [GnfRow 25 10 1; GnfRow 36 18 1; GnfRow 49 28 1; GnfRow 64 40 1]
                    1 LimNone 3 = Ok (x, y)
    /\ length x = length y
    /\ Z.of_nat (length x)
       = ((Z.of_nat (length [GnfRow 25 10 1; GnfRow 36 18 1; GnfRow 49 28 1; GnfRow 64 40 1])
           + 3 - 1) / 3)%Z.
Proof.
  apply (postprocess_gnf_lengths _ 1 LimNone 3 (GnfRow 25 10 1)
           [GnfRow 36 18 1; GnfRow 49 28 1; GnfRow 64 40 1]); [reflexivity | lia].
Defined.

End PostprocessMore.

Section PostprocessScale.
Local Open Scope R_scope.

Lemma filter_map_commute {A B : Type} (f : A -> B) (P : B -> Prop) (Q : A -> Prop)
    `{!forall x, Decision (P x), !forall x, Decision (Q x)} (l : list A) :
  (forall x, P (f x) <-> Q x) ->
  filter P (map f l) = map f (filter Q l).
Proof.
  intros HPQ. induction l as [|a l IH]; [done|].
  cbn [map]. rewrite !filter_cons, IH.
  destruct (decide (P (f a))) as [HP|HP], (decide (Q a)) as [HQ|HQ]; try done;
    exfalso; pose proof (HPQ a); tauto.
Qed.




End PostprocessScale.

Section PlotStdMore.
Local Open Scope R_scope.

Lemma plot_std_select_ok k_data seg_length tlim fps :
  limit_shape_ok tlim = true ->
  exists data, plot_std_select k_data seg_length tlim fps = Ok data.
Proof.
  destruct tlim as [| | |[|? [|? [|? ?]]]| |]; simpl; intros H; try done; eauto.
Qed.

(** X5.  With [num_curves = 0] and a recognized [tlim], [plot_std] divides by
    zero, whatever the data. *)
Theorem plot_std_no_curves k_data seg_length tlim xlim lb fps :
  limit_shape_ok tlim = true ->
  plot_std k_data seg_length tlim xlim lb fps 0 = Raise ZeroDivisionError.
Proof.
  intros Hok. destruct (plot_std_select_ok k_data seg_length tlim fps Hok) as [data Hd].
  unfold plot_std. rewrite Hd. cbn [bind]. unfold plot_std_seg_list.
  rewrite decide_False by lia. by rewrite decide_True.
Qed.

Lemma plot_std_no_curves_witness :
  plot_std [GnfRow 25 10 1] 100 (LimInt 5) LimNone 10 10 0 = Raise ZeroDivisionError.
Proof. by apply plot_std_no_curves. Defined.

Lemma plot_std_curves_length data lb xlim num seg_list res :
  plot_std_curves data lb xlim num seg_list = Ok res ->
  length res = length seg_list /\ (seg_list <> [] -> (num + length seg_list <= 7)%nat).
Proof.
  revert num res. induction seg_list as [|i rest IH]; intros num res H.
  - simpl in H. apply Ok_inj in H as <-. done.
  - cbn [plot_std_curves] in H.
    apply bind_Ok in H as (xy & _ & H).
    apply bind_Ok in H as ([] & Hnum & H).
    apply bind_Ok in H as (more & Hmore & H).
    apply Ok_inj in H as <-.
    destruct (decide (num < 7)%nat) as [Hlt|]; [|done].
    apply IH in Hmore as [Hlen Hbound]. simpl. split; [by rewrite Hlen|].
    intros _. destruct rest as [|j rest']; [simpl; lia|].
    specialize (Hbound ltac:(done)). simpl in *. lia.
Qed.

(** X6.  [symbol_list] has seven markers: [plot_std] never returns more than
    seven curves, and what it returns has one curve per distinct segment
    when there are fewer than [num_curves] of them, and [num_curves]
    curves otherwise. *)
Theorem plot_std_curve_count k_data seg_length tlim xlim lb fps num_curves data plot_data :
  plot_std_select k_data seg_length tlim fps = Ok data ->
  plot_std k_data seg_length tlim xlim lb fps num_curves = Ok plot_data ->
  (length plot_data <= 7)%nat
  /\ Z.of_nat (length plot_data)
     = Z.min (Z.of_nat (length (drop_duplicates (map col_segment data))))
             (Z.max 0 num_curves).
Proof.
  intros Hsel H. unfold plot_std in H. rewrite Hsel in H. cbn [bind] in H.
  apply bind_Ok in H as (seg_list & Hseg & H).
  apply plot_std_curves_length in H as [Hlen Hbound].
  split.
  - destruct seg_list as [|i rest]; [simpl in Hlen; lia|].
    specialize (Hbound ltac:(done)). lia.
  - rewrite Hlen. unfold plot_std_seg_list in Hseg.
    destruct (decide _) as [Hlt|Hge] in Hseg.
    + apply Ok_inj in Hseg as <-. lia.
    + destruct (decide (num_curves = 0)%Z) in Hseg; [done|].
      apply Ok_inj in Hseg as <-. rewrite length_map, length_seq. lia.
Qed.

Lemma plot_std_curve_count_witness :
  exists plot_data,
    plot_std [GnfRow 25 10 1; GnfRow 36 18 1; GnfRow 25 12 2] 100 LimNone LimNone 10 10 5
      = Ok plot_data
    /\ (length plot_data <= 7)%nat
    /\ Z.of_nat (length plot_data)
       = Z.min (Z.of_nat (length (drop_duplicates
                  (map col_segment [GnfRow 25 10 1; GnfRow 36 18 1; GnfRow 25 12 2]))))
               (Z.max 0 5).
Proof.
  eexists. split; [reflexivity|].
  eapply (plot_std_curve_count _ 100 LimNone LimNone 10 10 5); reflexivity.
Defined.

(** X7.  A listed segment without rows (the segment numbers of the data have
    a gap) stops [plot_std] with [IndexError], for a recognized [xlim]. *)
Theorem plot_std_curves_missing_segment data lb xlim num i rest :
  limit_shape_ok xlim = true ->
  (forall r, r ∈ data -> col_segment r <> i) ->
  plot_std_curves data lb xlim num (i :: rest)
  = Raise (IndexError "index 0 is out of bounds for axis 0 with size 0").
Proof.
  intros Hok Hmiss. cbn [plot_std_curves].
  rewrite (filter_none (fun r => col_segment r = i)) by (intros r Hr; by apply Hmiss).
  rewrite postprocess_gnf_select_nil; [done|].
  destruct xlim as [| | |[|? [|? [|? ?]]]| |]; simpl in *; done.
Qed.

Lemma plot_std_curves_missing_segment_witness :
  plot_std_curves [GnfRow 25 10 1; GnfRow 25 12 3] 10 LimNone 0 [2%Z; 3%Z]
  = Raise (IndexError "index 0 is out of bounds for axis 0 with size 0").
Proof.
  apply plot_std_curves_missing_segment; [reflexivity|].
  intros r Hr. repeat (apply elem_of_cons in Hr as [->|Hr]); simpl; try lia.
  by apply elem_of_nil in Hr.
Defined.

End PlotStdMore.

(* ===================================================================== *)
(** * Properties of [plot_kinetics] *)
(* ===================================================================== *)

Section RescaleFacts.
Local Open Scope R_scope.

Lemma Rlist_min_le (l : list R) x : x ∈ l -> Rlist_min l <= x.
Proof.
  unfold Rlist_min. generalize (hd 0 l) as d.
  induction l as [|a l IH]; intros d Hx; [by apply elem_of_nil in Hx|].
  simpl. apply elem_of_cons in Hx as [->|Hx].
  - apply Rmin_l.
  - etrans; [apply Rmin_r | by apply IH].
Qed.

Lemma Rlist_max_ge (l : list R) x : x ∈ l -> x <= Rlist_max l.
Proof.
  unfold Rlist_max. generalize (hd 0 l) as d.
  induction l as [|a l IH]; intros d Hx; [by apply elem_of_nil in Hx|].
  simpl. apply elem_of_cons in Hx as [->|Hx].
  - apply Rmax_l.
  - etrans; [by apply IH | apply Rmax_r].
Qed.

Lemma foldr_Rmin_cases d (l : list R) : foldr Rmin d l = d \/ foldr Rmin d l ∈ l.
Proof.
  induction l as [|a l IH]; [by left|].
  simpl. apply (Rmin_case a (foldr Rmin d l)
                  (fun r => r = d \/ r ∈ a :: l)).
  - right. by left.
  - destruct IH as [IH|IH]; [by left | right; by right].
Qed.

Lemma foldr_Rmax_cases d (l : list R) : foldr Rmax d l = d \/ foldr Rmax d l ∈ l.
Proof.
  induction l as [|a l IH]; [by left|].
  simpl. apply (Rmax_case a (foldr Rmax d l)
                  (fun r => r = d \/ r ∈ a :: l)).
  - right. by left.
  - destruct IH as [IH|IH]; [by left | right; by right].
Qed.

Lemma Rlist_min_elem (l : list R) : l <> [] -> Rlist_min l ∈ l.
Proof.
  destruct l as [|a l]; [done|]. intros _. unfold Rlist_min. cbn [hd].
  destruct (foldr_Rmin_cases a (a :: l)) as [-> | H]; [by left | done].
Qed.

Lemma Rlist_max_elem (l : list R) : l <> [] -> Rlist_max l ∈ l.
Proof.
  destruct l as [|a l]; [done|]. intros _. unfold Rlist_max. cbn [hd].
  destruct (foldr_Rmax_cases a (a :: l)) as [-> | H]; [by left | done].
Qed.

Lemma Rlist_max_unique (l : list R) M :
  M ∈ l -> (forall x, x ∈ l -> x <= M) -> Rlist_max l = M.
Proof.
  intros HM Hall. apply Rle_antisym.
  - apply Hall, Rlist_max_elem. intros ->. by apply elem_of_nil in HM.
  - by apply Rlist_max_ge.
Qed.

Lemma Rlist_max_shift (l : list R) m :
  l <> [] -> Rlist_max (map (fun v => v - m) l) = Rlist_max l - m.
Proof.
  intros Hne. apply Rlist_max_unique.
  - apply list_elem_of_fmap. exists (Rlist_max l). split; [done|].
    by apply Rlist_max_elem.
  - intros x Hx. apply list_elem_of_fmap in Hx as (v & -> & Hv).
    apply Rlist_max_ge in Hv. lra.
Qed.

(** What [rescale_intensity] computes, for a series that is not constant. *)
Lemma rescale_intensity_value (l : list R) :
  Rlist_min l < Rlist_max l ->
  rescale_intensity l
  = map (fun v => (v - Rlist_min l) / (Rlist_max l - Rlist_min l)) l.
Proof.
  intros Hlt. unfold rescale_intensity.
  assert (Hne : l <> []) by (intros ->; unfold Rlist_min, Rlist_max in Hlt; simpl in Hlt; lra).
  rewrite Rlist_max_shift by done. by rewrite map_map.
Qed.

Lemma rescale_intensity_props (l : list R) :
  Rlist_min l < Rlist_max l ->
  length (rescale_intensity l) = length l
  /\ (forall v, v ∈ rescale_intensity l -> 0 <= v <= 1)
  /\ 0 ∈ rescale_intensity l
  /\ 1 ∈ rescale_intensity l.
Proof.
  intros Hlt. rewrite rescale_intensity_value by done.
  assert (Hne : l <> []) by (intros ->; unfold Rlist_min, Rlist_max in Hlt; simpl in Hlt; lra).
  split; [by rewrite length_map|]. split; [|split].
  - intros v Hv. apply list_elem_of_fmap in Hv as (x & -> & Hx).
    pose proof (Rlist_min_le l x Hx). pose proof (Rlist_max_ge l x Hx).
    split.
    + apply Rmult_le_pos; [lra|]. left. apply Rinv_0_lt_compat. lra.
    + apply (Rmult_le_reg_r (Rlist_max l - Rlist_min l)); [lra|].
      unfold Rdiv. rewrite Rmult_assoc, Rinv_l by lra. lra.
  - apply list_elem_of_fmap. exists (Rlist_min l). split; [|by apply Rlist_min_elem].
    unfold Rdiv. rewrite Rminus_diag. lra.
  - apply list_elem_of_fmap. exists (Rlist_max l). split; [|by apply Rlist_max_elem].
    field. lra.
Qed.

(** X8.  The rescaled light intensity of a series that is not constant lies in
    [[0, 1]], and reaches both ends. *)
Theorem rescale_intensity_range (l : list R) :
  Rlist_min l < Rlist_max l ->
  length (rescale_intensity l) = length l
  /\ (forall v, v ∈ rescale_intensity l -> 0 <= v <= 1)
  /\ 0 ∈ rescale_intensity l
  /\ 1 ∈ rescale_intensity l.
Proof. apply rescale_intensity_props. Qed.

Lemma rescale_intensity_range_witness :
  length (rescale_intensity [3; 7; 5]) = length [3; 7; 5]
  /\ (forall v, v ∈ rescale_intensity [3; 7; 5] -> 0 <= v <= 1)
  /\ 0 ∈ rescale_intensity [3; 7; 5]
  /\ 1 ∈ rescale_intensity [3; 7; 5].
Proof.
  apply (rescale_intensity_range [3; 7; 5]).
  apply Rlt_le_trans with 7.
  - apply Rle_lt_trans with 3; [apply Rlist_min_le; by left | lra].
  - apply Rlist_max_ge. right. by left.
Defined.

End RescaleFacts.

(** Decides the tests of a [filter] over a concrete table of reals. *)
Ltac eval_filter :=
  repeat (rewrite filter_cons || rewrite filter_nil);
  repeat match goal with
    | |- context [decide ?P] =>
        first [ rewrite (decide_True (P := P))
                  by (simpl; eval_IZR; solve [lra | split; lra])
              | rewrite (decide_False (P := P))
                  by (simpl; eval_IZR; solve [lra | intros [? ?]; lra]) ]
    end.

Section PlotKineticsFacts.
Local Open Scope R_scope.

Variable polyfit : list R -> list R -> Res R.

Lemma plot_kinetics_fit_value k_data lb xlim seg_length fps segs t power :
  plot_kinetics_fit polyfit k_data lb xlim seg_length fps segs = Ok (t, power) ->
  t = map (fun idx => IZR ((idx - 1) * seg_length) / IZR fps) segs
  /\ length power = length segs.
Proof.
  revert t power. induction segs as [|idx rest IH]; intros t power H.
  - simpl in H. apply Ok_inj in H. by injection H as <- <-.
  - cbn [plot_kinetics_fit] in H.
    apply bind_Ok in H as (xy & _ & H).
    apply bind_Ok in H as (p & _ & H).
    apply bind_Ok in H as ([t' power'] & Hmore & H).
    apply Ok_inj in H. injection H as <- <-.
    apply IH in Hmore as [-> Hlen]. simpl. by rewrite Hlen.
Qed.

Lemma plot_kinetics_value k_data i_data tlim xlim lb seg_length fps data k_kept i_kept :
  plot_kinetics_apply_tlim k_data i_data tlim seg_length fps = Ok (k_kept, i_kept) ->
  plot_kinetics polyfit k_data i_data tlim xlim lb seg_length fps = Ok data ->
  exists alpha,
    data = [("t0", map (fun idx => IZR ((idx - 1) * seg_length) / IZR fps)
                       (drop_duplicates (map col_segment k_kept)));
            ("alpha", alpha);
            ("t1", map (fun r => col_t r / IZR fps) i_kept);
            ("i", rescale_intensity (map col_intensity i_kept))]
    /\ length alpha = length (drop_duplicates (map col_segment k_kept)).
Proof.
  intros Hsel H. unfold plot_kinetics in H. rewrite Hsel in H. cbn [bind fst snd] in H.
  apply bind_Ok in H as ([t power] & Hfit & H).
  apply Ok_inj in H as <-. cbn [fst snd].
  apply plot_kinetics_fit_value in Hfit as [-> Hlen]. by exists power.
Qed.

Lemma plot_kinetics_apply_tlim_within k_data i_data tlim seg_length fps k_kept i_kept :
  plot_kinetics_apply_tlim k_data i_data tlim seg_length fps = Ok (k_kept, i_kept) ->
  (forall r, r ∈ k_kept ->
     within_tlim tlim (IZR ((col_segment r - 1) * seg_length) / IZR fps))
  /\ (forall r, r ∈ i_kept -> within_tlim tlim (col_t r / IZR fps)).
Proof.
  intros H.
  destruct tlim as [|t| |[|t0 [|t1 [|? ?]]]| |]; simpl in H; try done.
  - apply Ok_inj in H. injection H as <- <-.
    split; intros r Hr; by apply list_elem_of_filter in Hr as [Hr _].
  - destruct (decide (t1 > t0)) as [Hgt|]; [|done].
    apply Ok_inj in H. injection H as <- <-.
    split; intros r Hr; apply list_elem_of_filter in Hr as [[H1 H2] _]; simpl; lra.
Qed.

(** X9.  Every time that [plot_kinetics] returns, in ['t0'] and in ['t1'],
    lies within [tlim]: below an integer [tlim], and in
    [[tlim[0], tlim[1])] for a list ([fps] is not 0). *)
Theorem plot_kinetics_times_within k_data i_data tlim xlim lb seg_length fps data :
  (fps <> 0)%Z ->
  plot_kinetics polyfit k_data i_data tlim xlim lb seg_length fps = Ok data ->
  forall key times v,
    key = "t0" \/ key = "t1" ->
    dict_get key data = Some times ->
    v ∈ times ->
    within_tlim tlim v.
Proof.
  intros _ H key times v Hkey Hget Hv.
  pose proof H as H'. unfold plot_kinetics in H'.
  apply bind_Ok in H' as ([k_kept i_kept] & Hsel & _).
  destruct (plot_kinetics_value _ _ _ _ _ _ _ _ _ _ Hsel H) as (alpha & -> & _).
  destruct (plot_kinetics_apply_tlim_within _ _ _ _ _ _ _ Hsel) as [Hk Hi].
  destruct Hkey as [-> | ->]; simpl in Hget; injection Hget as <-.
  - apply list_elem_of_fmap in Hv as (idx & -> & Hidx).
    rewrite elem_of_drop_duplicates in Hidx.
    apply list_elem_of_fmap in Hidx as (r & -> & Hr). by apply Hk.
  - apply list_elem_of_fmap in Hv as (r & -> & Hr). by apply Hi.
Qed.

End PlotKineticsFacts.

Section PlotKineticsExamples.
Local Open Scope R_scope.

Lemma sample_plot_kinetics_tlim :
  plot_kinetics_apply_tlim sample_k_data sample_i_data (LimList [0; 25]) 100 10
  = Ok ([GnfRow 25 10 1; GnfRow 36 18 1; GnfRow 25 12 2; GnfRow 36 27 2],
        [IRow 0 3; IRow 100 7; IRow 200 5]).
Proof.
  unfold plot_kinetics_apply_tlim, sample_k_data, sample_i_data.
  rewrite decide_True by lra. f_equal. f_equal; eval_filter; reflexivity.
Qed.

Lemma sample_plot_kinetics :
  plot_kinetics unit_slope sample_k_data sample_i_data (LimList [0; 25]) LimNone 10 100 10
  = Ok [("t0", [IZR ((1 - 1) * 100) / IZR 10; IZR ((2 - 1) * 100) / IZR 10]);
        ("alpha", [1; 1]);
        ("t1", [0 / IZR 10; 100 / IZR 10; 200 / IZR 10]);
        ("i", rescale_intensity [3; 7; 5])].
Proof.
  unfold plot_kinetics. rewrite sample_plot_kinetics_tlim. reflexivity.
Qed.

Lemma plot_kinetics_times_within_witness : within_tlim (LimList [0; 25]) (100 / IZR 10).
Proof.
  apply (plot_kinetics_times_within unit_slope sample_k_data sample_i_data
           (LimList [0; 25]) LimNone 10 100 10 _ ltac:(lia) sample_plot_kinetics
           "t1" [0 / IZR 10; 100 / IZR 10; 200 / IZR 10]).
  - by right.
  - reflexivity.
  - right. by left.
Defined.

End PlotKineticsExamples.

(* ===================================================================== *)
(** * Properties of [kinetics_from_light_on] *)
(* ===================================================================== *)

Section LightOnFacts.
Local Open Scope R_scope.

Lemma dict_getitem_Some (d : pydict) key v :
  dict_get key d = Some v -> dict_getitem d key = Ok v.
Proof. unfold dict_getitem. by intros ->. Qed.

Lemma dict_get_map (f : string -> list R -> list R) key (d : pydict) :
  dict_get key (map (fun kv => (fst kv, f (fst kv) (snd kv))) d) = f key <$> dict_get key d.
Proof.
  induction d as [|[k v] d IH]; [done|].
  simpl. destruct (decide (k = key)) as [->|]; [done | exact IH].
Qed.

Lemma dict_get_elem key (d : pydict) v : dict_get key d = Some v -> (key, v) ∈ d.
Proof.
  induction d as [|[k w] d IH]; [done|].
  simpl. destruct (decide (k = key)) as [->|].
  - intros [= ->]. by left.
  - intros H. right. by apply IH.
Qed.

Lemma mask_select_ok values mask_source lot :
  length values = length mask_source ->
  mask_select values mask_source lot = Ok (mask_keep values mask_source lot).
Proof. intros H. unfold mask_select. by rewrite decide_True. Qed.

Lemma mask_keep_length values mask_source lot :
  length values = length mask_source ->
  length (mask_keep values mask_source lot)
  = length (filter (fun x => x >= lot) mask_source).
Proof.
  unfold mask_keep. rewrite length_map.
  revert mask_source. induction values as [|v values IH]; intros [|m ms] Hlen;
    try done.
  simpl in Hlen. cbn [zip zip_with]. rewrite !filter_cons. cbn [snd].
  destruct (decide (m >= lot)); simpl; rewrite IH by lia; done.
Qed.

Lemma mask_keep_self (l : list R) lot :
  mask_keep l l lot = filter (fun x => x >= lot) l.
Proof.
  unfold mask_keep. induction l as [|a l IH]; [done|].
  cbn [zip zip_with]. rewrite !filter_cons. cbn [snd].
  destruct (decide (a >= lot)); simpl; by rewrite IH.
Qed.

Lemma light_on_index_Some (i : list R) :
  Rlist_min i < Rlist_max i ->
  exists ind v,
    light_on_index i = Some ind
    /\ i !! ind = Some v
    /\ v > (Rlist_max i + Rlist_min i) / 2
    /\ forall j w, i !! j = Some w -> (j < ind)%nat -> ~ w > (Rlist_max i + Rlist_min i) / 2.
Proof.
  intros Hlt. unfold light_on_index.
  assert (Hne : i <> []) by (intros ->; unfold Rlist_min, Rlist_max in Hlt; simpl in Hlt; lra).
  destruct (list_find (fun v => v > (Rlist_max i + Rlist_min i) / 2) i) as [[ind v]|] eqn:E.
  - apply list_find_Some in E as (Hv & Hgt & Hfirst).
    exists ind, v. repeat split; try done.
  - exfalso. apply list_find_None in E. rewrite Forall_forall in E.
    apply (E (Rlist_max i)); [by apply Rlist_max_elem | lra].
Qed.

Lemma light_on_loop_value data lot kws t0 t1 :
  dict_get "t0" data = Some t0 ->
  dict_get "t1" data = Some t1 ->
  (forall kw v, (kw, v) ∈ kws ->
     length v = if decide (kw = "t0" \/ kw = "alpha") then length t0 else length t1) ->
  light_on_loop data lot kws
  = Ok (map (fun kv => (fst kv, light_on_value t0 t1 lot (fst kv) (snd kv))) kws).
Proof.
  intros Ht0 Ht1. induction kws as [|[kw v] kws IH]; intros Hlen; [done|].
  cbn [light_on_loop].
  rewrite !(dict_getitem_Some _ _ _ Ht0), !(dict_getitem_Some _ _ _ Ht1). cbn [bind].
  pose proof (Hlen kw v ltac:(by left)) as Hv.
  rewrite IH by (intros kw' v' Hin; apply Hlen; by right).
  unfold light_on_value. cbn [map fst snd].
  destruct (decide (kw = "t0")) as [->|Hn0].
  { rewrite decide_True in Hv by (by left). by rewrite mask_select_ok. }
  destruct (decide (kw = "alpha")) as [->|Hna].
  { rewrite decide_True in Hv by (by right). by rewrite mask_select_ok. }
  rewrite decide_False in Hv by (intros [?|?]; done).
  destruct (decide (kw = "t1")) as [->|Hn1]; by rewrite mask_select_ok.
Qed.

(** What [kinetics_from_light_on] does on a dict whose arrays are
    aligned and whose intensity is not constant. *)
Lemma kinetics_from_light_on_value data t0 alpha t1 i :
  dict_get "t0" data = Some t0 ->
  dict_get "alpha" data = Some alpha ->
  dict_get "t1" data = Some t1 ->
  dict_get "i" data = Some i ->
  (forall kw v, (kw, v) ∈ data ->
     length v = if decide (kw = "t0" \/ kw = "alpha") then length t0 else length t1) ->
  Rlist_min i < Rlist_max i ->
  exists ind lot,
    light_on_index i = Some ind
    /\ t1 !! ind = Some lot
    /\ kinetics_from_light_on data
       = Ok (map (fun kv => (fst kv, light_on_value t0 t1 lot (fst kv) (snd kv))) data).
Proof.
  intros Ht0 Ha Ht1 Hi Hlen Hlt.
  destruct (light_on_index_Some i Hlt) as (ind & v & Hind & Hv & _).
  assert (Hli : length i = length t1).
  { rewrite (Hlen "i" i) by (by apply dict_get_elem). by rewrite decide_False by (intros [?|?]; done). }
  destruct (lookup_lt_is_Some_2 t1 ind) as [lot Hlot].
  { rewrite <- Hli. by apply lookup_lt_Some in Hv. }
  exists ind, lot. split; [done|]. split; [done|].
  unfold kinetics_from_light_on.
  rewrite (dict_getitem_Some _ _ _ Hi). cbn [bind]. rewrite Hind.
  rewrite (dict_getitem_Some _ _ _ Ht1). cbn [bind]. rewrite Hlot.
  rewrite (light_on_loop_value data lot data t0 t1) by done. cbn [bind].
  unfold dict_getitem. rewrite !dict_get_map, Ht0, Ha. reflexivity.
Qed.

Lemma kinetics_from_light_on_props data t0 alpha t1 i :
  dict_get "t0" data = Some t0 ->
  dict_get "alpha" data = Some alpha ->
  dict_get "t1" data = Some t1 ->
  dict_get "i" data = Some i ->
  (forall kw v, (kw, v) ∈ data ->
     length v = if decide (kw = "t0" \/ kw = "alpha") then length t0 else length t1) ->
  Rlist_min i < Rlist_max i ->
  exists new_data,
    kinetics_from_light_on data = Ok new_data /\ shifted_to_light_on data new_data.
Proof.
  intros Ht0 Ha Ht1 Hi Hlen Hlt.
  destruct (kinetics_from_light_on_value data t0 alpha t1 i Ht0 Ha Ht1 Hi Hlen Hlt)
    as (ind & lot & Hind & Hlot & Hret).
  assert (Hla : length alpha = length t0).
  { rewrite (Hlen "alpha" alpha) by (by apply dict_get_elem). by rewrite decide_True by (by right). }
  assert (Hli : length i = length t1).
  { rewrite (Hlen "i" i) by (by apply dict_get_elem). by rewrite decide_False by (intros [?|?]; done). }
  eexists. split; [exact Hret|]. unfold shifted_to_light_on.
  eexists _, _, _, _.
  split; [by rewrite map_map, (map_ext _ fst)|].
  rewrite !dict_get_map, Ht0, Ha, Ht1, Hi. unfold light_on_value. simpl.
  do 4 (split; [reflexivity|]).
  rewrite !mask_keep_self, !length_map. rewrite !mask_keep_length by done.
  split; [done|]. split; [done|]. split.
  - intros v Hv. apply elem_of_app in Hv as [Hv|Hv];
      apply list_elem_of_fmap in Hv as (x & -> & Hx);
      apply list_elem_of_filter in Hx as [Hx _]; lra.
  - apply list_elem_of_fmap. exists lot. split; [lra|].
    apply list_elem_of_filter. split; [lra|].
    by apply list_elem_of_lookup_2 in Hlot.
Qed.

(** X10.  On a dict whose arrays are aligned (['alpha'] with ['t0'], every
    other entry with ['t1']) and whose intensity is not constant,
    [kinetics_from_light_on] returns; it keeps the keys and their order,
    the light-on time becomes time 0 of ['t1'], no returned time is
    negative, and the arrays stay aligned. *)
Theorem kinetics_from_light_on_aligned data t0 alpha t1 i :
  dict_get "t0" data = Some t0 ->
  dict_get "alpha" data = Some alpha ->
  dict_get "t1" data = Some t1 ->
  dict_get "i" data = Some i ->
  (forall kw v, (kw, v) ∈ data ->
     length v = if decide (kw = "t0" \/ kw = "alpha") then length t0 else length t1) ->
  Rlist_min i < Rlist_max i ->
  exists new_data,
    kinetics_from_light_on data = Ok new_data /\ shifted_to_light_on data new_data.
Proof. apply kinetics_from_light_on_props. Qed.

Lemma sample_dict_lengths kw v :
  (kw, v) ∈ sample_dict ->
  length v = if decide (kw = "t0" \/ kw = "alpha")
             then length [0; 10; 20] else length [0; 5; 10; 15].
Proof.
  intros Hin. unfold sample_dict in Hin.
  repeat (apply elem_of_cons in Hin as [[= -> ->]|Hin]); [reflexivity..|].
  by apply elem_of_nil in Hin.
Qed.

Lemma sample_intensity_not_constant : Rlist_min [0; 0; 1; 1] < Rlist_max [0; 0; 1; 1].
Proof.
  apply Rlt_le_trans with 1.
  - apply Rle_lt_trans with 0; [apply Rlist_min_le; by left | lra].
  - apply Rlist_max_ge. do 2 right. by left.
Qed.

Lemma kinetics_from_light_on_aligned_witness :
  exists new_data,
    kinetics_from_light_on sample_dict = Ok new_data
    /\ shifted_to_light_on sample_dict new_data.
Proof.
  apply (kinetics_from_light_on_aligned sample_dict [0; 10; 20] [1; 2; 3]
           [0; 5; 10; 15] [0; 0; 1; 1]); try reflexivity.
  - exact sample_dict_lengths.
  - exact sample_intensity_not_constant.
Defined.

End LightOnFacts.

Section LightOnComposition.
Local Open Scope R_scope.

Variable polyfit : list R -> list R -> Res R.
Variable gaussian_filter1d : list R -> Z -> list R.

Lemma rescaled_not_constant (l : list R) :
  Rlist_min l < Rlist_max l ->
  Rlist_min (rescale_intensity l) < Rlist_max (rescale_intensity l).
Proof.
  intros Hlt. destruct (rescale_intensity_props l Hlt) as (_ & _ & H0 & H1).
  apply Rlt_le_trans with 1; [|by apply Rlist_max_ge].
  apply Rle_lt_trans with 0; [by apply Rlist_min_le | lra].
Qed.

(** X11.  [kinetics_from_light_on] accepts what [plot_kinetics] returns: when
    [fps] is not 0 and the light intensity that [tlim] keeps is not
    constant, it returns the dict shifted to the light-on time. *)
Theorem kinetics_from_light_on_of_plot_kinetics
    k_data i_data tlim xlim lb seg_length fps data k_kept i_kept :
  (fps <> 0)%Z ->
  plot_kinetics_apply_tlim k_data i_data tlim seg_length fps = Ok (k_kept, i_kept) ->
  plot_kinetics polyfit k_data i_data tlim xlim lb seg_length fps = Ok data ->
  Rlist_min (map col_intensity i_kept) < Rlist_max (map col_intensity i_kept) ->
  exists new_data,
    kinetics_from_light_on data = Ok new_data /\ shifted_to_light_on data new_data.
Proof.
  intros _ Hsel Hplot Hlt.
  destruct (plot_kinetics_value polyfit _ _ _ _ _ _ _ _ _ _ Hsel Hplot) as (alpha & -> & Hla).
  eapply kinetics_from_light_on_props; try reflexivity.
  - intros kw v Hin.
    repeat (apply elem_of_cons in Hin as [[= -> ->]|Hin]);
      [ | | |  | by apply elem_of_nil in Hin].
    + by rewrite decide_True by (by left).
    + rewrite decide_True by (by right). by rewrite Hla, length_map.
    + by rewrite decide_False by (intros [?|?]; done).
    + rewrite decide_False by (intros [?|?]; done).
      unfold rescale_intensity. by rewrite !length_map.
  - by apply rescaled_not_constant.
Qed.

Lemma list_to_map_dict_get (d : pydict) key :
  (list_to_map d : gmap string (list R)) !! key = dict_get key d.
Proof.
  induction d as [|[k v] d IH]; [done|].
  cbn [list_to_map foldr dict_get]. simpl.
  destruct (decide (k = key)) as [->|Hne].
  - by rewrite lookup_insert_eq.
  - by rewrite lookup_insert_ne.
Qed.

(** X12.  The dict of [plot_kinetics] has no ['t2']: passed to
    [kinetics_eo_smooth], which its docstring allows, it raises
    [KeyError] for ['t2']. *)
Theorem kinetics_eo_smooth_of_plot_kinetics
    k_data i_data tlim xlim lb seg_length fps data :
  plot_kinetics polyfit k_data i_data tlim xlim lb seg_length fps = Ok data ->
  kinetics_eo_smooth gaussian_filter1d (list_to_map data) = Raise (KeyError "t2").
Proof.
  intros Hplot. pose proof Hplot as H'. unfold plot_kinetics in H'.
  apply bind_Ok in H' as ([k_kept i_kept] & Hsel & _).
  destruct (plot_kinetics_value polyfit _ _ _ _ _ _ _ _ _ _ Hsel Hplot) as (alpha & -> & _).
  unfold kinetics_eo_smooth, getitem.
  rewrite !smooth_loop_lookup, !list_to_map_dict_get. reflexivity.
Qed.

End LightOnComposition.

Lemma kinetics_from_light_on_of_plot_kinetics_witness :
  exists new_data,
    kinetics_from_light_on
      [("t0", [IZR ((1 - 1) * 100) / IZR 10; IZR ((2 - 1) * 100) / IZR 10]);
       ("alpha", [1; 1]);
       ("t1", [0 / IZR 10; 100 / IZR 10; 200 / IZR 10]);
       ("i", rescale_intensity [3; 7; 5])]%R = Ok new_data
    /\ shifted_to_light_on
         [("t0", [IZR ((1 - 1) * 100) / IZR 10; IZR ((2 - 1) * 100) / IZR 10]);
          ("alpha", [1; 1]);
          ("t1", [0 / IZR 10; 100 / IZR 10; 200 / IZR 10]);
          ("i", rescale_intensity [3; 7; 5])]%R new_data.
Proof.
  apply (kinetics_from_light_on_of_plot_kinetics unit_slope sample_k_data sample_i_data
           (LimList [0; 25]%R) LimNone 10 100 10 _ _ _ ltac:(lia)
           sample_plot_kinetics_tlim sample_plot_kinetics).
  simpl. apply Rlt_le_trans with 7%R.
  - apply Rle_lt_trans with 3%R; [apply Rlist_min_le; by left | lra].
  - apply Rlist_max_ge. right. by left.
Defined.

Lemma kinetics_eo_smooth_of_plot_kinetics_witness :
  kinetics_eo_smooth pair_average
    (list_to_map
       [("t0", [IZR ((1 - 1) * 100) / IZR 10; IZR ((2 - 1) * 100) / IZR 10]);
        ("alpha", [1; 1]);
        ("t1", [0 / IZR 10; 100 / IZR 10; 200 / IZR 10]);
        ("i", rescale_intensity [3; 7; 5])]%R)
  = Raise (KeyError "t2").
Proof.
  exact (kinetics_eo_smooth_of_plot_kinetics unit_slope pair_average sample_k_data
           sample_i_data (LimList [0; 25]%R) LimNone 10 100 10 _ sample_plot_kinetics).
Defined.

(* ===================================================================== *)
(** * Properties of [plot_kinetics_eo] and [kinetics_eo_from_light_on] *)
(* ===================================================================== *)

Section LightOnEoFacts.
Local Open Scope R_scope.

Lemma dict_get_NoDup (d : pydict) kw v :
  NoDup (map fst d) -> (kw, v) ∈ d -> dict_get kw d = Some v.
Proof.
  induction d as [|[k w] d IH]; intros Hnd Hin; [by apply elem_of_nil in Hin|].
  simpl in *. apply NoDup_cons in Hnd as [Hnot Hnd].
  apply elem_of_cons in Hin as [[= -> ->]|Hin].
  - by rewrite decide_True.
  - rewrite decide_False; [by apply IH|].
    intros ->. apply Hnot. apply list_elem_of_fmap. by exists (kw, v).
Qed.

Lemma light_on_loop_eo_value data lot kws t0 t1 t2 :
  NoDup (map fst data) ->
  dict_get "t0" data = Some t0 ->
  dict_get "t1" data = Some t1 ->
  dict_get "t2" data = Some t2 ->
  (forall kw v, (kw, v) ∈ kws -> (kw, v) ∈ data) ->
  (forall kw v, (kw, v) ∈ kws ->
     ~ (kw = "t0" \/ kw = "t1" \/ kw = "t2") ->
     length v = if decide (kw = "alpha") then length t0
                else if decide (kw = "i") then length t1 else length t2) ->
  light_on_loop_eo data lot kws
  = Ok (map (fun kv => (fst kv, light_on_value_eo t0 t1 t2 lot (fst kv) (snd kv))) kws).
Proof.
  intros Hnd Ht0 Ht1 Ht2. induction kws as [|[kw v] kws IH]; intros Hsub Hlen; [done|].
  cbn [light_on_loop_eo].
  rewrite !(dict_getitem_Some _ _ _ Ht0), !(dict_getitem_Some _ _ _ Ht1),
    !(dict_getitem_Some _ _ _ Ht2).
  rewrite (dict_getitem_Some data kw v)
    by (apply dict_get_NoDup; [done | apply Hsub; by left]).
  cbn [bind].
  rewrite IH; [ | intros kw' v' Hin; apply Hsub; by right
                | intros kw' v' Hin; apply Hlen; by right ].
  unfold light_on_value_eo. cbn [map fst snd].
  destruct (decide (kw = "t0" \/ kw = "t1" \/ kw = "t2")) as [Ht|Hnt].
  { by rewrite mask_select_ok. }
  pose proof (Hlen kw v ltac:(by left) Hnt) as Hv.
  destruct (decide (kw = "alpha")); [by rewrite mask_select_ok|].
  destruct (decide (kw = "i")); by rewrite mask_select_ok.
Qed.

Lemma kinetics_eo_from_light_on_props data t0 alpha t1 i t2 E OP :
  NoDup (map fst data) ->
  dict_get "t0" data = Some t0 ->
  dict_get "alpha" data = Some alpha ->
  dict_get "t1" data = Some t1 ->
  dict_get "i" data = Some i ->
  dict_get "t2" data = Some t2 ->
  dict_get "E" data = Some E ->
  dict_get "OP" data = Some OP ->
  (forall kw v, (kw, v) ∈ data ->
     ~ (kw = "t0" \/ kw = "t1" \/ kw = "t2") ->
     length v = if decide (kw = "alpha") then length t0
                else if decide (kw = "i") then length t1 else length t2) ->
  Rlist_min i < Rlist_max i ->
  exists new_data,
    kinetics_eo_from_light_on data = Ok new_data
    /\ shifted_to_light_on_eo data new_data.
Proof.
  intros Hnd Ht0 Ha Ht1 Hi Ht2 HE HOP Hlen Hlt.
  destruct (light_on_index_Some i Hlt) as (ind & v & Hind & Hv & _).
  assert (Hla : length alpha = length t0).
  { by rewrite (Hlen "alpha" alpha) by (by apply dict_get_elem || intros [?|[?|?]]; done). }
  assert (Hli : length i = length t1).
  { by rewrite (Hlen "i" i) by (by apply dict_get_elem || intros [?|[?|?]]; done). }
  assert (HlE : length E = length t2).
  { by rewrite (Hlen "E" E) by (by apply dict_get_elem || intros [?|[?|?]]; done). }
  assert (HlO : length OP = length t2).
  { by rewrite (Hlen "OP" OP) by (by apply dict_get_elem || intros [?|[?|?]]; done). }
  destruct (lookup_lt_is_Some_2 t1 ind) as [lot Hlot].
  { rewrite <- Hli. by apply lookup_lt_Some in Hv. }
  exists (map (fun kv => (fst kv, light_on_value_eo t0 t1 t2 lot (fst kv) (snd kv))) data).
  split.
  { unfold kinetics_eo_from_light_on.
    rewrite (dict_getitem_Some _ _ _ Hi). cbn [bind]. rewrite Hind.
    rewrite (dict_getitem_Some _ _ _ Ht1). cbn [bind]. rewrite Hlot.
    rewrite (light_on_loop_eo_value data lot data t0 t1 t2) by done. cbn [bind].
    unfold dict_getitem. rewrite !dict_get_map, Ht0, Ha, Ht2, HE, HOP. reflexivity. }
  split.
  - eexists _, _, _, _.
    split; [by rewrite map_map, (map_ext _ fst)|].
    rewrite !dict_get_map, Ht0, Ha, Ht1, Hi. unfold light_on_value_eo. simpl.
    do 4 (split; [reflexivity|]).
    rewrite !mask_keep_self, !length_map. rewrite !mask_keep_length by done.
    split; [done|]. split; [done|]. split.
    + intros x Hx. apply elem_of_app in Hx as [Hx|Hx];
        apply list_elem_of_fmap in Hx as (y & -> & Hy);
        apply list_elem_of_filter in Hy as [Hy _]; lra.
    + apply list_elem_of_fmap. exists lot. split; [lra|].
      apply list_elem_of_filter. split; [lra|].
      by apply list_elem_of_lookup_2 in Hlot.
  - eexists _, _, _.
    rewrite !dict_get_map, Ht2, HE, HOP. unfold light_on_value_eo. simpl.
    do 3 (split; [reflexivity|]).
    rewrite !mask_keep_self, !length_map. rewrite !mask_keep_length by done.
    split; [done|]. split; [done|].
    intros x Hx. apply list_elem_of_fmap in Hx as (y & -> & Hy).
    apply list_elem_of_filter in Hy as [Hy _]. lra.
Qed.

(** X13.  On a dict with unique keys whose arrays are aligned (['alpha'] with
    ['t0'], ['i'] with ['t1'], every entry that is not a time with
    ['t2']) and whose intensity is not constant,
    [kinetics_eo_from_light_on] returns; it keeps the keys and their
    order, the light-on time becomes time 0 of ['t1'], no returned time
    is negative, and the arrays stay aligned. *)
Theorem kinetics_eo_from_light_on_aligned data t0 alpha t1 i t2 E OP :
  NoDup (map fst data) ->
  dict_get "t0" data = Some t0 ->
  dict_get "alpha" data = Some alpha ->
  dict_get "t1" data = Some t1 ->
  dict_get "i" data = Some i ->
  dict_get "t2" data = Some t2 ->
  dict_get "E" data = Some E ->
  dict_get "OP" data = Some OP ->
  (forall kw v, (kw, v) ∈ data ->
     ~ (kw = "t0" \/ kw = "t1" \/ kw = "t2") ->
     length v = if decide (kw = "alpha") then length t0
                else if decide (kw = "i") then length t1 else length t2) ->
  Rlist_min i < Rlist_max i ->
  exists new_data,
    kinetics_eo_from_light_on data = Ok new_data
    /\ shifted_to_light_on_eo data new_data.
Proof. apply kinetics_eo_from_light_on_props. Qed.

Lemma sample_dict_eo_lengths kw v :
  (kw, v) ∈ sample_dict_eo ->
  ~ (kw = "t0" \/ kw = "t1" \/ kw = "t2") ->
  length v = if decide (kw = "alpha") then length [0; 10; 20]
             else if decide (kw = "i") then length [0; 5; 10; 15] else length [0; 10].
Proof.
  intros Hin Hnt. unfold sample_dict_eo in Hin.
  repeat (apply elem_of_cons in Hin as [[= -> ->]|Hin]);
    [ first [reflexivity | exfalso; apply Hnt; auto].. | by apply elem_of_nil in Hin ].
Qed.

Lemma kinetics_eo_from_light_on_aligned_witness :
  exists new_data,
    kinetics_eo_from_light_on sample_dict_eo = Ok new_data
    /\ shifted_to_light_on_eo sample_dict_eo new_data.
Proof.
  apply (kinetics_eo_from_light_on_aligned sample_dict_eo [0; 10; 20] [1; 2; 3]
           [0; 5; 10; 15] [0; 0; 1; 1] [0; 10] [3; 4] [1; 2]); try reflexivity.
  - apply (bool_decide_unpack _). vm_compute. reflexivity.
  - exact sample_dict_eo_lengths.
  - exact sample_intensity_not_constant.
Defined.

End LightOnEoFacts.

Section KineticsEoPipeline.
Local Open Scope R_scope.

Variable polyfit : list R -> list R -> Res R.
Variable gaussian_filter1d : list R -> Z -> list R.

Lemma plot_kinetics_eo_value
    k_data i_data eo_data tlim xlim lb seg_length fps data k_kept i_kept eo_kept :
  plot_kinetics_eo_apply_tlim k_data i_data eo_data tlim seg_length fps
    = Ok (k_kept, i_kept, eo_kept) ->
  plot_kinetics_eo polyfit k_data i_data eo_data tlim xlim lb seg_length fps = Ok data ->
  exists alpha,
    data = [("t0", map (fun idx => IZR ((idx - 1) * seg_length) / IZR fps)
                       (drop_duplicates (map col_segment k_kept)));
            ("alpha", alpha);
            ("t1", map (fun r => col_t r / IZR fps) i_kept);
            ("i", rescale_intensity (map col_intensity i_kept));
            ("t2", map eo_t eo_kept); ("E", map eo_E eo_kept); ("OP", map eo_OP eo_kept)]
    /\ length alpha = length (drop_duplicates (map col_segment k_kept)).
Proof.
  intros Hsel H. unfold plot_kinetics_eo in H. rewrite Hsel in H. cbn [bind fst snd] in H.
  apply bind_Ok in H as ([t power] & Hfit & H).
  apply Ok_inj in H as <-. cbn [fst snd].
  apply plot_kinetics_fit_value in Hfit as [-> Hlen]. by exists power.
Qed.

(** X14.  The documented chain [plot_kinetics_eo], [kinetics_eo_from_light_on],
    [kinetics_eo_smooth] goes through whenever [plot_kinetics_eo] returns,
    [fps] is not 0 and the light intensity that [tlim] keeps is not
    constant; the three
    time arrays of the smoothed dict are those of the shifted dict. *)
Theorem kinetics_eo_chain
    k_data i_data eo_data tlim xlim lb seg_length fps data k_kept i_kept eo_kept :
  (fps <> 0)%Z ->
  plot_kinetics_eo_apply_tlim k_data i_data eo_data tlim seg_length fps
    = Ok (k_kept, i_kept, eo_kept) ->
  plot_kinetics_eo polyfit k_data i_data eo_data tlim xlim lb seg_length fps = Ok data ->
  Rlist_min (map col_intensity i_kept) < Rlist_max (map col_intensity i_kept) ->
  exists shifted smoothed,
    kinetics_eo_from_light_on data = Ok shifted
    /\ shifted_to_light_on_eo data shifted
    /\ kinetics_eo_smooth gaussian_filter1d (list_to_map shifted) = Ok smoothed
    /\ forall key, key ∈ ["t0"; "t1"; "t2"] -> smoothed !! key = dict_get key shifted.
Proof.
  intros _ Hsel Hplot Hlt.
  destruct (plot_kinetics_eo_value _ _ _ _ _ _ _ _ _ _ _ _ Hsel Hplot) as (alpha & -> & Hla).
  match goal with
  | |- context [kinetics_eo_from_light_on ?d] =>
      edestruct (kinetics_eo_from_light_on_props d) as (shifted & Hshift & Hprops);
        [ | reflexivity.. | | | ]
  end.
  { apply (bool_decide_unpack _). vm_compute. reflexivity. }
  { intros kw v Hin Hnt.
    repeat (apply elem_of_cons in Hin as [[= -> ->]|Hin]);
      [ | | | | | | | by apply elem_of_nil in Hin ];
      try (exfalso; apply Hnt; auto; fail).
    - rewrite decide_True by done. by rewrite Hla, length_map.
    - rewrite decide_False by done. rewrite decide_True by done.
      unfold rescale_intensity. by rewrite !length_map.
    - rewrite !decide_False by done. by rewrite !length_map.
    - rewrite !decide_False by done. by rewrite !length_map. }
  { apply rescaled_not_constant, Hlt. }
  exists shifted, (smooth_loop gaussian_filter1d (list_to_map shifted)).
  split; [exact Hshift|]. split; [exact Hprops|].
  destruct Hprops as [(nt0 & na & nt1 & ni & _ & Hg0 & Hga & Hg1 & _)
                        (nt2 & nE & nOP & Hg2 & HgE & HgO & _)].
  split.
  - unfold kinetics_eo_smooth, getitem.
    rewrite !smooth_loop_lookup, !list_to_map_dict_get, Hg0, Hga, Hg2, HgE, HgO.
    reflexivity.
  - intros key Hkey. rewrite smooth_loop_lookup, list_to_map_dict_get.
    repeat (apply elem_of_cons in Hkey as [->|Hkey]);
      [ rewrite Hg0 | rewrite Hg1 | rewrite Hg2 | by apply elem_of_nil in Hkey ];
      reflexivity.
Qed.

End KineticsEoPipeline.

Section KineticsEoExample.
Local Open Scope R_scope.

Lemma sample_plot_kinetics_eo_tlim :
  plot_kinetics_eo_apply_tlim sample_k_data sample_i_data sample_eo_data
    (LimList [0; 25]) 100 10
  = Ok ([GnfRow 25 10 1; GnfRow 36 18 1; GnfRow 25 12 2; GnfRow 36 27 2],
        [IRow 0 3; IRow 100 7; IRow 200 5],
        [EoRow 0 3 1; EoRow 10 4 2]).
Proof.
  unfold plot_kinetics_eo_apply_tlim, sample_k_data, sample_i_data, sample_eo_data.
  rewrite decide_True by lra. f_equal. f_equal; [f_equal|]; eval_filter; reflexivity.
Qed.

Lemma sample_plot_kinetics_eo :
  plot_kinetics_eo unit_slope sample_k_data sample_i_data sample_eo_data
    (LimList [0; 25]) LimNone 10 100 10
  = Ok [("t0", [IZR ((1 - 1) * 100) / IZR 10; IZR ((2 - 1) * 100) / IZR 10]);
        ("alpha", [1; 1]);
        ("t1", [0 / IZR 10; 100 / IZR 10; 200 / IZR 10]);
        ("i", rescale_intensity [3; 7; 5]);
        ("t2", [0; 10]); ("E", [3; 4]); ("OP", [1; 2])].
Proof.
  unfold plot_kinetics_eo. rewrite sample_plot_kinetics_eo_tlim. reflexivity.
Qed.

Lemma kinetics_eo_chain_witness :
  exists shifted smoothed,
    kinetics_eo_from_light_on
      [("t0", [IZR ((1 - 1) * 100) / IZR 10; IZR ((2 - 1) * 100) / IZR 10]);
       ("alpha", [1; 1]);
       ("t1", [0 / IZR 10; 100 / IZR 10; 200 / IZR 10]);
       ("i", rescale_intensity [3; 7; 5]);
       ("t2", [0; 10]); ("E", [3; 4]); ("OP", [1; 2])] = Ok shifted
    /\ shifted_to_light_on_eo
         [("t0", [IZR ((1 - 1) * 100) / IZR 10; IZR ((2 - 1) * 100) / IZR 10]);
          ("alpha", [1; 1]);
          ("t1", [0 / IZR 10; 100 / IZR 10; 200 / IZR 10]);
          ("i", rescale_intensity [3; 7; 5]);
          ("t2", [0; 10]); ("E", [3; 4]); ("OP", [1; 2])] shifted
    /\ kinetics_eo_smooth pair_average (list_to_map shifted) = Ok smoothed
    /\ forall key, key ∈ ["t0"; "t1"; "t2"] -> smoothed !! key = dict_get key shifted.
Proof.
  apply (kinetics_eo_chain unit_slope pair_average sample_k_data sample_i_data
           sample_eo_data (LimList [0; 25]) LimNone 10 100 10 _ _ _ _ ltac:(lia)
           sample_plot_kinetics_eo_tlim sample_plot_kinetics_eo).
  simpl. apply Rlt_le_trans with 7.
  - apply Rle_lt_trans with 3; [apply Rlist_min_le; by left | lra].
  - apply Rlist_max_ge. right. by left.
Defined.

End KineticsEoExample.

(* ===================================================================== *)
(** * Properties of [xy_to_r], [corr_length] and [exp] *)
(* ===================================================================== *)

Section XyToRFacts.
Local Open Scope R_scope.

(** X15.  On a non-empty table [xy_to_r] returns one row per input row, with
    [X], [Y] and the correlation unchanged; [R] is the distance to the
    first row, so it is never negative and it is 0 in the first row. *)
Theorem xy_to_r_distance first rest :
  exists corr_r,
    xy_to_r (first :: rest) = Ok corr_r
    /\ map (fun r => XYRow (xyr_X r) (xyr_Y r) (xyr_corr r)) corr_r = first :: rest
    /\ (forall r, r ∈ corr_r ->
          0 <= xyr_R r
          /\ xyr_R r * xyr_R r
             = (xyr_X r - col_X first) ^ 2 + (xyr_Y r - col_Y first) ^ 2)
    /\ xyr_R <$> head corr_r = Some 0.
Proof.
  eexists. split; [reflexivity|]. split; [|split].
  - rewrite map_map. cbn [xyr_X xyr_Y xyr_corr].
    rewrite <- (map_id (first :: rest)) at 2. apply map_ext. by intros [].
  - intros r Hr. apply list_elem_of_fmap in Hr as (r' & -> & _). cbn [xyr_R xyr_X xyr_Y].
    split; [apply sqrt_pos|]. apply sqrt_sqrt.
    apply Rplus_le_le_0_compat; apply pow2_ge_0.
  - cbn [map head fmap option_fmap option_map xyr_R]. f_equal.
    replace ((col_X first - col_X first) ^ 2 + (col_Y first - col_Y first) ^ 2) with 0 by ring.
    apply sqrt_0.
Qed.


End XyToRFacts.

Section CorrLengthFacts.
Local Open Scope R_scope.

Variable curve_fit : list R -> list R -> Res R.

(** X17.  The value [cl] that [corr_length] returns is the distance at which
    the fitted [exp] has dropped from 1 (at distance 0) to [1/e]. *)
Theorem corr_length_e_folding data fitting_range cl a :
  corr_length curve_fit data fitting_range = Ok (cl, a) ->
  a <> 0 ->
  Fit.exp 0 a = 1 /\ Fit.exp cl a = / exp 1.
Proof.
  intros H Ha. unfold corr_length in H.
  apply bind_Ok in H as (data' & _ & H).
  apply bind_Ok in H as (a' & _ & H).
  apply Ok_inj in H. injection H as <- <-.
  unfold Fit.exp. split.
  - rewrite Rmult_0_r. apply exp_0.
  - replace (- a' * (1 / a')) with (- 1) by (field; done).
    apply exp_Ropp.
Qed.

End CorrLengthFacts.

Lemma corr_length_e_folding_witness :
  Fit.exp 0 0.05 = 1%R /\ Fit.exp (1 / 0.05) 0.05 = (/ exp 1)%R.
Proof.
  apply (corr_length_e_folding fixed_rate [CorrRow 0 1 20; CorrRow 10 0.5 20] LimNone).
  - reflexivity.
  - lra.
Defined.

(* ===================================================================== *)
(** * Properties of the log name of [div2.py] *)
(* ===================================================================== *)

Section LogNameFacts.

Lemma str_find_range c s : (-1 <= str_find c s < Z.of_nat (String.length s))%Z
                           \/ (str_find c s = -1)%Z.
Proof.
  induction s as [|a s IH]; [by right|].
  cbn [str_find String.length]. destruct (decide (a = c)); [left; lia|].
  destruct (decide (str_find c s < 0)%Z); [by right|]. left. lia.
Qed.

Lemma str_find_absent c s :
  (forall n, String.get n s <> Some c) -> str_find c s = (-1)%Z.
Proof.
  induction s as [|a s IH]; intros Hno; [done|].
  cbn [str_find]. rewrite decide_False by (intros ->; by apply (Hno 0%nat)).
  rewrite IH by (intros n; apply (Hno (S n))). by rewrite decide_True by lia.
Qed.

Lemma str_find_first c pre post :
  (forall n, String.get n pre <> Some c) ->
  str_find c (pre ++ String c post) = Z.of_nat (String.length pre).
Proof.
  induction pre as [|a pre IH]; intros Hno.
  - change (str_find c (String c post) = 0%Z). cbn [str_find].
    by rewrite decide_True.
  - change (str_find c (String a (pre ++ String c post))
            = Z.of_nat (S (String.length pre))).
    cbn [str_find].
    rewrite decide_False by (intros ->; by apply (Hno 0%nat)).
    rewrite IH by (intros n; apply (Hno (S n))).
    rewrite decide_False by lia. lia.
Qed.

Lemma substring_prefix pre post :
  String.substring 0 (String.length pre) (pre ++ post) = pre.
Proof.
  induction pre as [|a pre IH].
  - change (String.substring 0 0 post = EmptyString). by destruct post.
  - change (String a (String.substring 0 (String.length pre) (pre ++ post))
            = String a pre).
    by rewrite IH.
Qed.

Lemma length_append (s1 s2 : string) :
  String.length (s1 ++ s2) = (String.length s1 + String.length s2)%nat.
Proof.
  induction s1 as [|a s1 IH]; [done|].
  change (S (String.length (s1 ++ s2))
          = S (String.length s1 + String.length s2)).
  by rewrite IH.
Qed.

(** X18.  When the file name has a ['-'], the name in the log is what stands
    before the first one. *)
Theorem log_name_before_dash pre post :
  (forall n, String.get n pre <> Some "-"%char) ->
  log_name (pre ++ String "-" post) = pre.
Proof.
  intros Hno. unfold log_name, str_slice_to.
  rewrite str_find_first by done.
  rewrite decide_False by lia.
  rewrite length_append.
  rewrite Z.min_l by lia. rewrite Nat2Z.id. apply substring_prefix.
Qed.

Lemma log_name_before_dash_witness : log_name ("900" ++ String "-" "901.csv") = "900".
Proof.
  apply log_name_before_dash.
  intros [|[|[|n]]]; simpl; discriminate.
Defined.

(** X19.  When the file name has no ['-'], [find] gives -1 and the slice
    [file[0:-1]] drops the last character of the name. *)
Theorem log_name_without_dash file :
  (forall n, String.get n file <> Some "-"%char) ->
  log_name file = String.substring 0 (String.length file - 1) file.
Proof.
  intros Hno. unfold log_name, str_slice_to.
  rewrite str_find_absent by done.
  rewrite decide_True by lia. f_equal. lia.
Qed.

Lemma log_name_without_dash_witness :
  log_name "900.csv" = String.substring 0 (String.length "900.csv" - 1) "900.csv".
Proof.
  apply log_name_without_dash.
  intros [|[|[|[|[|[|[|n]]]]]]]; simpl; discriminate.
Defined.

End LogNameFacts.

(* ===================================================================== *)
(** * Properties of [collapse_data] *)
(* ===================================================================== *)

Section CollapseFacts.
Local Open Scope R_scope.

Lemma slice_step_length {A B : Type} (l1 : list A) (l2 : list B) sparse r1 r2 :
  length l1 = length l2 ->
  slice_step l1 sparse = Ok r1 -> slice_step l2 sparse = Ok r2 ->
  length r1 = length r2.
Proof.
  intros Hlen H1 H2. destruct sparse as [|p|p]; simpl in *; try done.
  - apply Ok_inj in H1 as <-. apply Ok_inj in H2 as <-.
    rewrite !every_nth_length by lia. by rewrite Hlen.
  - apply Ok_inj in H1 as <-. by apply Ok_inj in H2 as <-.
Qed.

Lemma postprocess_gnf_same_length gnf_data lb xlim sparse x y :
  postprocess_gnf gnf_data lb xlim sparse = Ok (x, y) -> length x = length y.
Proof.
  intros H. unfold postprocess_gnf in H.
  apply bind_Ok in H as (data & _ & H).
  apply bind_Ok in H as (y0 & _ & H).
  apply bind_Ok in H as (x' & Hx & H).
  apply bind_Ok in H as (y' & Hy & H).
  apply Ok_inj in H. injection H as <- <-.
  eapply slice_step_length; [|exact Hx|exact Hy]. by rewrite !length_map.
Qed.

(** A key occurs at most once in a table with distinct keys. *)
Lemma filter_key_NoDup (data : list (R * R)) x :
  NoDup (map fst data) ->
  filter (fun p => fst p = x) data
  = match head (filter (fun p => fst p = x) data) with
    | Some p => [p]
    | None => []
    end.
Proof.
  induction data as [|p data IH]; intros Hnd; [done|].
  cbn [map] in Hnd. apply NoDup_cons in Hnd as [Hnot Hnd].
  rewrite filter_cons. destruct (decide (fst p = x)) as [Hp|Hp]; [|by apply IH].
  cbn [head]. f_equal. apply filter_none. intros q Hq Heq.
  apply Hnot. rewrite Hp, <- Heq. apply list_elem_of_fmap. by exists q.
Qed.

Lemma join_left_NoDup data_merge (data : list (R * R)) :
  NoDup (map fst data) ->
  join_left data_merge data
  = map (fun row => (fst row, snd row ++ [lookup_y (fst row) data])) data_merge.
Proof.
  intros Hnd. unfold join_left.
  rewrite (flat_map_ext_in _ (fun row => [(fst row, snd row ++ [lookup_y (fst row) data])])).
  - induction data_merge as [|row dm IH]; [done|]. simpl. by rewrite IH.
  - intros row _. unfold lookup_y, cell in *.
    pose proof (filter_key_NoDup data (fst row) Hnd) as Hf.
    destruct (filter (fun p => fst p = fst row) data) as [|p l]; [done|].
    cbn [head] in Hf. injection Hf as ->. done.
Qed.

Lemma foldl_join_left data_merge (others : list (list (R * R))) :
  Forall (fun data => NoDup (map fst data)) others ->
  foldl join_left data_merge others
  = map (fun row => (fst row, snd row ++ map (lookup_y (fst row)) others)) data_merge.
Proof.
  intros Hall. revert data_merge.
  induction Hall as [|data others Hnd _ IH]; intros data_merge.
  - simpl. rewrite <- (map_id data_merge) at 1. apply map_ext.
    intros [x cs]. simpl. by rewrite app_nil_r.
  - cbn [foldl]. rewrite IH, join_left_NoDup by done. rewrite map_map.
    apply map_ext. intros [x cs]. cbn [fst snd map]. by rewrite <- app_assoc.
Qed.

Lemma collapse_loop_value rest lb xlim sparse xys data_merge :
  Forall2 (fun g xy => postprocess_gnf g lb xlim sparse = Ok xy) rest xys ->
  collapse_loop rest lb xlim sparse data_merge
  = Ok (foldl join_left data_merge (map (fun xy => zip (fst xy) (snd xy)) xys)).
Proof.
  intros H. revert data_merge.
  induction H as [|g xy rest xys Hg _ IH]; intros data_merge; [done|].
  cbn [collapse_loop]. rewrite Hg. cbn [bind]. by rewrite IH.
Qed.

Lemma zip_keys_NoDup (x y : list R) :
  length x = length y -> NoDup x -> NoDup (map fst (zip x y)).
Proof. intros Hlen Hnd. rewrite fst_zip by lia. done. Qed.

(** What [collapse_data] returns when the curves after the first have
    distinct [x]. *)
Lemma collapse_data_value g0 rest lb xlim sparse xy0 xys :
  postprocess_gnf g0 lb xlim sparse = Ok xy0 ->
  Forall2 (fun g xy => postprocess_gnf g lb xlim sparse = Ok xy) rest xys ->
  Forall (fun xy => NoDup (fst xy)) xys ->
  collapse_data (g0 :: rest) lb xlim sparse
  = Ok (map (collapsed_at (map (fun xy => zip (fst xy) (snd xy)) xys))
            (zip (fst xy0) (snd xy0))).
Proof.
  intros H0 Hrest Hnd. unfold collapse_data. rewrite H0. cbn [bind].
  rewrite (collapse_loop_value rest lb xlim sparse xys _ Hrest). cbn [bind].
  rewrite foldl_join_left.
  - rewrite !map_map. f_equal.
  - apply Forall_fmap. apply Forall_forall. intros [x y] Hin. cbn [fst snd].
    rewrite Forall_forall in Hnd. specialize (Hnd _ Hin). cbn [fst] in Hnd.
    apply zip_keys_NoDup; [|done].
    apply list_elem_of_lookup_1 in Hin as [i Hi].
    destruct (Forall2_lookup_r _ _ _ _ _ Hrest Hi) as (g & _ & Hg).
    by apply postprocess_gnf_same_length in Hg.
Qed.

(** X20.  [collapse_data] on curves without division by zero, the curves after
    the first with distinct [x]: the result has one row per point
    [(x, y)] of the first curve, in order; [avg] is the mean of [y] and
    of the values that the other curves have at the same [x], and [std]
    their sample standard deviation (NaN when no other curve has a point
    at [x]).  Points that only later curves have are dropped. *)
Theorem collapse_data_rows g0 rest lb xlim sparse xy0 xys :
  Forall (gnf_regular lb xlim) (g0 :: rest) ->
  postprocess_gnf g0 lb xlim sparse = Ok xy0 ->
  Forall2 (fun g xy => postprocess_gnf g lb xlim sparse = Ok xy) rest xys ->
  Forall (fun xy => NoDup (fst xy)) xys ->
  collapse_data (g0 :: rest) lb xlim sparse
  = Ok (map (collapsed_at (map (fun xy => zip (fst xy) (snd xy)) xys))
            (zip (fst xy0) (snd xy0))).
Proof. intros _. apply collapse_data_value. Qed.

(** ** Copies of one curve *)













End CollapseFacts.

Section CollapseExamples.
Local Open Scope R_scope.

Lemma sample_curve_regular g :
  g ∈ [[GnfRow 25 10 1; GnfRow 36 18 1]; [GnfRow 25 15 1]] -> gnf_regular 1 LimNone g.
Proof.
  intros Hg. split; [lra|].
  repeat (apply elem_of_cons in Hg as [->|Hg]); [ | | by apply elem_of_nil in Hg ].
  - exists (GnfRow 25 10 1), [GnfRow 36 18 1]. split; [done|]. split; [simpl; lra|].
    intros r Hr. repeat (apply elem_of_cons in Hr as [->|Hr]); simpl; try lra.
    by apply elem_of_nil in Hr.
  - exists (GnfRow 25 15 1), []. split; [done|]. split; [simpl; lra|].
    intros r Hr. repeat (apply elem_of_cons in Hr as [->|Hr]); simpl; try lra.
    by apply elem_of_nil in Hr.
Qed.

Lemma collapse_data_rows_witness :
  collapse_data ([GnfRow 25 10 1; GnfRow 36 18 1] :: [[GnfRow 25 15 1]]) 1 LimNone 1
  = Ok (map (collapsed_at
               (map (fun xy => zip (fst xy) (snd xy))
                    [([25 / 1 ^ 2], [15 / sqrt 25 / (15 / sqrt 25)])]))
            (zip (fst ([25 / 1 ^ 2; 36 / 1 ^ 2],
                       [10 / sqrt 25 / (10 / sqrt 25); 18 / sqrt 36 / (10 / sqrt 25)]))
                 (snd ([25 / 1 ^ 2; 36 / 1 ^ 2],
                       [10 / sqrt 25 / (10 / sqrt 25); 18 / sqrt 36 / (10 / sqrt 25)])))).
Proof.
  apply (collapse_data_rows [GnfRow 25 10 1; GnfRow 36 18 1] [[GnfRow 25 15 1]] 1 LimNone 1).
  - apply Forall_forall. exact sample_curve_regular.
  - reflexivity.
  - repeat constructor.
  - repeat constructor. intros H. by apply elem_of_nil in H.
Defined.


End CollapseExamples.

(* ===================================================================== *)
(** * Properties of [plot_correlation] *)
(* ===================================================================== *)

Section SortValuesFacts.
Context {A : Type} (le : A -> A -> Prop) `{!RelDecision le}.

Lemma insert_sorted_perm x (l : list A) : insert_sorted le x l ≡ₚ x :: l.
Proof.
  induction l as [|y l IH]; [done|].
  simpl. destruct (decide (le x y)); [done|].
  rewrite IH. apply Permutation_swap.
Qed.

Lemma sort_values_perm (l : list A) : sort_values le l ≡ₚ l.
Proof.
  induction l as [|x l IH]; [done|].
  simpl. by rewrite insert_sorted_perm, IH.
Qed.

Lemma elem_of_sort_values (l : list A) x : x ∈ sort_values le l <-> x ∈ l.
Proof. by rewrite sort_values_perm. Qed.

Hypothesis le_total : forall x y, le x y \/ le y x.
Hypothesis le_trans : forall x y z, le x y -> le y z -> le x z.

Lemma insert_sorted_sorted x (l : list A) :
  StronglySorted le l -> StronglySorted le (insert_sorted le x l).
Proof.
  induction 1 as [|y l Hs IH Hy]; simpl; [repeat constructor|].
  destruct (decide (le x y)) as [Hxy|Hxy].
  - constructor; [by constructor|]. constructor; [done|].
    eapply Forall_impl; [exact Hy|]. intros z Hz. by apply (le_trans x y z).
  - constructor; [done|].
    apply Forall_forall. intros z Hz.
    rewrite insert_sorted_perm in Hz. apply elem_of_cons in Hz as [->|Hz].
    + by destruct (le_total x y).
    + rewrite Forall_forall in Hy. by apply Hy.
Qed.

Lemma sort_values_sorted (l : list A) : StronglySorted le (sort_values le l).
Proof.
  induction l as [|x l IH]; simpl; [constructor | by apply insert_sorted_sorted].
Qed.

End SortValuesFacts.

Section PlotCorrelationFacts.
Local Open Scope R_scope.

Variable curve_fit : list R -> list R -> Res R.

Lemma plot_correlation_loop_value data num concs cl_data :
  plot_correlation_loop curve_fit data num concs = Ok cl_data ->
  map fst cl_data = concs
  /\ (concs <> [] -> (num + length concs <= 5)%nat)
  /\ forall c cl, (c, cl) ∈ cl_data ->
       exists a,
         curve_fit (map col_R (filter (fun r => col_conc r = c) data))
                   (map col_C (filter (fun r => col_conc r = c) data)) = Ok a
         /\ (a <> 0 -> cl = 1 / a).
Proof.
  revert num cl_data. induction concs as [|nt rest IH]; intros num cl_data H.
  - simpl in H. apply Ok_inj in H as <-. split; [done|]. split; [done|].
    intros c cl Hin. by apply elem_of_nil in Hin.
  - cbn [plot_correlation_loop] in H.
    apply bind_Ok in H as (p & Hp & H).
    apply bind_Ok in H as ([] & Hnum & H).
    apply bind_Ok in H as (more & Hmore & H).
    apply Ok_inj in H as <-.
    destruct (decide (num < 5)%nat) as [Hlt|]; [|done].
    apply IH in Hmore as (Hfst & Hbound & Hcl).
    split; [simpl; by rewrite Hfst|]. split.
    + intros _. destruct rest as [|nt' rest']; [simpl; lia|].
      specialize (Hbound ltac:(done)). simpl in *. lia.
    + intros c cl Hin. apply elem_of_cons in Hin as [[= -> ->]|Hin]; [|by apply Hcl].
      by exists p.
Qed.

Lemma conc_sorted_lt (l : list (Z * R)) :
  StronglySorted conc_le l -> NoDup (map fst l) -> StronglySorted Z.lt (map fst l).
Proof.
  induction 1 as [|a l Hs IH Ha]; intros Hnd; [constructor|].
  cbn [map] in *. apply NoDup_cons in Hnd as [Hnot Hnd].
  constructor; [by apply IH|].
  apply Forall_forall. intros c Hc.
  apply list_elem_of_fmap in Hc as (b & -> & Hb).
  rewrite Forall_forall in Ha. specialize (Ha b Hb). unfold conc_le in Ha.
  assert (fst a <> fst b).
  { intros Heq. apply Hnot. rewrite Heq. apply list_elem_of_fmap. by exists b. }
  lia.
Qed.

(** X22.  Whenever [plot_correlation] returns, its table of correlation
    lengths has at most 5 rows ([symbol_list] has 5 markers), one for
    each distinct concentration of the rows that [xlim] keeps, in
    strictly increasing order of [conc]; the [cl] of a concentration is
    [1 / a] for the rate [a] fitted to the kept rows of that
    concentration, sorted by [R]. *)
Theorem plot_correlation_table data xlim kept cl_table :
  plot_correlation_apply_xlim (sort_values corr_le data) xlim = Ok kept ->
  plot_correlation curve_fit data xlim = Ok cl_table ->
  (length cl_table <= 5)%nat
  /\ StronglySorted Z.lt (map fst cl_table)
  /\ (forall c, c ∈ map fst cl_table <-> c ∈ map col_conc kept)
  /\ forall c cl, (c, cl) ∈ cl_table ->
       exists a,
         curve_fit (map col_R (filter (fun r => col_conc r = c) kept))
                   (map col_C (filter (fun r => col_conc r = c) kept)) = Ok a
         /\ (a <> 0 -> cl = 1 / a).
Proof.
  intros Hsel H. unfold plot_correlation in H. cbv zeta in H. rewrite Hsel in H.
  cbn [bind] in H. apply bind_Ok in H as (cl_data & Hloop & H).
  apply Ok_inj in H as <-.
  apply plot_correlation_loop_value in Hloop as (Hfst & Hbound & Hcl).
  assert (Hperm : map fst (sort_values conc_le cl_data) ≡ₚ drop_duplicates (map col_conc kept)).
  { rewrite <- Hfst. apply fmap_Permutation, sort_values_perm. }
  split; [|split; [|split]].
  - rewrite <- (length_map fst), Hperm.
    destruct (drop_duplicates (map col_conc kept)) as [|c l] eqn:E; [simpl; lia|].
    specialize (Hbound ltac:(done)). simpl in *. lia.
  - apply conc_sorted_lt.
    + apply sort_values_sorted; unfold conc_le; intros; lia.
    + rewrite Hperm. apply NoDup_drop_duplicates.
  - intros c. by rewrite Hperm, elem_of_drop_duplicates.
  - intros c cl Hin. apply Hcl. by rewrite elem_of_sort_values in Hin.
Qed.

End PlotCorrelationFacts.

Section PlotCorrelationExample.
Local Open Scope R_scope.

Lemma sample_corr_sorted :
  sort_values corr_le [CorrRow 10 0.5 40; CorrRow 0 1 20]
  = [CorrRow 0 1 20; CorrRow 10 0.5 40].
Proof.
  unfold sort_values. cbn [foldr insert_sorted].
  rewrite decide_False; [done|].
  unfold corr_le. simpl. intros [H|[H _]]; lra.
Qed.

Lemma sample_plot_correlation :
  plot_correlation fixed_rate [CorrRow 10 0.5 40; CorrRow 0 1 20] LimNone
  = Ok [(20%Z, 1 / 0.05); (40%Z, 1 / 0.05)].
Proof. unfold plot_correlation. rewrite sample_corr_sorted. reflexivity. Qed.

Lemma plot_correlation_table_witness :
  (length [(20%Z, (1 / 0.05)%R); (40%Z, (1 / 0.05)%R)] <= 5)%nat
  /\ StronglySorted Z.lt (map fst [(20%Z, 1 / 0.05); (40%Z, 1 / 0.05)])
  /\ (forall c, c ∈ map fst [(20%Z, 1 / 0.05); (40%Z, 1 / 0.05)]
                <-> c ∈ map col_conc [CorrRow 0 1 20; CorrRow 10 0.5 40])
  /\ forall c cl, (c, cl) ∈ [(20%Z, 1 / 0.05); (40%Z, 1 / 0.05)] ->
       exists a,
         fixed_rate
           (map col_R (filter (fun r => col_conc r = c) [CorrRow 0 1 20; CorrRow 10 0.5 40]))
           (map col_C (filter (fun r => col_conc r = c) [CorrRow 0 1 20; CorrRow 10 0.5 40]))
         = Ok a
         /\ (a <> 0 -> cl = 1 / a).
Proof.
  apply (plot_correlation_table fixed_rate [CorrRow 10 0.5 40; CorrRow 0 1 20] LimNone).
  - by rewrite sample_corr_sorted.
  - exact sample_plot_correlation.
Defined.

End PlotCorrelationExample.

(* ===================================================================== *)
(** * Further properties of [average_data] *)
(* ===================================================================== *)

Section AverageDataMore.
Local Open Scope R_scope.

(** ** A file without a requested column *)

Lemma check_labels_missing cpre label cpost f :
  (forall l, l ∈ cpre -> l ∈ df_labels f) ->
  label ∉ df_labels f ->
  check_labels (cpre ++ label :: cpost) f
  = Raise (IndexError ("Column '" +:+ label +:+ "' does not exist in given data")).
Proof.
  induction cpre as [|l cpre IH]; intros Hpre Hmiss.
  - simpl. by rewrite decide_False.
  - simpl. rewrite decide_True by (apply Hpre; by left).
    apply IH; [|done]. intros l' Hl'. apply Hpre. by right.
Qed.

Lemma average_loop_raise pre f post columns k st e :
  (forall g, g ∈ pre -> forall l, l ∈ columns -> l ∈ df_labels g) ->
  check_labels columns f = Raise e ->
  average_loop (pre ++ f :: post) columns k st = Raise e.
Proof.
  revert k st. induction pre as [|g pre IH]; intros k st Hpre Hf.
  - simpl. by rewrite Hf.
  - simpl. rewrite check_labels_ok by (apply Hpre; by left). cbn [bind].
    apply IH; [|done]. intros g' Hg'. apply Hpre. by right.
Qed.

(** X23.  When a file of the directory lacks a requested column, and the files
    before it have them all, [average_data] raises [IndexError] naming
    the first requested column that the file lacks. *)
Theorem average_data_missing_column pre f post cpre label cpost :
  (forall g, g ∈ pre -> forall l, l ∈ cpre ++ label :: cpost -> l ∈ df_labels g) ->
  (forall l, l ∈ cpre -> l ∈ df_labels f) ->
  label ∉ df_labels f ->
  average_data (pre ++ f :: post) (cpre ++ label :: cpost)
  = Raise (IndexError ("Column '" +:+ label +:+ "' does not exist in given data")).
Proof.
  intros Hpre Hcpre Hmiss. unfold average_data.
  rewrite (average_loop_raise pre f post _ 0 None _ Hpre
             (check_labels_missing cpre label cpost f Hcpre Hmiss)).
  reflexivity.
Qed.

Lemma average_data_missing_column_witness :
  average_data ([sample_csv] ++ {| df_len := 1; df_cols := [("R", [Some 4]); ("CA", [Some 6])] |}
                  :: [sample_csv_2])
               (["CA"] ++ "CV" :: [])
  = Raise (IndexError ("Column '" +:+ "CV" +:+ "' does not exist in given data")).
Proof.
  apply average_data_missing_column.
  - intros g Hg l Hl. apply list_elem_of_singleton in Hg as ->.
    simpl in Hl. solve_label_in Hl.
  - intros l Hl. solve_label_in Hl.
  - apply (bool_decide_unpack _). vm_compute. reflexivity.
Defined.

(** ** The averaged cells *)

Lemma assoc_map_key (g : string -> list cell -> list cell) label cols :
  assoc label (map (fun lc => (fst lc, g (fst lc) (snd lc))) cols)
  = g label <$> assoc label cols.
Proof.
  induction cols as [|[l c] cols IH]; [done|].
  simpl. destruct (decide (l = label)) as [->|]; [done | exact IH].
Qed.

Lemma foldl_iadd_column columns label temp rest c :
  label ∈ columns ->
  assoc label (df_cols temp) = Some c ->
  assoc label (df_cols (foldl (fun t f => df_iadd t (df_select columns f)) temp rest))
  = Some (foldl (fun c f => col_iadd c (default [] (df_column label f))) c rest).
Proof.
  intros Hl. revert temp c. induction rest as [|f rest IH]; intros temp c Hc; [done|].
  cbn [foldl]. apply IH. unfold df_iadd. cbn [df_cols].
  rewrite (assoc_map_key (fun l c' => col_iadd c' (default [] (df_column l (df_select columns f))))).
  rewrite Hc. cbn [fmap option_fmap option_map]. do 2 f_equal.
  unfold df_column at 1. by rewrite assoc_select.
Qed.

Lemma col_iadd_length c other : length (col_iadd c other) = length c.
Proof.
  revert other. induction c as [|a c IH]; intros other; [done|].
  destruct other; simpl; by rewrite IH.
Qed.

Lemma col_iadd_lookup c other i a :
  c !! i = Some a ->
  col_iadd c other !! i
  = Some (cell_add a (match other !! i with Some b => b | None => None end)).
Proof.
  revert other i. induction c as [|a' c IH]; intros other i Hi; [done|].
  destruct i as [|i].
  - simpl in Hi. injection Hi as ->. destruct other as [|b other]; simpl; [|done].
    by destruct a.
  - simpl in Hi. destruct other as [|b other]; simpl.
    + rewrite (IH [] i Hi). simpl. done.
    + by apply IH.
Qed.

Lemma foldl_col_iadd_lookup label (rest : list DataFrame) c i a :
  c !! i = Some a ->
  foldl (fun c f => col_iadd c (default [] (df_column label f))) c rest !! i
  = Some (foldl cell_add a (map (cell_at label i) rest)).
Proof.
  revert c a. induction rest as [|f rest IH]; intros c a Hi; [done|].
  cbn [foldl map]. apply IH. rewrite (col_iadd_lookup _ _ _ _ Hi). do 2 f_equal.
  unfold cell_at. by destruct (df_column label f) as [c'|].
Qed.

Lemma foldl_cell_add a (bs : list cell) :
  foldl cell_add a bs
  = match a, all_values bs with
    | Some x, Some ys => Some (x + Rsum ys)
    | _, _ => None
    end.
Proof.
  revert a. induction bs as [|b bs IH]; intros a.
  - simpl. destruct a; [f_equal; lra | done].
  - cbn [foldl all_values]. rewrite IH.
    destruct a as [x|], b as [y|]; cbn [cell_add]; try done.
    destruct (all_values bs) as [ys|]; cbn [fmap option_fmap option_map]; [|done].
    f_equal. unfold Rsum. simpl. lra.
Qed.

Lemma all_values_length cs xs : all_values cs = Some xs -> length xs = length cs.
Proof.
  revert xs. induction cs as [|[x|] cs IH]; intros xs H; simpl in H.
  - by injection H as <-.
  - destruct (all_values cs) as [ys|]; simpl in H; [|done].
    injection H as <-. simpl. by rewrite (IH ys).
  - done.
Qed.

Lemma cells_mean_foldl a (bs : list cell) :
  (fun x => x / INR (S (length bs))) <$> foldl cell_add a bs = cells_mean (a :: bs).
Proof.
  rewrite foldl_cell_add. unfold cells_mean. cbn [all_values].
  destruct a as [x|]; [|done].
  destruct (all_values bs) as [ys|] eqn:E; [|done].
  cbn [fmap option_fmap option_map]. f_equal. unfold mean. cbn [length].
  rewrite (all_values_length _ _ E). unfold Rsum. simpl. done.
Qed.

Lemma col_pad_lookup m (c : list cell) i a : c !! i = Some a -> col_pad m c !! i = Some a.
Proof. intros H. unfold col_pad. by apply lookup_app_l_Some. Qed.

(** X24.  When every file has the requested columns (distinct labels), each
    cell of a requested column of the result, at a row of the first file, is the arithmetic
    mean of the cells of that column and row over all files; it is NaN as
    soon as one file has NaN there or lacks the row. *)
Theorem average_data_mean first rest columns label i :
  NoDup columns ->
  (forall f, f ∈ first :: rest -> forall l, l ∈ columns -> l ∈ df_labels f) ->
  label ∈ columns ->
  df_wf first ->
  (i < df_len first)%nat ->
  exists averaged c,
    average_data (first :: rest) columns = Ok averaged
    /\ df_column label averaged = Some c
    /\ c !! i = Some (cells_mean (map (cell_at label i) (first :: rest))).
Proof.
  intros _ Hall Hl Hwf Hi.
  destruct (assoc_is_Some label (df_cols first)) as [c0 Hc0].
  { apply (Hall first); [by left | done]. }
  assert (Hlen : length c0 = df_len first) by (by apply (wf_column_length first label)).
  destruct (lookup_lt_is_Some_2 c0 i) as [a Ha]; [lia|].
  eexists _, _. split; [by apply average_data_cons|].
  rewrite df_column_concat. unfold df_div at 2. cbn [df_cols].
  rewrite (assoc_map_snd (map (fun a : cell => (fun x => x / INR (S (length rest))) <$> a))).
  rewrite (foldl_iadd_column columns label _ rest c0 Hl)
    by (by rewrite assoc_select).
  cbn [fmap option_fmap option_map]. split; [reflexivity|].
  apply col_pad_lookup. rewrite list_lookup_fmap.
  rewrite (foldl_col_iadd_lookup label rest c0 i a Ha).
  cbn [fmap option_fmap option_map]. f_equal.
  rewrite <- (length_map (cell_at label i) rest), cells_mean_foldl.
  cbn [map]. do 2 f_equal. unfold cell_at, df_column. by rewrite Hc0, Ha.
Qed.

Lemma average_data_mean_witness :
  exists averaged c,
    average_data (sample_csv :: [sample_csv_2]) ["CA"; "CV"] = Ok averaged
    /\ df_column "CA" averaged = Some c
    /\ c !! 0%nat = Some (cells_mean (map (cell_at "CA" 0) (sample_csv :: [sample_csv_2]))).
Proof.
  apply (average_data_mean sample_csv [sample_csv_2] ["CA"; "CV"] "CA" 0).
  - apply (bool_decide_unpack _). vm_compute. reflexivity.
  - intros f Hf label Hl.
    apply elem_of_cons in Hf as [->|Hf]; [|apply list_elem_of_singleton in Hf as ->];
      solve_label_in Hl.
  - by left.
  - split; [repeat constructor | apply (bool_decide_unpack _); vm_compute; reflexivity].
  - simpl. lia.
Defined.

(** ** The layout of the result *)

(** X25.  When every file has the requested columns (distinct labels), the
    result lists the requested columns first, in the order of [columns], and then the
    other columns of the last file in their own order; it has as many
    rows as the longer of the first and the last file. *)
Theorem average_data_layout first rest columns :
  NoDup columns ->
  (forall f, f ∈ first :: rest -> forall l, l ∈ columns -> l ∈ df_labels f) ->
  exists averaged,
    average_data (first :: rest) columns = Ok averaged
    /\ df_labels averaged
       = columns ++ filter (fun label => label ∉ columns)
                           (df_labels (default first (last rest)))
    /\ df_len averaged = Nat.max (df_len first) (df_len (default first (last rest))).
Proof.
  intros _ Hall. eexists. split; [by apply average_data_cons|].
  split.
  - unfold df_labels at 1, df_concat_axis1. cbn [df_cols].
    rewrite map_map. cbn [fst]. rewrite map_app. f_equal.
    + unfold df_div. cbn [df_cols]. rewrite map_map. cbn [fst].
      rewrite foldl_iadd_labels. apply select_labels. apply Hall. by left.
    + apply select_labels. intros label Hl.
      by apply list_elem_of_filter in Hl as [_ Hl].
  - cbn [df_concat_axis1 df_len df_div df_select]. by rewrite foldl_iadd_len.
Qed.

Lemma average_data_layout_witness :
  exists averaged,
    average_data (sample_csv :: [sample_csv_short]) ["CV"; "CA"] = Ok averaged
    /\ df_labels averaged
       = ["CV"; "CA"] ++ filter (fun label => label ∉ ["CV"; "CA"])
                           (df_labels (default sample_csv (last [sample_csv_short])))
    /\ df_len averaged
       = Nat.max (df_len sample_csv) (df_len (default sample_csv (last [sample_csv_short]))).
Proof.
  apply (average_data_layout sample_csv [sample_csv_short] ["CV"; "CA"]).
  - apply (bool_decide_unpack _). vm_compute. reflexivity.
  - intros f Hf label Hl.
    apply elem_of_cons in Hf as [->|Hf]; [|apply list_elem_of_singleton in Hf as ->];
      solve_label_in Hl.
Defined.

End AverageDataMore.

(* ===================================================================== *)
(** * Further properties of the estimator *)
(* ===================================================================== *)

Section WindowSizeCount.




End WindowSizeCount.

Section StdFacts.
Local Open Scope R_scope.

Lemma Rsum_scale c (l : list R) : Rsum (map (fun v => c * v) l) = c * Rsum l.
Proof.
  induction l as [|x l IH]; [simpl; lra|].
  cbn [map Rsum foldr]. fold (Rsum (map (fun v => c * v) l)). fold (Rsum l).
  rewrite IH. lra.
Qed.

Lemma mean_scale c (l : list R) : mean (map (fun v => c * v) l) = c * mean l.
Proof. unfold mean. rewrite Rsum_scale, length_map. unfold Rdiv. ring. Qed.

Lemma Rsum_affine a b (l : list R) :
  Rsum (map (fun v => a * v + b) l) = a * Rsum l + INR (length l) * b.
Proof.
  induction l as [|x l IH]; [simpl; lra|].
  cbn [map Rsum foldr length]. fold (Rsum (map (fun v => a * v + b) l)). fold (Rsum l).
  rewrite IH, S_INR. lra.
Qed.

Lemma mean_affine a b (l : list R) :
  l <> [] -> mean (map (fun v => a * v + b) l) = a * mean l + b.
Proof.
  intros Hne. unfold mean. rewrite Rsum_affine, length_map.
  field. apply not_0_INR. destruct l; [done | simpl; lia].
Qed.




(** The population standard deviation under an affine map. *)
Lemma std_affine a b (l : list R) : std (map (fun v => a * v + b) l) = Rabs a * std l.
Proof.
  destruct (decide (l = [])) as [->|Hne].
  { unfold std, mean. simpl. unfold Rdiv. rewrite Rmult_0_l, sqrt_0. ring. }
  unfold std. rewrite mean_affine by done. rewrite map_map.
  rewrite (map_ext _ (fun x => Rsqr a * ((x - mean l) * (x - mean l))))
    by (intros x; unfold Rsqr; ring).
  rewrite <- (map_map (fun x => (x - mean l) * (x - mean l)) (fun v => Rsqr a * v)).
  rewrite mean_scale. rewrite sqrt_mult_alt by apply Rle_0_sqr.
  by rewrite sqrt_Rsqr_abs.
Qed.

End StdFacts.

Section EstimatorMaps.
Local Open Scope R_scope.

Variable divide_windows : image -> Z -> Z -> list R.

(** [df_out] of a table whose rows are changed without touching [size]
    and [number]. *)
Lemma build_df_out_map (g : df_row -> df_row) (df : list df_row) :
  (forall r, df_size (g r) = df_size r) ->
  (forall r, df_number (g r) = df_number r) ->
  build_df_out (map g df)
  = flat_map (fun number =>
      let subdata1 := filter (fun r => df_number r = number) df in
      map (fun s =>
             let subdata := filter (fun r => df_size r = s) subdata1 in
             OutRow (IZR s ^ 2) (IZR s ^ 2 * std (map (fun r => df_I (g r)) subdata)) s number)
          (drop_duplicates (map df_size subdata1)))
      (drop_duplicates (map df_number df)).
Proof.
  intros Hsize Hnum. unfold build_df_out.
  rewrite map_map. rewrite (map_ext (fun r => df_number (g r)) df_number) by done.
  apply flat_map_ext_in. intros number _. cbn zeta.
  rewrite (filter_map_commute g (fun r => df_number r = number)
             (fun r => df_number r = number))
    by (intros r; by rewrite Hnum).
  rewrite map_map. rewrite (map_ext (fun r => df_size (g r)) df_size) by done.
  apply map_ext. intros s.
  rewrite (filter_map_commute g (fun r => df_size r = s) (fun r => df_size r = s))
    by (intros r; by rewrite Hsize).
  by rewrite map_map.
Qed.

Lemma build_df_map (dw' : image -> Z -> Z -> list R) (g : df_row -> df_row)
    (h : Z * image -> Z * image) sizes frames :
  (forall fr bs k v,
     divide_windows (snd fr) bs step !! k = Some v ->
     exists v', dw' (snd (h fr)) bs step !! k = Some v'
                /\ DfRow v' (fst (h fr)) bs k = g (DfRow v (fst fr) bs k)) ->
  (forall fr bs, length (dw' (snd (h fr)) bs step) = length (divide_windows (snd fr) bs step)) ->
  build_df dw' sizes (map h frames) = map g (build_df divide_windows sizes frames).
Proof.
  intros Hrow Hlen. unfold build_df. rewrite map_flat_map, flat_map_concat_map, map_map.
  rewrite <- flat_map_concat_map. apply flat_map_ext_in. intros fr _.
  unfold framedf. rewrite map_flat_map. apply flat_map_ext_in. intros bs _.
  unfold tempdf. apply list_eq. intros k.
  rewrite list_lookup_fmap, !list_lookup_imap.
  destruct (divide_windows (snd fr) bs step !! k) as [v|] eqn:E.
  - destruct (Hrow fr bs k v E) as (v' & -> & Heq). simpl. by rewrite Heq.
  - apply lookup_ge_None in E. rewrite <- Hlen in E.
    apply lookup_ge_None in E. by rewrite E.
Qed.






(** ** A sequence that repeats one frame *)



End EstimatorMaps.


Section EstimatorInvariance.
Local Open Scope R_scope.

Variable divide_windows : image -> Z -> Z -> list R.

Lemma build_df_out_affine a (b : Z -> R) (df : list df_row) :
  build_df_out (map (fun r => DfRow (a * df_I r + b (df_size r)) (df_t r)
                                     (df_size r) (df_number r)) df)
  = map (fun o => OutRow (out_n o) (Rabs a * out_d o) (out_size o) (out_number o))
        (build_df_out df).
Proof.
  rewrite build_df_out_map by done. unfold build_df_out.
  rewrite map_flat_map. apply flat_map_ext_in. intros number _. cbn zeta.
  rewrite map_map. apply map_ext. intros s. cbn [out_n out_d out_size out_number df_I].
  f_equal.
  rewrite (map_ext_elem (fun r => a * df_I r + b (df_size r))
             (fun r => a * df_I r + b s))
    by (intros r Hr; by apply list_elem_of_filter in Hr as [-> _]).
  rewrite <- (map_map df_I (fun v => a * v + b s)), std_affine. ring.
Qed.

Lemma build_average_scale c (df_out : list out_row) :
  build_average (map (fun o => OutRow (out_n o) (c * out_d o) (out_size o) (out_number o))
                     df_out)
  = map (scale_avg c) (build_average df_out).
Proof.
  unfold build_average. rewrite !map_map. cbn [out_size].
  apply map_ext. intros s.
  rewrite (filter_map_commute _ (fun r => out_size r = s) (fun r => out_size r = s))
    by done.
  rewrite !map_map. unfold scale_avg. cbn [out_n out_d avg_n avg_d]. f_equal.
  by rewrite <- (map_map out_d (fun v => c * v)), mean_scale.
Qed.

(** X29.  An affine change of the window intensities, gain [a] and an offset
    that may depend on the window size, keeps every [n] and multiplies
    every [d] by [|a|]: the estimate does not see a constant background
    and scales with the gain. *)
Theorem df2_affine a (b : Z -> R) frames :
  df2 (affine_windows a b divide_windows) frames
  = match df2 divide_windows frames with
    | Ok average => Ok (map (scale_avg (Rabs a)) average)
    | Raise e => Raise e
    end.
Proof.
  destruct frames as [|[t0 img0] rest]; [done|].
  unfold df2. f_equal.
  rewrite <- build_average_scale, <- (build_df_out_affine a b). do 2 f_equal.
  rewrite <- (map_id ((t0, img0) :: rest)) at 1.
  apply build_df_map.
  - intros fr bs k v Hv. exists (a * v + b bs). split; [|done].
    unfold affine_windows. cbn [id]. by rewrite list_lookup_fmap, Hv.
  - intros fr bs. unfold affine_windows. cbn [id]. by rewrite length_map.
Qed.

(** X30.  The frame numbers (the file names) play no part: changing them
    leaves the table [average] as it is. *)
Theorem df2_frame_numbers (f : Z -> Z) frames :
  df2 divide_windows (map (renumber f) frames) = df2 divide_windows frames.
Proof.
  destruct frames as [|[t0 img0] rest]; [done|].
  change (df2 divide_windows (map (renumber f) ((t0, img0) :: rest)))
    with (Ok (build_average (build_df_out
                (build_df divide_windows (boxsize (shorter_side img0))
                          (map (renumber f) ((t0, img0) :: rest)))))).
  unfold df2. do 2 f_equal.
  rewrite (build_df_map divide_windows divide_windows
             (fun r => DfRow (df_I r) (f (df_t r)) (df_size r) (df_number r))
             (renumber f)).
  - rewrite build_df_out_map by done. reflexivity.
  - intros fr bs k v Hv. exists v. by split.
  - done.
Qed.

End EstimatorInvariance.
